(** * A shallow embedding of the chat relay of [server.py]

    The development follows the source file top to bottom: text values,
    the per-connection [User] object, the [ChatServer] registry with its
    delivery functions, the command interpreter [handle_command] and the
    connection handler [handle_client].  Python objects live in a store
    indexed by object identity, so that the registry and a handler refer
    to the same mutable [User].

    What the model takes from outside: the lines of each read, already
    decoded and cut by [splitlines]; the clock; a database that can be
    opened.  A handler runs one line to its end before another handler
    moves: the registry is only ever assigned between two [await]s, so
    every state of the registry the program can reach is reached this
    way.  Output on [stdout] is left out. *)

From Stdlib Require Import ZArith NArith List Ascii String DecimalString.
From stdpp Require Import gmap list fin_maps sorting.

Open Scope N_scope.

(** ** Text

    A Python [str] is a sequence of code points.  Lengths, slices and
    membership tests of the source are the list operations. *)

Abbreviation str := (list N).

Definition lit (s : string) : str := map N_of_ascii (list_ascii_of_string s).

Definition str_of_nat (n : nat) : str := lit (NilEmpty.string_of_uint (Nat.to_uint n)).

(** Code points the source names in literals. *)
Definition SP : N := 32.
Definition SLASH : N := 47.
Definition UNDERSCORE : N := 95.
Definition HYPHEN : N := 45.
Definition LT : N := 60.
Definition GT : N := 62.
Definition LBRACK : N := 91.
Definition RBRACK : N := 93.
Definition ARROW_R : N := 8594.
Definition ARROW_L : N := 8592.
Definition ESC : N := 27.
Definition CRLF : str := [13; 10].

(** [str.isspace] on one code point: the white-space table of the
    interpreter, used by [strip] and by [split] without a separator. *)
Definition isspace (c : N) : bool :=
  ((9 <=? c) && (c <=? 13)) || ((28 <=? c) && (c <=? 32))
  || (c =? 133) || (c =? 160) || (c =? 5760)
  || ((8192 <=? c) && (c <=? 8202))
  || (c =? 8232) || (c =? 8233) || (c =? 8239) || (c =? 8287) || (c =? 12288).

Fixpoint lstrip (s : str) : str :=
  match s with
  | c :: s' => if isspace c then lstrip s' else s
  | [] => []
  end.

Definition rstrip (s : str) : str := rev (lstrip (rev s)).

Definition strip (s : str) : str := rstrip (lstrip s).

(** The first white-space delimited word of [s] and what follows it. *)
Fixpoint span_word (s : str) : str * str :=
  match s with
  | c :: s' =>
      if isspace c then ([], s)
      else let '(w, r) := span_word s' in (c :: w, r)
  | [] => ([], [])
  end.

(** [s.split()] : maximal runs of non white space.  [cur] is the word
    being read, in reverse. *)
Fixpoint split_from (cur : str) (s : str) : list str :=
  match s with
  | c :: s' =>
      if isspace c
      then match cur with
           | [] => split_from [] s'
           | _ => rev cur :: split_from [] s'
           end
      else split_from (c :: cur) s'
  | [] => match cur with [] => [] | _ => [rev cur] end
  end.

Definition split (s : str) : list str := split_from [] s.

(** [s.split(maxsplit=1)] : the first word, then the rest with its
    leading white space removed and its trailing white space kept. *)
Definition split_max1 (s : str) : list str :=
  match lstrip s with
  | [] => []
  | s1 =>
      let '(w, r) := span_word s1 in
      match lstrip r with
      | [] => [w]
      | rest => [w; rest]
      end
  end.

(** [s.split(" ", 1)] : cut at the first space, if there is one. *)
Fixpoint split_sp1_from (cur : str) (s : str) : list str :=
  match s with
  | c :: s' => if c =? SP then [rev cur; s'] else split_sp1_from (c :: cur) s'
  | [] => [rev cur]
  end.

Definition split_sp1 (s : str) : list str := split_sp1_from [] s.

Definition contains (c : N) (s : str) : bool := existsb (N.eqb c) s.

Definition startswith_slash (s : str) : bool :=
  match s with
  | c :: _ => c =? SLASH
  | [] => false
  end.

Definition str_eqb (a b : str) : bool := bool_decide (a = b).

(** [s[i:j]] for [0 <= i <= j]. *)
Definition slice (i j : nat) (s : str) : str := take (j - i) (drop i s).

(** [s.replace(old, new)] : left to right, non overlapping, the inserted
    text is not scanned again.  [skip] counts the characters of a match
    still to be dropped. *)
Fixpoint is_prefix (p s : str) : bool :=
  match p, s with
  | [], _ => true
  | a :: p', b :: s' => (a =? b) && is_prefix p' s'
  | _ :: _, [] => false
  end.

Fixpoint replace_from (old new : str) (skip : nat) (s : str) : str :=
  match s with
  | c :: s' =>
      match skip with
      | S k => replace_from old new k s'
      | O =>
          if is_prefix old s
          then new ++ replace_from old new (length old - 1) s'
          else c :: replace_from old new 0 s'
      end
  | [] => []
  end.

Definition replace (old new : str) (s : str) : str :=
  match old with
  | [] => new ++ flat_map (fun c => c :: new) s
  | _ => replace_from old new 0 s
  end.

(** The remaining [str] methods depend on the Unicode character
    database.  The server is modelled over any such database; only the
    methods the source calls are listed.  [int_of_str] is [int(s)], with
    [None] for [ValueError]. *)
Class PyText := {
  lower : str -> str;
  isalnum : str -> bool;
  isdigit : str -> bool;
  int_of_str : str -> option Z
}.

(** The database restricted to what it says about ASCII letters and
    digits: on a string of ASCII characters [lower], [isalnum] and
    [isdigit] are those of the interpreter, and so is [int_of_str] on a
    string of digits, which is all the source hands to [int]. *)
Module Ascii7.

Definition is_upper (c : N) : bool := (65 <=? c) && (c <=? 90).
Definition is_lower (c : N) : bool := (97 <=? c) && (c <=? 122).
Definition is_digit (c : N) : bool := (48 <=? c) && (c <=? 57).

Definition lower_cp (c : N) : N := if is_upper c then c + 32 else c.

Definition lower (s : str) : str := map lower_cp s.

Definition nonempty_all (p : N -> bool) (s : str) : bool :=
  match s with
  | [] => false
  | _ => forallb p s
  end.

Definition isalnum (s : str) : bool :=
  nonempty_all (fun c => is_upper c || is_lower c || is_digit c) s.

Definition isdigit (s : str) : bool := nonempty_all is_digit s.

Definition decimal (s : str) : Z :=
  fold_left (fun acc c => (10 * acc + Z.of_N (c - 48))%Z) s 0%Z.

Definition int_of_str (s : str) : option Z :=
  let t := strip s in
  if isdigit t then Some (decimal t) else None.

End Ascii7.

Definition ascii_text : PyText :=
  {| lower := Ascii7.lower;
     isalnum := Ascii7.isalnum;
     isdigit := Ascii7.isdigit;
     int_of_str := Ascii7.int_of_str |}.

(** ** State

    [Writer] is the stream of one connection: what was handed to
    [write] so far, whether the peer is still there, and whether
    [close] was called.  A write on a lost or closed stream raises. *)

Record Writer := mkWriter {
  w_ok : bool;
  w_closed : bool;
  w_sent : list str
}.

Record User := mkUser {
  writer : Writer;
  nick : str;
  colors_enabled : bool
}.

(** One row of the [messages] table; the table is kept in [id] order. *)
Record Row := mkRow {
  from_nick : str;
  to_nick : option str;
  message : str;
  timestamp : str
}.

(** The process state: [users] is [chat_server.users], a dictionary from
    lower-cased nick to a reference to a [User]; [heap] holds the [User]
    objects by identity; [messages] is the table in the database. *)
Record World := mkWorld {
  users : gmap str nat;
  heap : gmap nat User;
  next_obj : nat;
  messages : list Row
}.

Definition set_users (f : gmap str nat -> gmap str nat) (w : World) : World :=
  mkWorld (f (users w)) (heap w) (next_obj w) (messages w).

Definition set_heap (f : gmap nat User -> gmap nat User) (w : World) : World :=
  mkWorld (users w) (f (heap w)) (next_obj w) (messages w).

Definition insert_row (r : Row) (w : World) : World :=
  mkWorld (users w) (heap w) (next_obj w) (messages w ++ [r]).

Definition set_writer (x : Writer) (u : User) : User :=
  mkUser x (nick u) (colors_enabled u).

Definition set_nick (n : str) (u : User) : User :=
  mkUser (writer u) n (colors_enabled u).

Definition set_colors (b : bool) (u : User) : User :=
  mkUser (writer u) (nick u) b.

(** The value a Python call hands back. *)
Inductive pyval :=
  | PyNone
  | PyBool (b : bool).

(** How a handler ends: it returns, or an exception leaves it.  Either
    way the mutations done so far stay. *)
Inductive outcome :=
  | Returned (w : World)
  | Raised (w : World).

Definition world_of (o : outcome) : World :=
  match o with
  | Returned w => w
  | Raised w => w
  end.

(** [writer.write(data)] followed by [await writer.drain()]; [None] is
    an exception. *)
Definition writer_write (x : Writer) (data : str) : option Writer :=
  if w_ok x && negb (w_closed x)
  then Some (mkWriter (w_ok x) (w_closed x) (w_sent x ++ [data]))
  else None.

(** [try: u.writer.write(data); await u.writer.drain()  except: pass] on
    the object [o]. *)
Definition try_write (o : nat) (data : str) (w : World) : World :=
  match heap w !! o with
  | Some u =>
      match writer_write (writer u) data with
      | Some x => set_heap (insert o (set_writer x u)) w
      | None => w
      end
  | None => w
  end.

(** ** ANSI colors *)

Module COLORS.
Definition reset : str := ESC :: lit "[0m".
Definition red : str := ESC :: lit "[31m".
Definition green : str := ESC :: lit "[32m".
Definition yellow : str := ESC :: lit "[33m".
Definition blue : str := ESC :: lit "[34m".
Definition purple : str := ESC :: lit "[35m".
Definition cyan : str := ESC :: lit "[36m".
Definition white : str := ESC :: lit "[97m".
End COLORS.

Definition MOTD : list str :=
  [ lit "==============================";
    lit "  Welcome to Simple Chat     ";
    lit "  /help    " ++ [ARROW_R] ++ lit " commands        ";
    lit "  /color on/off " ++ [ARROW_R] ++ lit " toggle ansi";
    lit "==============================" ].

(** ** ChatServer *)

Definition apply_color (u : User) (text : str) : str :=
  if negb (colors_enabled u) then text
  else
    replace [ARROW_L] (COLORS.purple ++ [ARROW_L] ++ COLORS.reset)
      (replace [ARROW_R] (COLORS.cyan ++ [ARROW_R] ++ COLORS.reset)
        (replace [RBRACK] ([RBRACK] ++ COLORS.reset)
          (replace [LBRACK] (COLORS.yellow ++ [LBRACK])
            (replace [GT] ([GT] ++ COLORS.reset)
              (replace [LT] (COLORS.green ++ [LT]) text))))).

(** The body of both delivery loops: color for the recipient, then a
    guarded write of the line. *)
Definition deliver (o : nat) (msg : str) (w : World) : World :=
  match heap w !! o with
  | Some u => try_write o (apply_color u msg ++ CRLF) w
  | None => w
  end.

Section Server.

Context {T : PyText}.

(** [if skip_nick and nick_lower == skip_nick.lower(): continue] *)
Definition skipped (skip_nick : option str) (nick_lower : str) : bool :=
  match skip_nick with
  | Some n =>
      match n with
      | [] => false
      | _ => str_eqb nick_lower (lower n)
      end
  | None => false
  end.

Definition broadcast_one (msg : str) (skip_nick : option str)
    (w : World) (entry : str * nat) : World :=
  if skipped skip_nick (fst entry) then w else deliver (snd entry) msg w.

(** The loop runs over [list(self.users.items())], a copy taken before
    the first write. *)
Definition broadcast (msg : str) (skip_nick : option str) (w : World) : World :=
  foldl (broadcast_one msg skip_nick) w (map_to_list (users w)).

(** The function has no [return]: the caller gets [None] on both paths. *)
Definition send_to (n : str) (msg : str) (w : World) : pyval * World :=
  let nick_lower := lower n in
  match users w !! nick_lower with
  | Some o => (PyNone, deliver o msg w)
  | None => (PyNone, w)
  end.

(** ** Helpers: replies to the issuing connection, prefixed with a colon *)

Definition send_msg (o : nat) (text : str) (w : World) : World :=
  try_write o (lit ":" ++ text ++ CRLF) w.

Definition send_lines (o : nat) (lines : list str) (w : World) : World :=
  foldl (fun acc l => send_msg o l acc) w lines.

(** ** The database

    A Python [int] given as a parameter of a statement is bound as a
    64-bit integer; [execute] raises [OverflowError] when it does not
    fit. *)
Definition fits_int64 (z : Z) : bool :=
  (-9223372036854775808 <=? z)%Z && (z <=? 9223372036854775807)%Z.

(** [SELECT ... WHERE p ORDER BY id DESC LIMIT n] followed by
    [fetchall()], for a limit that was bound: newest first; a negative
    limit means no limit.  The limit [server.py] binds is the smaller
    of 300 and the value of a string of digits, or 10, which fits
    ([history_limit_binds]); where the limit can be any integer, as in
    [ssh_server.py], the binding is checked first, in
    [Ssh.fetch_desc]. *)
Definition select_desc (p : Row -> bool) (limit : Z) (tbl : list Row) : list Row :=
  let hits := rev (List.filter p tbl) in
  if (limit <? 0)%Z then hits else take (Z.to_nat limit) hits.

(** What the clock says while one line is handled: [strftime("%H:%M")]
    in the handler and [CURRENT_TIMESTAMP] in the database. *)
Record Clock := mkClock {
  hhmm : str;
  current_timestamp : str
}.

(** ** Commands *)

(** The first three statements of [handle_command]: the verb and the
    argument text.  [None] is the [IndexError] of [parts[0]]. *)
Definition parse_command (line : str) : option (str * str) :=
  match split_max1 (strip line) with
  | [] => None
  | p0 :: rest =>
      Some (if startswith_slash p0 then drop 1 (lower p0) else [],
            match rest with
            | a :: _ => a
            | [] => []
            end)
  end.

Definition help_lines : list str :=
  [ lit "/nick <name>          " ++ [ARROW_R] ++ lit " change nickname";
    lit "/msg <nick> <text>    " ++ [ARROW_R] ++ lit " send private message";
    lit "/dm <nick> <text>     " ++ [ARROW_R] ++ lit " same as /msg";
    lit "/history [n]          " ++ [ARROW_R] ++ lit " show last n messages (default 10)";
    lit "/color on / off       " ++ [ARROW_R] ++ lit " toggle colored output";
    lit "/quit                 " ++ [ARROW_R] ++ lit " disconnect" ].

(** [not newnick.isalnum() and "_" not in newnick and "-" not in newnick] *)
Definition nick_refused (newnick : str) : bool :=
  negb (isalnum newnick) && negb (contains UNDERSCORE newnick)
  && negb (contains HYPHEN newnick).

(** [new_lower in chat_server.users and new_lower != user.nick.lower()] *)
Definition nick_in_use (w : World) (u : User) (new_lower : str) : bool :=
  bool_decide (is_Some (users w !! new_lower))
  && negb (str_eqb new_lower (lower (nick u))).

Definition cmd_nick (me : nat) (u : User) (args : str) (w : World) : outcome :=
  match args with
  | [] => Returned (send_msg me (lit "Usage: /nick NewName") w)
  | _ =>
      match split args with
      | [] => Raised w
      | tok :: _ =>
          let newnick := take 24 tok in
          if nick_refused newnick
          then Returned (send_msg me (lit "Nick can contain letters, numbers, _, -") w)
          else
            let new_lower := lower newnick in
            if nick_in_use w u new_lower
            then Returned (send_msg me (lit "Nickname already in use") w)
            else
              let old := nick u in
              let w1 := set_users (delete (lower (nick u))) w in
              let w2 := set_heap (insert me (set_nick newnick u)) w1 in
              let w3 := set_users (insert new_lower me) w2 in
              let w4 := broadcast (lit "* " ++ old ++ lit " is now known as " ++ newnick)
                          None w3 in
              Returned (send_msg me (lit "You are now " ++ newnick) w4)
      end
  end.

Definition cmd_msg (k : Clock) (me : nat) (u : User) (args : str) (w : World) : outcome :=
  match args with
  | [] => Returned (send_msg me (lit "Usage: /msg nickname message here") w)
  | _ =>
      if negb (contains SP args)
      then Returned (send_msg me (lit "Usage: /msg nickname message here") w)
      else
        match split_sp1 args with
        | [target; msg] =>
            let target_lower := lower target in
            if str_eqb target_lower (lower (nick u))
            then Returned (send_msg me (lit "Can't message yourself") w)
            else if negb (bool_decide (is_Some (users w !! target_lower)))
            then Returned (send_msg me (target ++ lit " is not online") w)
            else
              let ts := hhmm k in
              let w1 := send_msg me (lit "[" ++ ts ++ lit "] " ++ [ARROW_R] ++ lit " "
                                      ++ target ++ lit " " ++ msg) w in
              let '(_, w2) := send_to target (lit "[" ++ ts ++ lit "] " ++ [ARROW_L] ++ lit " "
                                      ++ nick u ++ lit " " ++ msg) w1 in
              Returned (insert_row (mkRow (nick u) (Some target) msg (current_timestamp k)) w2)
        | _ => Raised w
        end
  end.

(** [min(int(args) if args.strip().isdigit() else 10, 300)] under
    [try ... except: limit = 10]. *)
Definition history_limit (args : str) : Z :=
  if isdigit (strip args)
  then match int_of_str args with
       | Some n => Z.min n 300
       | None => 10%Z
       end
  else Z.min 10 300.

Definition involves (n : str) (r : Row) : bool :=
  str_eqb (from_nick r) n
  || match to_nick r with
     | Some t => str_eqb t n
     | None => false
     end.

Definition is_public (r : Row) : bool :=
  match to_nick r with
  | Some _ => false
  | None => true
  end.

Definition dm_line (n : str) (r : Row) : str :=
  let t := slice 11 16 (timestamp r) in
  let arrow := if str_eqb (from_nick r) n then ARROW_R else ARROW_L in
  let who := if str_eqb (from_nick r) n
             then match to_nick r with
                  | Some t => t
                  | None => lit "None"
                  end
             else from_nick r in
  lit "[" ++ t ++ lit "] " ++ [arrow] ++ lit " " ++ who ++ lit " " ++ message r.

Definition public_line (r : Row) : str :=
  let t := slice 11 16 (timestamp r) in
  lit "[" ++ t ++ lit "] <" ++ from_nick r ++ lit "> " ++ message r.

Definition history_dm (me : nat) (u : User) (limit : Z) (w : World) : World :=
  let rows := rev (select_desc (involves (nick u)) limit (messages w)) in
  let w1 := send_msg me (lit "Recent private messages (" ++ str_of_nat (length rows)
                          ++ lit "):") w in
  send_lines me (map (dm_line (nick u)) rows) w1.

Definition history_public (me : nat) (limit : Z) (w : World) : World :=
  let rows := rev (select_desc is_public limit (messages w)) in
  let w1 := send_msg me (lit "Recent public messages (" ++ str_of_nat (length rows)
                          ++ lit "):") w in
  send_lines me (map public_line rows) w1.

Definition cmd_history (me : nat) (u : User) (args : str) (w : World) : outcome :=
  let limit := history_limit args in
  if contains SP args
  then match split args with
       | _ :: second :: _ =>
           if str_eqb (lower second) (lit "dm")
           then Returned (history_dm me u limit w)
           else Returned (history_public me limit w)
       | _ => Raised w
       end
  else Returned (history_public me limit w).

Definition cmd_color (me : nat) (u : User) (args : str) (w : World) : outcome :=
  if str_eqb (lower args) (lit "on")
  then Returned (send_msg me (lit "Colored output " ++ [ARROW_R] ++ lit " enabled")
                   (set_heap (insert me (set_colors true u)) w))
  else if str_eqb (lower args) (lit "off")
  then Returned (send_msg me (lit "Colored output " ++ [ARROW_R] ++ lit " disabled")
                   (set_heap (insert me (set_colors false u)) w))
  else Returned (send_msg me (lit "Current: "
                   ++ (if colors_enabled u then lit "on" else lit "off")
                   ++ lit "   Usage: /color on|off") w).

(** [handle_command(user, line)], with [user] the object [me].  A
    reference always denotes an allocated object, so the branch for a
    missing one is never taken. *)
Definition handle_command (k : Clock) (me : nat) (line : str) (w : World) : outcome :=
  match heap w !! me with
  | None => Returned w
  | Some u =>
      match parse_command line with
      | None => Raised w
      | Some (cmd, args) =>
          if str_eqb cmd (lit "help") then Returned (send_lines me help_lines w)
          else if str_eqb cmd (lit "nick") then cmd_nick me u args w
          else if str_eqb cmd (lit "msg") || str_eqb cmd (lit "dm")
          then cmd_msg k me u args w
          else if str_eqb cmd (lit "history") then cmd_history me u args w
          else if str_eqb cmd (lit "color") then cmd_color me u args w
          else Returned w
      end
  end.

(** ** Client handler *)

(** The statements of [handle_client] before its loop. *)
Definition connect (w : World) : World :=
  let me := next_obj w in
  let user := mkUser (mkWriter true false []) (lit "Guest") false in
  let w1 := mkWorld (users w) (<[me := user]> (heap w)) (S me) (messages w) in
  let w2 := set_users (insert (lower (nick user)) me) w1 in
  let w3 := send_lines me ((lit ":server 001 " ++ nick user ++ lit " :Welcome!") :: MOTD) w2 in
  broadcast (lit "* " ++ nick user ++ lit " has joined the chat") None w3.

(** The body of the loop over the lines of one read. *)
Definition handle_line (k : Clock) (me : nat) (raw : str) (w : World) : outcome :=
  match heap w !! me with
  | None => Returned w
  | Some u =>
      let line := strip raw in
      match line with
      | [] => Returned w
      | _ =>
          if startswith_slash line then handle_command k me line w
          else if (400 <? length line)%nat
          then Returned (send_msg me (lit "Message too long (max ~400 chars)") w)
          else
            let ts := hhmm k in
            let msg_line := lit "[" ++ ts ++ lit "] <" ++ nick u ++ lit "> " ++ line in
            let w1 := broadcast msg_line (Some (nick u)) w in
            Returned (insert_row (mkRow (nick u) None line (current_timestamp k)) w1)
      end
  end.

Definition close_writer (u : User) : User :=
  set_writer (mkWriter (w_ok (writer u)) true (w_sent (writer u))) u.

(** The [finally] block of [handle_client]. *)
Definition disconnect (me : nat) (w : World) : World :=
  match heap w !! me with
  | None => w
  | Some u =>
      let nick_lower := lower (nick u) in
      let w1 := if bool_decide (is_Some (users w !! nick_lower))
                then set_users (delete nick_lower) w else w in
      let w2 := broadcast (lit "* " ++ nick u ++ lit " has left") None w1 in
      set_heap (alter close_writer me) w2
  end.

(** ** The server as a transition system

    What happens to the process, one handler step at a time: a
    connection is accepted; a line arrives on a connection; a connection
    reaches end of stream; the peer of a connection goes away, so that
    writes to it fail from then on. *)
Inductive event :=
  | Accept
  | Recv (me : nat) (k : Clock) (raw : str)
  | Eof (me : nat)
  | Lost (me : nat).

Definition connected (w : World) (o : nat) : Prop :=
  exists u, heap w !! o = Some u /\ w_closed (writer u) = false.

Definition connectedb (w : World) (o : nat) : bool :=
  match heap w !! o with
  | Some u => negb (w_closed (writer u))
  | None => false
  end.

Definition lose_writer (u : User) : User :=
  set_writer (mkWriter false (w_closed (writer u)) (w_sent (writer u))) u.

(** A handler that has ended reads no more lines; an exception out of
    the loop body runs the [finally] block. *)
Definition step (w : World) (e : event) : World :=
  match e with
  | Accept => connect w
  | Recv me k raw =>
      if connectedb w me
      then match handle_line k me raw w with
           | Returned w' => w'
           | Raised w' => disconnect me w'
           end
      else w
  | Eof me => if connectedb w me then disconnect me w else w
  | Lost me => set_heap (alter lose_writer me) w
  end.

Definition run (w : World) (es : list event) : World := foldl step w es.

Definition world0 : World := mkWorld ∅ ∅ 0 [].

End Server.

(** ** Vocabulary of the properties *)

(** The stream after a guarded write: one more item if the write went
    through, the same stream if it raised. *)
Definition written (data : str) (x : Writer) : Writer :=
  match writer_write x data with
  | Some x' => x'
  | None => x
  end.

Definition wrote (data : str) (u : User) : User :=
  set_writer (written data (writer u)) u.

(** Everything about a [User] except what was sent to it. *)
Definition shape (u : User) : str * bool * bool * bool :=
  (nick u, colors_enabled u, w_ok (writer u), w_closed (writer u)).

(** [w'] is [w] after some writes: nothing changed but the lists of
    items sent. *)
Definition same_but_sent (w w' : World) : Prop :=
  users w' = users w /\ messages w' = messages w /\ next_obj w' = next_obj w
  /\ forall o, shape <$> heap w' !! o = shape <$> heap w !! o.

(** The six replacements of [apply_color], in the order of the source. *)
Definition color_subs : list (str * str) :=
  [ ([LT], COLORS.green ++ [LT]);
    ([GT], [GT] ++ COLORS.reset);
    ([LBRACK], COLORS.yellow ++ [LBRACK]);
    ([RBRACK], [RBRACK] ++ COLORS.reset);
    ([ARROW_R], COLORS.cyan ++ [ARROW_R] ++ COLORS.reset);
    ([ARROW_L], COLORS.purple ++ [ARROW_L] ++ COLORS.reset) ].

(** Replacements applied one after the other, each to the output of the
    one before. *)
Definition render_seq (subs : list (str * str)) (text : str) : str :=
  foldl (fun t p => replace (fst p) (snd p) t) text subs.

(** What one character of the text becomes when colors are on. *)
Definition expand (c : N) : str :=
  if c =? LT then [ESC] ++ COLORS.yellow ++ [LBRACK] ++ lit "32m<"
  else if c =? GT then [GT; ESC] ++ COLORS.yellow ++ [LBRACK] ++ lit "0m"
  else if c =? LBRACK then COLORS.yellow ++ [LBRACK]
  else if c =? RBRACK then [RBRACK] ++ COLORS.reset
  else if c =? ARROW_R then COLORS.cyan ++ [ARROW_R] ++ COLORS.reset
  else if c =? ARROW_L then COLORS.purple ++ [ARROW_L] ++ COLORS.reset
  else [c].

(** A [User] after one delivery of [msg]: colored for it, one guarded
    write. *)
Definition received (msg : str) (u : User) : User :=
  wrote (apply_color u msg ++ CRLF) u.

(** A text whose last character is not white space. *)
Definition ends_in_word (s : str) : Prop :=
  exists init c, s = init ++ [c] /\ isspace c = false.

Section Properties.

Context {T : PyText}.

(** The registry as the handlers keep it: an entry is filed under the
    lower-cased nick of the object it refers to, that object belongs to
    a connection still open, and object identities below [next_obj] are
    the ones in use. *)
Definition registry_ok (w : World) : Prop :=
  (forall key o, users w !! key = Some o ->
     exists u, heap w !! o = Some u /\ key = lower (nick u)
               /\ w_closed (writer u) = false)
  /\ (forall o, is_Some (heap w !! o) -> (o < next_obj w)%nat).

(** Every open connection has its entry. *)
Definition all_registered (w : World) : Prop :=
  forall o u, heap w !! o = Some u -> w_closed (writer u) = false ->
    users w !! lower (nick u) = Some o.

(** No connection is accepted while the key of the default nick is in
    the registry. *)
Fixpoint placeholder_free (w : World) (es : list event) : bool :=
  match es with
  | [] => true
  | e :: es' =>
      match e with
      | Accept => bool_decide (users w !! lower (lit "Guest") = None)
      | _ => true
      end && placeholder_free (step w e) es'
  end.

(** The word a [/nick] line asks for, before it is cut to 24. *)
Definition nick_token (line : str) : option str :=
  match parse_command line with
  | Some (cmd, args) =>
      if str_eqb cmd (lit "nick") then head (split args) else None
  | None => None
  end.

Definition known_verbs : list str :=
  [lit "help"; lit "nick"; lit "msg"; lit "dm"; lit "history"; lit "color"].

(** No entry refers to the object [o]. *)
Definition unlisted (w : World) (o : nat) : Prop :=
  forall key, users w !! key <> Some o.

(** The three assignments of a successful [/nick]. *)
Definition renamed (me : nat) (u : User) (newnick : str) (w : World) : World :=
  set_users (insert (lower newnick) me)
    (set_heap (insert me (set_nick newnick u))
       (set_users (delete (lower (nick u))) w)).

(** A step from [w] to [w'] keeps the registry in order, and keeps it
    complete if it was. *)
Definition preserves (w w' : World) : Prop :=
  (registry_ok w -> registry_ok w')
  /\ (registry_ok w -> all_registered w -> all_registered w').

(** The verb of a command line, as [handle_command] computes it. *)
Definition verb_of (line : str) : str :=
  match parse_command line with
  | Some (cmd, _) => cmd
  | None => []
  end.

End Properties.

(** ** Sample runs, over the ASCII database *)

Section Samples.

#[local] Existing Instance ascii_text.

Definition noon : Clock := mkClock (lit "12:00") (lit "2026-01-01 12:00:00").

(** Two connections, neither renamed. *)
Definition two_guests : list event := [Accept; Accept].

Definition after_two_guests : World := run world0 two_guests.

(** Renames between connections, so that the default key is free at
    each [Accept]. *)
Definition polite_run : list event :=
  [ Accept; Recv 0 noon (lit "/nick alice");
    Accept; Recv 1 noon (lit "hello");
    Recv 1 noon (lit "/nick Alice");
    Recv 1 noon (lit "/nick bob");
    Accept; Lost 1;
    Recv 0 noon (lit "hi <all> [now]") ].

Definition after_polite_run : World := run world0 polite_run.

(** alice has sent six private messages to bob. *)
Definition six_dms : list event :=
  [ Accept; Recv 0 noon (lit "/nick alice");
    Accept; Recv 1 noon (lit "/nick bob");
    Recv 0 noon (lit "/msg bob one"); Recv 0 noon (lit "/msg bob two");
    Recv 0 noon (lit "/msg bob three"); Recv 0 noon (lit "/msg bob four");
    Recv 0 noon (lit "/msg bob five"); Recv 0 noon (lit "/msg bob six") ].

Definition after_six_dms : World := run world0 six_dms.

Definition sent_to (w : World) (o : nat) : list str :=
  match heap w !! o with
  | Some u => w_sent (writer u)
  | None => []
  end.

Definition nick_of (w : World) (o : nat) : option str := nick <$> heap w !! o.

Definition colored_user : User := mkUser (mkWriter true false []) (lit "Guest") true.

(** The replacements of [apply_color] with the one for the opening
    bracket moved to the front. *)
Definition bracket_first : list (str * str) :=
  [ ([LBRACK], COLORS.yellow ++ [LBRACK]);
    ([LT], COLORS.green ++ [LT]);
    ([GT], [GT] ++ COLORS.reset);
    ([RBRACK], [RBRACK] ++ COLORS.reset);
    ([ARROW_R], COLORS.cyan ++ [ARROW_R] ++ COLORS.reset);
    ([ARROW_L], COLORS.purple ++ [ARROW_L] ++ COLORS.reset) ].

End Samples.

(** ** Vocabulary of the further properties *)

(** A reply of [send_msg], as it goes on the stream. *)
Definition reply (text : str) : str := lit ":" ++ text ++ CRLF.

(** A stream that takes a write: the peer is there and [close] was not
    called. *)
Definition writable (u : User) : bool :=
  w_ok (writer u) && negb (w_closed (writer u)).

(** [u] after guarded writes of the items [ds], in this order. *)
Definition push (ds : list str) (u : User) : User :=
  if writable u
  then set_writer (mkWriter (w_ok (writer u)) (w_closed (writer u))
                     (w_sent (writer u) ++ ds)) u
  else u.

(** A nick as the handlers make them: not empty, at most 24 characters,
    no white space in it. *)
Definition nick_wf (n : str) : Prop :=
  n <> [] /\ (length n <= 24)%nat /\ Forall (fun c => isspace c = false) n.

(** None of the characters [apply_color] looks for. *)
Definition plain (c : N) : bool :=
  negb ((c =? LT) || (c =? GT) || (c =? LBRACK) || (c =? RBRACK)
        || (c =? ARROW_R) || (c =? ARROW_L)).

Section MoreProperties.

Context {T : PyText}.

(** The target and the text of a [/msg] or [/dm] line that gets past the
    usage test. *)
Definition msg_request (line : str) : option (str * str) :=
  match parse_command line with
  | Some (cmd, args) =>
      if (str_eqb cmd (lit "msg") || str_eqb cmd (lit "dm"))
         && contains SP args
      then match split_sp1 args with
           | [target; msg] => Some (target, msg)
           | _ => None
           end
      else None
  | None => None
  end.

(** The notices the handlers broadcast. *)
Definition join_notice : str := lit "* " ++ lit "Guest" ++ lit " has joined the chat".

Definition leave_notice (n : str) : str := lit "* " ++ n ++ lit " has left".

Definition rename_notice (old new : str) : str :=
  lit "* " ++ old ++ lit " is now known as " ++ new.

Definition chat_notice (k : Clock) (n line : str) : str :=
  lit "[" ++ hhmm k ++ lit "] <" ++ n ++ lit "> " ++ line.

(** The lines sent first to a new connection. *)
Definition greeting : list str :=
  (lit ":server 001 " ++ lit "Guest" ++ lit " :Welcome!") :: MOTD.

End MoreProperties.


(** ** Further sample runs *)

Section MoreSamples.

#[local] Existing Instance ascii_text.

(** alice has said seven things in public, bob is there to hear them. *)
Definition seven_lines : list event :=
  [ Accept; Recv 0 noon (lit "/nick alice");
    Accept; Recv 1 noon (lit "/nick bob");
    Recv 0 noon (lit "one"); Recv 0 noon (lit "two"); Recv 0 noon (lit "three");
    Recv 0 noon (lit "four"); Recv 0 noon (lit "five"); Recv 0 noon (lit "six");
    Recv 0 noon (lit "seven"); Recv 0 noon (lit "/msg bob psst") ].

Definition after_seven_lines : World := run world0 seven_lines.

End MoreSamples.


(** ** The first statements of [handle_client], named *)

Section ConnectSteps.

Context {T : PyText}.

(** [User(writer)] for a new connection. *)
Definition new_user : User := mkUser (mkWriter true false []) (lit "Guest") false.

(** The state once [chat_server.users[user.nick.lower()] = user] is
    done for a new connection. *)
Definition with_new_guest (w : World) : World :=
  set_users (insert (lower (nick new_user)) (next_obj w))
    (mkWorld (users w) (<[next_obj w := new_user]> (heap w)) (S (next_obj w))
       (messages w)).

End ConnectSteps.


(** ** How states follow one another *)

(** One object before and after a handler has dealt with a line: the
    nick is kept or is a new well-formed one, the stream is neither
    lost nor closed by it, and what was sent is extended, by nothing
    when the stream takes no write. *)
Definition user_step (u u' : User) : Prop :=
  (nick u' = nick u \/ nick_wf (nick u'))
  /\ w_ok (writer u') = w_ok (writer u)
  /\ w_closed (writer u') = w_closed (writer u)
  /\ exists ds, w_sent (writer u') = w_sent (writer u) ++ ds
                /\ (writable u = false -> ds = []).

(** The state before and after a handler has dealt with a line. *)
Definition evolves (w w' : World) : Prop :=
  (exists rows, messages w' = messages w ++ rows)
  /\ next_obj w' = next_obj w
  /\ forall o, match heap w !! o, heap w' !! o with
               | Some u, Some u' => user_step u u'
               | None, None => True
               | _, _ => False
               end.

(** One object earlier and later in a run: what was sent is extended,
    by nothing once the stream takes no write, and such a stream never
    takes one again. *)
Definition user_ages (u u' : User) : Prop :=
  (nick u' = nick u \/ nick_wf (nick u'))
  /\ (exists ds, w_sent (writer u') = w_sent (writer u) ++ ds
                 /\ (writable u = false -> ds = []))
  /\ (w_ok (writer u) = false -> w_ok (writer u') = false)
  /\ (w_closed (writer u) = true -> w_closed (writer u') = true).

(** The state earlier and later in a run. *)
Definition ages (w w' : World) : Prop :=
  (exists rows, messages w' = messages w ++ rows)
  /\ (forall o u, heap w !! o = Some u ->
        exists u', heap w' !! o = Some u' /\ user_ages u u')
  /\ (forall o u', heap w' !! o = Some u' ->
        nick_wf (nick u') \/ exists u, heap w !! o = Some u /\ nick u' = nick u).


(** ** Rows as the handlers store them *)

(** The writer is a well-formed nick; the text ends in a character that
    is not white space; a public row has at most 400 characters; the
    recipient of a private row is not empty and holds no space. *)
Definition row_ok (r : Row) : Prop :=
  nick_wf (from_nick r)
  /\ ends_in_word (message r)
  /\ match to_nick r with
     | None => (length (message r) <= 400)%nat
     | Some t => t <> [] /\ contains SP t = false
     end.

(** From [w] to [w'] the table is the same or has one more row, a
    well-formed one. *)
Definition logged (w w' : World) : Prop :=
  messages w' = messages w
  \/ exists r, messages w' = messages w ++ [r] /\ row_ok r.


(** * The variant of [ssh_server.py]

    The second server has the same [User], [ChatServer] and helpers
    ([_maybe_color] is [apply_color], [send] is [send_to]); its command
    interpreter and its notices differ, and it has two more commands. *)

(** The database on the code points below 256: [lower], [isalnum],
    [isdigit] and [int_of_str] are those of the interpreter on strings
    of such code points, [int_of_str] on those of at most 4300 digits,
    beyond which the interpreter refuses to convert.  The superscripts
    one, two and three count as digits for [isdigit], and [int] raises
    on them; [int] takes a sign and single underscores between digits,
    and drops surrounding white space, of which it knows less than
    [strip] does. *)
Module Latin1.

Definition in_range (a b c : N) : bool := (a <=? c) && (c <=? b).

Definition is_upper (c : N) : bool :=
  in_range 65 90 c || in_range 192 214 c || in_range 216 222 c.

Definition lower_cp (c : N) : N := if is_upper c then c + 32 else c.

Definition lower (s : str) : str := map lower_cp s.

Definition is_alnum (c : N) : bool :=
  in_range 48 57 c || in_range 65 90 c || in_range 97 122 c
  || (c =? 170) || in_range 178 179 c || (c =? 181) || in_range 185 186 c
  || in_range 188 190 c || in_range 192 214 c || in_range 216 246 c
  || in_range 248 255 c.

Definition is_digit (c : N) : bool :=
  in_range 48 57 c || in_range 178 179 c || (c =? 185).

Definition isalnum (s : str) : bool := Ascii7.nonempty_all is_alnum s.

Definition isdigit (s : str) : bool := Ascii7.nonempty_all is_digit s.

Definition int_space (c : N) : bool :=
  in_range 9 13 c || (c =? 32) || (c =? 133) || (c =? 160).

Fixpoint drop_space (s : str) : str :=
  match s with
  | c :: s' => if int_space c then drop_space s' else s
  | [] => []
  end.

(** Digits with single underscores between them; [prev] says that the
    character before was a digit. *)
Fixpoint digits (prev : bool) (acc : Z) (s : str) : option Z :=
  match s with
  | [] => if prev then Some acc else None
  | c :: s' =>
      if Ascii7.is_digit c then digits true (10 * acc + Z.of_N (c - 48))%Z s'
      else if (c =? UNDERSCORE) && prev then digits false acc s'
      else None
  end.

Definition int_of_str (s : str) : option Z :=
  match rev (drop_space (rev (drop_space s))) with
  | c :: t =>
      if c =? 43 then digits false 0 t
      else if c =? HYPHEN then Z.opp <$> digits false 0 t
      else digits false 0 (c :: t)
  | [] => None
  end.

End Latin1.

Definition latin1_text : PyText :=
  {| lower := Latin1.lower;
     isalnum := Latin1.isalnum;
     isdigit := Latin1.isdigit;
     int_of_str := Latin1.int_of_str |}.

Module Ssh.

Definition NL : N := 10.
Definition AT : N := 64.
Definition EM_DASH : N := 8212.

(** An integer in an f-string. *)
Definition str_of_int (z : Z) : str := lit (NilEmpty.string_of_int (Z.to_int z)).

Definition MOTD : list str :=
  [ lit "==============================";
    lit "  Welcome to Simple Chat     ";
    lit "  /help          " ++ [ARROW_R] ++ lit " commands  ";
    lit "  /color on/off  " ++ [ARROW_R] ++ lit " ansi      ";
    lit "  /ssh @nick     " ++ [ARROW_R] ++ lit " crude rsh ";
    lit "==============================" ].

Definition help_lines : list str :=
  [ lit "/nick <name>";
    lit "/msg <nick> <text>   or   /dm ...";
    lit "/history [n]          or   /history dm";
    lit "/color on / off";
    lit "/ssh @nick            " ++ [ARROW_R] ++ lit " ask someone to give you shell";
    lit "/sshyes <port>        " ++ [ARROW_R] ++ lit " accept incoming shell request";
    lit "/quit" ].

(** [p in s] *)
Fixpoint is_infix (p s : str) : bool :=
  match s with
  | [] => is_prefix p []
  | _ :: s' => is_prefix p s || is_infix p s'
  end.

(** What the outside says while one line is handled: the clock, the
    value [secrets.randbelow(10000)] hands back, and the address the socket
    probe of [/sshyes] comes up with. *)
Record Env := mkEnv {
  clock : Clock;
  randbelow : Z;
  my_ip : str
}.

Section Server.

Context {T : PyText}.

Definition cmd_nick (me : nat) (u : User) (args : str) (w : World) : outcome :=
  match args with
  | [] => Returned (send_msg me (lit "Usage: /nick NewName") w)
  | _ =>
      match split args with
      | [] => Raised w
      | tok :: _ =>
          let newnick := take 24 tok in
          let new_lower := lower newnick in
          if nick_in_use w u new_lower
          then Returned (send_msg me (lit "Nick in use") w)
          else
            let old := nick u in
            let w1 := set_users (delete (lower (nick u))) w in
            let w2 := set_heap (insert me (set_nick newnick u)) w1 in
            let w3 := set_users (insert new_lower me) w2 in
            let w4 := broadcast (lit "* " ++ old ++ lit " " ++ [ARROW_R] ++ lit " "
                                 ++ newnick) None w3 in
            Returned (send_msg me (lit "Now known as " ++ newnick) w4)
      end
  end.

Definition cmd_msg (k : Clock) (me : nat) (u : User) (args : str) (w : World) : outcome :=
  if negb (contains SP args)
  then Returned (send_msg me (lit "Usage: /msg nick message") w)
  else
    match split_sp1 args with
    | [target; msg] =>
        let tlow := lower target in
        if negb (bool_decide (is_Some (users w !! tlow)))
        then Returned (send_msg me (target ++ lit " not online") w)
        else
          let ts := hhmm k in
          let w1 := send_msg me (lit "[" ++ ts ++ lit "] " ++ [ARROW_R] ++ lit " "
                                  ++ target ++ lit " " ++ msg) w in
          let '(_, w2) := send_to target (lit "[" ++ ts ++ lit "] " ++ [ARROW_L] ++ lit " "
                                  ++ nick u ++ lit " " ++ msg) w1 in
          Returned (insert_row (mkRow (nick u) (Some target) msg (current_timestamp k)) w2)
    | _ => Raised w
    end.

(** The limit of [/history]; [None] when [int(args)] raises, which is
    not under a [try]. *)
Definition history_limit (args : str) : option Z :=
  if isdigit args
  then match int_of_str args with
       | Some n => Some (Z.min n 300)
       | None => None
       end
  else if is_prefix (lit "dm") (lower (strip args))
  then Some match split args with
            | _ :: second :: _ =>
                match int_of_str second with
                | Some n => Z.min n 300
                | None => 10%Z
                end
            | _ => 10%Z
            end
  else Some 10%Z.

(** [c.execute(sql, (..., limit))] followed by [c.fetchall()]; [None]
    is the [OverflowError] of a limit that does not fit 64 bits.  The
    call is under no [try]. *)
Definition fetch_desc (p : Row -> bool) (limit : Z) (tbl : list Row)
    : option (list Row) :=
  if fits_int64 limit then Some (select_desc p limit tbl) else None.

Definition history_dm (me : nat) (u : User) (limit : Z) (w : World) : outcome :=
  match fetch_desc (involves (nick u)) limit (messages w) with
  | None => Raised w
  | Some fetched =>
      let rows := rev fetched in
      let w1 := send_msg me (lit "Recent DMs (" ++ str_of_nat (length rows)
                              ++ lit "):") w in
      Returned (send_lines me (map (dm_line (nick u)) rows) w1)
  end.

Definition history_public (me : nat) (limit : Z) (w : World) : outcome :=
  match fetch_desc is_public limit (messages w) with
  | None => Raised w
  | Some fetched =>
      let rows := rev fetched in
      let w1 := send_msg me (lit "Recent chat (" ++ str_of_nat (length rows)
                              ++ lit "):") w in
      Returned (send_lines me (map public_line rows) w1)
  end.

Definition cmd_history (me : nat) (u : User) (args : str) (w : World) : outcome :=
  match history_limit args with
  | None => Raised w
  | Some limit =>
      if is_infix (lit "dm") (lower args)
      then history_dm me u limit w
      else history_public me limit w
  end.

Definition one_of (s : str) (l : list str) : bool := existsb (str_eqb s) l.

Definition cmd_color (me : nat) (u : User) (args : str) (w : World) : outcome :=
  if one_of (lower args) [lit "on"; lit "yes"; lit "true"]
  then Returned (send_msg me (lit "Colors " ++ [ARROW_R] ++ lit " ON")
                   (set_heap (insert me (set_colors true u)) w))
  else if one_of (lower args) [lit "off"; lit "no"; lit "false"]
  then Returned (send_msg me (lit "Colors " ++ [ARROW_R] ++ lit " OFF")
                   (set_heap (insert me (set_colors false u)) w))
  else Returned (send_msg me (lit "Colors currently "
                   ++ (if colors_enabled u then lit "ON" else lit "OFF")) w).

(** The text sent to the target of [/ssh]. *)
Definition shell_request (from : str) (port : Z) : str :=
  lit "!!! SHELL REQUEST from @" ++ from ++ lit " !!!" ++ [NL]
  ++ lit "Reply with   /sshyes " ++ str_of_int port ++ lit "   to ACCEPT (dangerous!)"
  ++ [NL] ++ lit "Ignore or close window to refuse.".

Definition cmd_ssh (e : Env) (me : nat) (u : User) (args : str) (w : World) : outcome :=
  if negb (is_prefix [AT] args)
  then Returned (send_msg me (lit "Usage: /ssh @nickname") w)
  else
    match split (drop 1 args) with
    | [] => Raised w
    | tok :: _ =>
        let target_nick := strip tok in
        let tlow := lower target_nick in
        if str_eqb tlow (lower (nick u))
        then Returned (send_msg me (lit "Cannot ssh yourself") w)
        else
          match users w !! tlow with
          | None => Returned (send_msg me (lit "@" ++ target_nick ++ lit " not online") w)
          | Some target =>
              let port := (randbelow e + 50000)%Z in
              let w1 := send_msg target (shell_request (nick u) port) w in
              Returned (send_msg me (lit "Shell request sent to @" ++ target_nick
                                     ++ lit " " ++ [EM_DASH]
                                     ++ lit " waiting for /sshyes ...") w1)
          end
    end.

Definition accepted_notice (n ip : str) (port : Z) : str :=
  lit "*" ++ n ++ lit " ACCEPTED shell request!" ++ [NL]
  ++ lit "Connect with:" ++ [NL]
  ++ lit "   nc " ++ ip ++ lit " " ++ str_of_int port ++ [NL]
  ++ lit "(requester should run this now)".

Definition listen_hint (port : Z) : str :=
  lit "Run this in a NEW terminal to listen for shell:" ++ [NL]
  ++ lit "   nc -l -p " ++ str_of_int port
  ++ lit " -e /bin/sh     (Linux/macOS)" ++ [NL]
  ++ lit "or" ++ [NL]
  ++ lit "   nc -l -p " ++ str_of_int port
  ++ lit " -e cmd.exe     (Windows)" ++ [NL]
  ++ lit "Waiting for connection...".

Definition cmd_sshyes (e : Env) (me : nat) (u : User) (args : str) (w : World) : outcome :=
  if negb (isdigit args)
  then Returned (send_msg me
                   (lit "Usage: /sshyes PORT   (only use the port you were given)") w)
  else
    match int_of_str args with
    | None => Raised w
    | Some port =>
        if negb ((50000 <=? port)%Z && (port <=? 59999)%Z)
        then Returned (send_msg me (lit "Port out of allowed range") w)
        else
          let w1 := broadcast (accepted_notice (nick u) (my_ip e) port)
                      (Some (nick u)) w in
          Returned (send_msg me (listen_hint port) w1)
    end.

Definition handle_command (e : Env) (me : nat) (line : str) (w : World) : outcome :=
  match heap w !! me with
  | None => Returned w
  | Some u =>
      match parse_command line with
      | None => Raised w
      | Some (cmd, args) =>
          if str_eqb cmd (lit "help") then Returned (send_lines me help_lines w)
          else if str_eqb cmd (lit "nick") then cmd_nick me u args w
          else if str_eqb cmd (lit "msg") || str_eqb cmd (lit "dm")
          then cmd_msg (clock e) me u args w
          else if str_eqb cmd (lit "history") then cmd_history me u args w
          else if str_eqb cmd (lit "color") then cmd_color me u args w
          else if str_eqb cmd (lit "ssh") then cmd_ssh e me u args w
          else if str_eqb cmd (lit "sshyes") then cmd_sshyes e me u args w
          else Returned w
      end
  end.

Definition connect (w : World) : World :=
  let me := next_obj w in
  let user := mkUser (mkWriter true false []) (lit "Guest") false in
  let w1 := mkWorld (users w) (<[me := user]> (heap w)) (S me) (messages w) in
  let w2 := set_users (insert (lower (nick user)) me) w1 in
  let w3 := send_lines me ((lit ":server 001 " ++ nick user ++ lit " :Welcome!") :: MOTD) w2 in
  broadcast (lit "* " ++ nick user ++ lit " joined") None w3.

Definition handle_line (e : Env) (me : nat) (raw : str) (w : World) : outcome :=
  match heap w !! me with
  | None => Returned w
  | Some u =>
      let line := strip raw in
      match line with
      | [] => Returned w
      | _ =>
          if startswith_slash line then handle_command e me line w
          else if (400 <? length line)%nat
          then Returned (send_msg me (lit "Message too long") w)
          else
            let ts := hhmm (clock e) in
            let msg := lit "[" ++ ts ++ lit "] <" ++ nick u ++ lit "> " ++ line in
            let w1 := broadcast msg (Some (nick u)) w in
            Returned (insert_row (mkRow (nick u) None line
                                    (current_timestamp (clock e))) w1)
      end
  end.

Definition disconnect (me : nat) (w : World) : World :=
  match heap w !! me with
  | None => w
  | Some u =>
      let nick_lower := lower (nick u) in
      let w1 := if bool_decide (is_Some (users w !! nick_lower))
                then set_users (delete nick_lower) w else w in
      let w2 := broadcast (lit "* " ++ nick u ++ lit " left") None w1 in
      set_heap (alter close_writer me) w2
  end.

Inductive event :=
  | Accept
  | Recv (me : nat) (e : Env) (raw : str)
  | Eof (me : nat)
  | Lost (me : nat).

Definition step (w : World) (ev : event) : World :=
  match ev with
  | Accept => connect w
  | Recv me e raw =>
      if connectedb w me
      then match handle_line e me raw w with
           | Returned w' => w'
           | Raised w' => disconnect me w'
           end
      else w
  | Eof me => if connectedb w me then disconnect me w else w
  | Lost me => set_heap (alter lose_writer me) w
  end.

Definition run (w : World) (evs : list event) : World := foldl step w evs.

End Server.

Section Vocabulary.

Context {T : PyText}.

(** [int(args)] raises [ValueError] although [args.isdigit()] holds. *)
Definition digits_refused (args : str) : bool :=
  isdigit args && negb (bool_decide (is_Some (int_of_str args))).

(** The limit [/history] reads does not fit 64 bits. *)
Definition limit_overflows (args : str) : bool :=
  match history_limit args with
  | Some limit => negb (fits_int64 limit)
  | None => false
  end.

(** The command lines on which an exception leaves [handle_command]:
    [/ssh @] with nothing after the sign ([IndexError]); [/history] or
    [/sshyes] with an argument that passes [isdigit] and that [int]
    refuses ([ValueError]); [/history] with a limit that does not fit
    64 bits ([OverflowError]). *)
Definition unhandled (line : str) : bool :=
  match parse_command line with
  | Some (cmd, args) =>
      (str_eqb cmd (lit "ssh") && str_eqb args [AT])
      || ((str_eqb cmd (lit "history") || str_eqb cmd (lit "sshyes"))
          && digits_refused args)
      || (str_eqb cmd (lit "history") && limit_overflows args)
  | None => false
  end.

(** No connection is accepted while the key of the default nick is in
    the registry. *)
Fixpoint placeholder_free (w : World) (evs : list event) : bool :=
  match evs with
  | [] => true
  | ev :: evs' =>
      match ev with
      | Accept => bool_decide (users w !! lower (lit "Guest") = None)
      | _ => true
      end && placeholder_free (step w ev) evs'
  end.

End Vocabulary.

(** Sample data for the properties below. *)
Definition quiet : Env := mkEnv noon 4242 (lit "192.0.2.7").

Definition two_named : list event :=
  [ Accept; Recv 0 quiet (lit "/nick alice");
    Accept; Recv 1 quiet (lit "/nick bob") ].

Definition after_two_named : World := run (T := latin1_text) world0 two_named.

(** alice and bob have written to each other and in public; a third
    connection has come and kept the default nick. *)
Definition chatty : list event :=
  two_named ++
  [ Recv 0 quiet (lit "/msg bob one"); Recv 1 quiet (lit "/dm alice two");
    Recv 0 quiet (lit "hello all"); Recv 1 quiet (lit "/color on"); Accept ].

Definition after_chatty : World := run (T := latin1_text) world0 chatty.

End Ssh.

(** Comparisons of two verbs written out in the source, evaluated. *)
Ltac closed_verbs :=
  repeat match goal with
         | |- context [str_eqb (lit ?a) (lit ?b)] =>
             let v := eval vm_compute in (str_eqb (lit a) (lit b)) in
             change (str_eqb (lit a) (lit b)) with v
         end.

Ltac verb_case E :=
  apply bool_decide_eq_true in E; subst; closed_verbs;
  cbn [andb orb negb].

(** * Properties *)

(** ** Text *)

Example split_ex : split (lit "  a bc   d ") = [lit "a"; lit "bc"; lit "d"].
Proof. reflexivity. Qed.

Example split_max1_ex :
  split_max1 (lit "/nick  Bob x ") = [lit "/nick"; lit "Bob x "].
Proof. reflexivity. Qed.

Example split_sp1_ex : split_sp1 (lit "bob hi there") = [lit "bob"; lit "hi there"].
Proof. reflexivity. Qed.

Example replace_ex : replace (lit "ab") (lit "X") (lit "abcabab") = lit "XcXX".
Proof. reflexivity. Qed.

Example replace_aa_ex : replace (lit "aa") (lit "b") (lit "aaa") = lit "ba".
Proof. reflexivity. Qed.

Example str_of_nat_ex : str_of_nat 0 = lit "0" /\ str_of_nat 120 = lit "120".
Proof. split; reflexivity. Qed.

Example lower_ex : Ascii7.lower (lit "Guest-7_X") = lit "guest-7_x".
Proof. reflexivity. Qed.

Example int_of_str_ex :
  Ascii7.int_of_str (lit "0300") = Some 300%Z /\ Ascii7.int_of_str (lit "5 dm") = None.
Proof. split; reflexivity. Qed.

Lemma replace_single (c : N) (new s : str) :
  replace [c] new s = flat_map (fun x => if x =? c then new else [x]) s.
Proof.
  unfold replace.
  induction s as [|x s IH]; simpl; [reflexivity|].
  rewrite N.eqb_sym.
  destruct (x =? c); simpl; rewrite IH; reflexivity.
Qed.

Lemma flat_map_flat_map (f g : N -> str) (s : str) :
  flat_map g (flat_map f s) = flat_map (fun x => flat_map g (f x)) s.
Proof.
  induction s as [|x s IH]; simpl; [reflexivity|].
  rewrite flat_map_app, IH. reflexivity.
Qed.

Lemma lstrip_keeps_last (l : str) (c : N) :
  isspace c = false -> exists l', lstrip (l ++ [c]) = l' ++ [c].
Proof.
  intros Hc. induction l as [|x l IH]; simpl.
  - rewrite Hc. exists []. reflexivity.
  - destruct (isspace x).
    + exact IH.
    + exists (x :: l). reflexivity.
Qed.

Lemma strip_keeps_head (c : N) (r : str) :
  isspace c = false -> exists r', strip (c :: r) = c :: r'.
Proof.
  intros Hc. unfold strip, rstrip. simpl lstrip at 2. rewrite Hc.
  simpl rev.
  destruct (lstrip_keeps_last (rev r) c Hc) as [l' Hl']. rewrite Hl'.
  rewrite rev_app_distr. simpl. eauto.
Qed.

Lemma split_max1_head (c : N) (r : str) :
  isspace c = false ->
  exists p rest, split_max1 (c :: r) = (c :: p) :: rest.
Proof.
  intros Hc. unfold split_max1. simpl lstrip at 1. rewrite Hc.
  simpl span_word. rewrite Hc.
  destruct (span_word r) as [p r0].
  destruct (lstrip r0); eauto.
Qed.

Lemma split_from_nonempty (cur s : str) :
  Forall (fun t => t <> []) (split_from cur s) .
Proof.
  revert cur. induction s as [|c s IH]; intros cur; simpl.
  - destruct cur as [|x cur]; constructor; [|constructor].
    intros E. apply (f_equal (@length N)) in E.
    rewrite length_rev in E. simpl in E. discriminate.
  - destruct (isspace c); [|apply IH].
    destruct cur as [|x cur]; [apply IH|].
    constructor; [|apply IH].
    intros E. apply (f_equal (@length N)) in E.
    rewrite length_rev in E. simpl in E. discriminate.
Qed.

Lemma split_word_nonempty (s tok : str) (rest : list str) :
  split s = tok :: rest -> tok <> [].
Proof.
  intros E. pose proof (split_from_nonempty [] s) as F.
  unfold split in E. rewrite E in F. inversion F; assumption.
Qed.

(** ** Writes leave everything but the streams alone *)

Lemma set_writer_same (u : User) : set_writer (writer u) u = u.
Proof. destruct u; reflexivity. Qed.

Lemma shape_wrote (d : str) (u : User) : shape (wrote d u) = shape u.
Proof.
  unfold wrote, written, writer_write, shape.
  destruct (w_ok (writer u) && negb (w_closed (writer u))); reflexivity.
Qed.

Lemma try_write_alter (o : nat) (d : str) (w : World) :
  try_write o d w = set_heap (alter (wrote d) o) w.
Proof.
  unfold try_write, set_heap. destruct w as [us hp nx ms]; simpl.
  f_equal.
  destruct (hp !! o) as [u|] eqn:E.
  - assert (alter (wrote d) o hp = <[o := wrote d u]> hp) as ->.
    { apply map_eq; intros i. rewrite lookup_alter, lookup_insert.
      case_decide; subst; [rewrite E|]; reflexivity. }
    unfold wrote, written.
    destruct (writer_write (writer u) d); simpl; f_equal.
    + rewrite set_writer_same, insert_id; auto.
  - f_equal. apply map_eq; intros i. rewrite lookup_alter.
    case_decide; subst; [rewrite E|]; reflexivity.
Qed.

Lemma same_but_sent_refl (w : World) : same_but_sent w w.
Proof. unfold same_but_sent; auto. Qed.

Lemma same_but_sent_trans (w1 w2 w3 : World) :
  same_but_sent w1 w2 -> same_but_sent w2 w3 -> same_but_sent w1 w3.
Proof.
  intros (A1 & A2 & A3 & A4) (B1 & B2 & B3 & B4).
  repeat split; try congruence.
Qed.

Lemma try_write_frame (o : nat) (d : str) (w : World) :
  same_but_sent w (try_write o d w).
Proof.
  rewrite try_write_alter. repeat split; try reflexivity.
  intros i. simpl. rewrite lookup_alter. case_decide; subst; [|reflexivity].
  destruct (heap w !! i); simpl; [rewrite shape_wrote|]; reflexivity.
Qed.

Lemma deliver_frame (o : nat) (msg : str) (w : World) :
  same_but_sent w (deliver o msg w).
Proof.
  unfold deliver. destruct (heap w !! o).
  - apply try_write_frame.
  - apply same_but_sent_refl.
Qed.

Lemma same_but_sent_lookup (w w' : World) (o : nat) (u' : User) :
  same_but_sent w w' -> heap w' !! o = Some u' ->
  exists u, heap w !! o = Some u /\ shape u = shape u'.
Proof.
  intros (_ & _ & _ & H) E. specialize (H o). rewrite E in H. simpl in H.
  destruct (heap w !! o) as [u|]; simpl in H; [|discriminate].
  exists u. split; congruence.
Qed.

Lemma same_but_sent_lookup_inv (w w' : World) (o : nat) (u : User) :
  same_but_sent w w' -> heap w !! o = Some u ->
  exists u', heap w' !! o = Some u' /\ shape u' = shape u.
Proof.
  intros (_ & _ & _ & H) E. specialize (H o). rewrite E in H. simpl in H.
  destruct (heap w' !! o) as [u'|]; simpl in H; [|discriminate].
  exists u'. split; congruence.
Qed.

Lemma shape_fields (u u' : User) :
  shape u = shape u' ->
  nick u = nick u' /\ colors_enabled u = colors_enabled u'
  /\ w_ok (writer u) = w_ok (writer u')
  /\ w_closed (writer u) = w_closed (writer u').
Proof. unfold shape. intros [=]. auto. Qed.

Section Frames.

Context {T : PyText}.

Lemma broadcast_list_frame (msg : str) (skip : option str)
    (l : list (str * nat)) (w : World) :
  same_but_sent w (foldl (broadcast_one msg skip) w l).
Proof.
  revert w. induction l as [|e l IH]; intros w; simpl.
  - apply same_but_sent_refl.
  - eapply same_but_sent_trans; [|apply IH].
    unfold broadcast_one. destruct (skipped skip (fst e)).
    + apply same_but_sent_refl.
    + apply deliver_frame.
Qed.

Lemma broadcast_frame (msg : str) (skip : option str) (w : World) :
  same_but_sent w (broadcast msg skip w).
Proof. apply broadcast_list_frame. Qed.

Lemma send_msg_frame (o : nat) (text : str) (w : World) :
  same_but_sent w (send_msg o text w).
Proof. apply try_write_frame. Qed.

Lemma send_lines_frame (o : nat) (lines : list str) (w : World) :
  same_but_sent w (send_lines o lines w).
Proof.
  unfold send_lines. revert w. induction lines as [|l lines IH]; intros w; simpl.
  - apply same_but_sent_refl.
  - eapply same_but_sent_trans; [apply send_msg_frame|apply IH].
Qed.

Lemma send_to_frame (n msg : str) (w : World) :
  same_but_sent w (snd (send_to n msg w)).
Proof.
  unfold send_to. destruct (users w !! lower n); simpl.
  - apply deliver_frame.
  - apply same_but_sent_refl.
Qed.

Lemma registry_ok_frame (w w' : World) :
  same_but_sent w w' -> registry_ok w -> registry_ok w'.
Proof.
  intros F [R1 R2]. pose proof F as (Eu & _ & En & _). split.
  - intros key o Hk. rewrite Eu in Hk.
    destruct (R1 key o Hk) as (u & Hu & Hkey & Hc).
    destruct (same_but_sent_lookup_inv _ _ _ _ F Hu) as (u' & Hu' & Hs).
    apply shape_fields in Hs as (Hn & _ & _ & Hcl).
    exists u'. repeat split; congruence.
  - intros o [u' Hu']. rewrite En.
    destruct (same_but_sent_lookup _ _ _ _ F Hu') as (u & Hu & _).
    apply R2. eauto.
Qed.

Lemma all_registered_frame (w w' : World) :
  same_but_sent w w' -> all_registered w -> all_registered w'.
Proof.
  intros F R o u' Hu' Hc. pose proof F as (Eu & _).
  destruct (same_but_sent_lookup _ _ _ _ F Hu') as (u & Hu & Hs).
  apply shape_fields in Hs as (Hn & _ & _ & Hcl).
  rewrite Eu, <- Hn. apply R; congruence.
Qed.

End Frames.

(** ** The registry under each operation *)

Section Registry.

Context {T : PyText}.

Lemma registry_ok_insert_row (r : Row) (w : World) :
  registry_ok w -> registry_ok (insert_row r w).
Proof. intros R. exact R. Qed.

Lemma all_registered_insert_row (r : Row) (w : World) :
  all_registered w -> all_registered (insert_row r w).
Proof. intros R. exact R. Qed.

(** A change to an object that keeps its nick and leaves it open. *)
Lemma registry_ok_alter (f : User -> User) (me : nat) (w : World) :
  (forall u, nick (f u) = nick u /\ w_closed (writer (f u)) = w_closed (writer u)) ->
  registry_ok w -> registry_ok (set_heap (alter f me) w).
Proof.
  intros Hf [R1 R2]. split; simpl.
  - intros key o Hk. destruct (R1 key o Hk) as (u & Hu & Hkey & Hc).
    rewrite lookup_alter. case_decide; subst.
    + rewrite Hu. simpl. exists (f u). destruct (Hf u) as [-> ->]. auto.
    + eauto.
  - intros o [u' Hu']. apply R2. rewrite lookup_alter in Hu'.
    case_decide; subst; [|eauto].
    destruct (heap w !! o); [eauto|discriminate].
Qed.

Lemma all_registered_alter (f : User -> User) (me : nat) (w : World) :
  (forall u, nick (f u) = nick u /\ w_closed (writer (f u)) = w_closed (writer u)) ->
  all_registered w -> all_registered (set_heap (alter f me) w).
Proof.
  intros Hf R o u' Hu' Hc. simpl in *. rewrite lookup_alter in Hu'.
  case_decide; subst; [|eauto].
  destruct (heap w !! o) as [u|] eqn:E; [|discriminate].
  simpl in Hu'. injection Hu' as <-. destruct (Hf u) as [Hn Hcl].
  rewrite Hn. apply R; congruence.
Qed.

Lemma insert_as_alter (me : nat) (u : User) (f : User -> User) (w : World) :
  heap w !! me = Some u ->
  set_heap (insert me (f u)) w = set_heap (alter f me) w.
Proof.
  intros E. unfold set_heap. f_equal. apply map_eq; intros i.
  rewrite lookup_alter, lookup_insert. case_decide; subst; [rewrite E|]; reflexivity.
Qed.

(** Closing the stream of an object no entry refers to. *)
Lemma registry_ok_close (me : nat) (w : World) :
  unlisted w me -> registry_ok w -> registry_ok (set_heap (alter close_writer me) w).
Proof.
  intros U [R1 R2]. split; simpl.
  - intros key o Hk. destruct (R1 key o Hk) as (u & Hu & Hkey & Hc).
    rewrite lookup_alter. case_decide; subst; [|eauto].
    exfalso. exact (U _ Hk).
  - intros o [u' Hu']. apply R2. rewrite lookup_alter in Hu'.
    case_decide; subst; [|eauto].
    destruct (heap w !! o); [eauto|discriminate].
Qed.

Lemma all_registered_close (me : nat) (w : World) :
  all_registered w -> all_registered (set_heap (alter close_writer me) w).
Proof.
  intros R o u' Hu' Hc. simpl in *. rewrite lookup_alter in Hu'.
  case_decide; subst; [|eauto].
  destruct (heap w !! o) as [u|]; [|discriminate].
  simpl in Hu'. injection Hu' as <-. simpl in Hc. discriminate.
Qed.

Lemma registry_ok_renamed (me : nat) (u : User) (newnick : str) (w : World) :
  heap w !! me = Some u -> w_closed (writer u) = false ->
  registry_ok w -> registry_ok (renamed me u newnick w).
Proof.
  intros Hme Hopen [R1 R2]. split; simpl.
  - intros key o Hk. rewrite lookup_insert in Hk. case_decide; subst.
    + injection Hk as <-. rewrite lookup_insert_eq.
      exists (set_nick newnick u). auto.
    + rewrite lookup_delete in Hk. case_decide; [discriminate|].
      destruct (R1 key o Hk) as (u0 & Hu0 & Hkey & Hc).
      assert (o <> me) by (intros ->; congruence).
      rewrite lookup_insert_ne by auto. eauto.
  - intros o Ho. apply R2. rewrite lookup_insert in Ho.
    case_decide; subst; eauto.
Qed.

Lemma all_registered_renamed (me : nat) (u : User) (newnick : str) (w : World) :
  heap w !! me = Some u -> w_closed (writer u) = false ->
  nick_in_use w u (lower newnick) = false ->
  all_registered w -> all_registered (renamed me u newnick w).
Proof.
  intros Hme Hopen Hfree R o u' Hu' Hc. simpl in *.
  pose proof (R me u Hme Hopen) as Hown.
  rewrite lookup_insert in Hu'. case_decide; subst.
  - injection Hu' as <-. simpl. apply lookup_insert_eq.
  - pose proof (R o u' Hu' Hc) as Ho.
    assert (lower (nick u') <> lower (nick u)) as Hne1 by congruence.
    assert (lower newnick <> lower (nick u')) as Hne2.
    { intros E. unfold nick_in_use, str_eqb in Hfree.
      rewrite E, Ho in Hfree.
      rewrite bool_decide_eq_true_2 in Hfree by eauto. simpl in Hfree.
      apply negb_false_iff, bool_decide_eq_true in Hfree. auto. }
    rewrite lookup_insert_ne, lookup_delete_ne; auto.
Qed.

End Registry.

Section Handlers.

Context {T : PyText}.

Lemma preserves_refl (w : World) : preserves w w.
Proof. split; auto. Qed.

Lemma preserves_trans (w1 w2 w3 : World) :
  preserves w1 w2 -> preserves w2 w3 -> preserves w1 w3.
Proof. intros [A1 A2] [B1 B2]. split; auto. Qed.

Lemma preserves_frame (w w' : World) : same_but_sent w w' -> preserves w w'.
Proof.
  intros F. split; intros.
  - eapply registry_ok_frame; eauto.
  - eapply all_registered_frame; eauto.
Qed.

Lemma preserves_insert_row (r : Row) (w : World) : preserves w (insert_row r w).
Proof. split; auto. Qed.

Lemma preserves_alter (f : User -> User) (me : nat) (w : World) :
  (forall u, nick (f u) = nick u /\ w_closed (writer (f u)) = w_closed (writer u)) ->
  preserves w (set_heap (alter f me) w).
Proof.
  intros Hf. split; intros.
  - apply registry_ok_alter; auto.
  - apply all_registered_alter; auto.
Qed.

Lemma preserves_renamed (me : nat) (u : User) (newnick : str) (w : World) :
  heap w !! me = Some u -> w_closed (writer u) = false ->
  nick_in_use w u (lower newnick) = false ->
  preserves w (renamed me u newnick w).
Proof.
  intros. split; intros.
  - apply registry_ok_renamed; auto.
  - apply all_registered_renamed; auto.
Qed.

Create HintDb chat.

#[local] Hint Resolve preserves_refl preserves_frame preserves_insert_row
  send_msg_frame send_lines_frame broadcast_frame send_to_frame : chat.

Lemma cmd_nick_preserves (me : nat) (u : User) (args : str) (w : World) :
  heap w !! me = Some u -> w_closed (writer u) = false ->
  preserves w (world_of (cmd_nick me u args w)).
Proof.
  intros Hme Hopen. unfold cmd_nick.
  destruct args as [|a args']; [simpl; auto with chat|].
  generalize (a :: args'). intros args.
  destruct (split args) as [|tok rest]; [simpl; auto with chat|].
  destruct (nick_refused (take 24 tok)); [simpl; auto with chat|].
  destruct (nick_in_use w u (lower (take 24 tok))) eqn:Hfree;
    [simpl; auto with chat|].
  cbn [world_of].
  eapply preserves_trans; [apply (preserves_renamed me u (take 24 tok) w); auto|].
  eapply preserves_trans; [apply preserves_frame, broadcast_frame|].
  apply preserves_frame, send_msg_frame.
Qed.

Lemma cmd_msg_preserves (k : Clock) (me : nat) (u : User) (args : str) (w : World) :
  preserves w (world_of (cmd_msg k me u args w)).
Proof.
  unfold cmd_msg.
  destruct args as [|a args']; [simpl; auto with chat|].
  generalize (a :: args'). intros args.
  destruct (negb (contains SP args)); [simpl; auto with chat|].
  destruct (split_sp1 args) as [|target [|msg [|x y]]];
    try (simpl; auto with chat; fail).
  destruct (str_eqb (lower target) (lower (nick u))); [simpl; auto with chat|].
  destruct (negb (bool_decide (is_Some (users w !! lower target))));
    [simpl; auto with chat|].
  match goal with
  | |- context [send_to ?n ?m ?x] =>
      pose proof (send_to_frame n m x) as F; destruct (send_to n m x) as [v w2]
  end.
  simpl in *.
  eapply preserves_trans; [apply preserves_frame, send_msg_frame|].
  eapply preserves_trans; [apply preserves_frame, F|].
  apply preserves_insert_row.
Qed.

Lemma history_dm_frame (me : nat) (u : User) (limit : Z) (w : World) :
  same_but_sent w (history_dm me u limit w).
Proof.
  unfold history_dm.
  eapply same_but_sent_trans; [apply send_msg_frame|apply send_lines_frame].
Qed.

Lemma history_public_frame (me : nat) (limit : Z) (w : World) :
  same_but_sent w (history_public me limit w).
Proof.
  unfold history_public.
  eapply same_but_sent_trans; [apply send_msg_frame|apply send_lines_frame].
Qed.

Lemma cmd_history_preserves (me : nat) (u : User) (args : str) (w : World) :
  preserves w (world_of (cmd_history me u args w)).
Proof.
  unfold cmd_history.
  destruct (contains SP args); simpl;
    [|apply preserves_frame, history_public_frame].
  destruct (split args) as [|first [|second rest]]; simpl; auto with chat.
  destruct (str_eqb (lower second) (lit "dm")); simpl.
  - apply preserves_frame, history_dm_frame.
  - apply preserves_frame, history_public_frame.
Qed.

Lemma cmd_color_preserves (me : nat) (u : User) (args : str) (w : World) :
  heap w !! me = Some u ->
  preserves w (world_of (cmd_color me u args w)).
Proof.
  intros Hme. unfold cmd_color.
  destruct (str_eqb (lower args) (lit "on")); simpl.
  { eapply preserves_trans; [|apply preserves_frame, send_msg_frame].
    rewrite (insert_as_alter me u (set_colors true)) by auto.
    apply preserves_alter. intros; split; reflexivity. }
  destruct (str_eqb (lower args) (lit "off")); simpl.
  { eapply preserves_trans; [|apply preserves_frame, send_msg_frame].
    rewrite (insert_as_alter me u (set_colors false)) by auto.
    apply preserves_alter. intros; split; reflexivity. }
  auto with chat.
Qed.

Lemma handle_command_preserves (k : Clock) (me : nat) (u : User) (line : str)
    (w : World) :
  heap w !! me = Some u -> w_closed (writer u) = false ->
  preserves w (world_of (handle_command k me line w)).
Proof.
  intros Hme Hopen. unfold handle_command. rewrite Hme.
  destruct (parse_command line) as [[cmd args]|]; [|cbn [world_of]; auto with chat].
  destruct (str_eqb cmd (lit "help")); [cbn [world_of]; auto with chat|].
  destruct (str_eqb cmd (lit "nick")); [apply cmd_nick_preserves; auto|].
  destruct (str_eqb cmd (lit "msg") || str_eqb cmd (lit "dm"));
    [apply cmd_msg_preserves|].
  destruct (str_eqb cmd (lit "history")); [apply cmd_history_preserves|].
  destruct (str_eqb cmd (lit "color")); [apply cmd_color_preserves; auto|].
  cbn [world_of]. auto with chat.
Qed.

Lemma handle_line_preserves (k : Clock) (me : nat) (u : User) (raw : str)
    (w : World) :
  heap w !! me = Some u -> w_closed (writer u) = false ->
  preserves w (world_of (handle_line k me raw w)).
Proof.
  intros Hme Hopen. unfold handle_line. rewrite Hme.
  destruct (strip raw) as [|c line'] eqn:E; [cbn [world_of]; auto with chat|].
  generalize (c :: line'). intros line.
  destruct (startswith_slash line); [eapply handle_command_preserves; eauto|].
  destruct (400 <? length line)%nat; cbn [world_of]; [auto with chat|].
  eapply preserves_trans; [apply preserves_frame, broadcast_frame|].
  apply preserves_insert_row.
Qed.

End Handlers.

Section Lifecycle.

Context {T : PyText}.

Lemma connectedb_open (w : World) (me : nat) :
  connectedb w me = true ->
  exists u, heap w !! me = Some u /\ w_closed (writer u) = false.
Proof.
  unfold connectedb. destruct (heap w !! me) as [u|]; [|discriminate].
  intros H. apply negb_true_iff in H. eauto.
Qed.

Lemma connect_registry_ok (w : World) :
  registry_ok w -> registry_ok (connect w).
Proof.
  intros [R1 R2]. unfold connect.
  eapply registry_ok_frame; [apply broadcast_frame|].
  eapply registry_ok_frame; [apply send_lines_frame|].
  split; simpl.
  - intros key o Hk. rewrite lookup_insert in Hk. case_decide; subst.
    + injection Hk as <-. rewrite lookup_insert_eq. eauto.
    + destruct (R1 key o Hk) as (u & Hu & Hkey & Hc).
      assert (o < next_obj w)%nat by (apply R2; eauto).
      rewrite lookup_insert_ne by lia. eauto.
  - intros o Ho. rewrite lookup_insert in Ho. case_decide; subst; [lia|].
    specialize (R2 o Ho). lia.
Qed.

Lemma connect_all_registered (w : World) :
  registry_ok w -> users w !! lower (lit "Guest") = None ->
  all_registered w -> all_registered (connect w).
Proof.
  intros [R1 R2] Hfree R. unfold connect.
  eapply all_registered_frame; [apply broadcast_frame|].
  eapply all_registered_frame; [apply send_lines_frame|].
  intros o u Hu Hc. simpl in *.
  rewrite lookup_insert in Hu. case_decide; subst.
  - injection Hu as <-. simpl. apply lookup_insert_eq.
  - pose proof (R o u Hu Hc) as Ho.
    rewrite lookup_insert_ne; [assumption|].
    intros E. rewrite <- E, Hfree in Ho. discriminate.
Qed.

(** The registry once the handler of [me] has removed its key. *)
Lemma unregister_unlisted (me : nat) (u : User) (w : World) :
  registry_ok w -> heap w !! me = Some u ->
  let nick_lower := lower (nick u) in
  let w1 := if bool_decide (is_Some (users w !! nick_lower))
            then set_users (delete nick_lower) w else w in
  registry_ok w1 /\ unlisted w1 me /\ heap w1 = heap w
  /\ forall key, key <> nick_lower -> users w1 !! key = users w !! key.
Proof.
  intros [R1 R2] Hme. cbv zeta.
  case_bool_decide as Hin.
  - split; [split|split; [|split]]; simpl; auto.
    + intros key o Hk. rewrite lookup_delete in Hk.
      case_decide; [discriminate|]. eauto.
    + intros key Hk. simpl in Hk. rewrite lookup_delete in Hk.
      case_decide; [discriminate|].
      destruct (R1 key me Hk) as (u0 & Hu0 & Hkey & _).
      congruence.
    + intros key Hne. apply lookup_delete_ne. auto.
  - split; [split; assumption|split; [|split]]; auto.
    intros key Hk. destruct (R1 key me Hk) as (u0 & Hu0 & Hkey & _).
    apply Hin. exists me. congruence.
Qed.

Lemma disconnect_registry_ok (me : nat) (w : World) :
  registry_ok w -> registry_ok (disconnect me w).
Proof.
  intros R. unfold disconnect.
  destruct (heap w !! me) as [u|] eqn:Hme; [|assumption].
  destruct (unregister_unlisted me u w R Hme) as (R1 & U1 & _).
  cbv zeta in *.
  apply registry_ok_close.
  - intros key. pose proof (broadcast_frame (lit "* " ++ nick u ++ lit " has left") None
      (if bool_decide (is_Some (users w !! lower (nick u)))
       then set_users (delete (lower (nick u))) w else w)) as (Eu & _).
    rewrite Eu. apply U1.
  - eapply registry_ok_frame; [apply broadcast_frame|]. exact R1.
Qed.

Lemma disconnect_all_registered (me : nat) (w : World) :
  connectedb w me = true -> registry_ok w ->
  all_registered w -> all_registered (disconnect me w).
Proof.
  intros Hc R A. destruct (connectedb_open _ _ Hc) as (u & Hme & Hopen).
  unfold disconnect. rewrite Hme.
  destruct (unregister_unlisted me u w R Hme) as (_ & _ & Hh & Hk).
  cbv zeta in *.
  match goal with
  | |- all_registered (set_heap _ (broadcast ?m ?s ?w1)) =>
      pose proof (broadcast_frame m s w1) as F;
      set (w2 := broadcast m s w1) in *;
      set (w1' := w1) in *
  end.
  intros o u' Hu' Hcl. simpl in Hu'. rewrite lookup_alter in Hu'.
  case_decide; subst.
  - destruct (heap w2 !! o) as [x|]; [|discriminate].
    simpl in Hu'. injection Hu' as <-. simpl in Hcl. discriminate.
  - destruct (same_but_sent_lookup _ _ _ _ F Hu') as (u1 & Hu1 & Hs).
    apply shape_fields in Hs as (Hn & _ & _ & Hcl').
    rewrite Hh in Hu1. destruct F as (Eu & _). simpl. rewrite Eu, <- Hn.
    pose proof (A o u1 Hu1 ltac:(congruence)) as Ho.
    rewrite Hk; [assumption|].
    intros E. rewrite E, (A me u Hme Hopen) in Ho. congruence.
Qed.

Lemma handle_line_raised (k : Clock) (me : nat) (raw : str) (w w' : World) :
  handle_line k me raw w = Raised w' -> w' = w.
Proof.
  unfold handle_line, handle_command, cmd_nick, cmd_msg, cmd_history, cmd_color.
  intros H.
  repeat match type of H with
         | Returned _ = Raised _ => discriminate H
         | Raised _ = Raised _ => injection H as <-; reflexivity
         | context [match ?x with _ => _ end] => destruct x eqn:?
         end.
Qed.

Lemma step_registry_ok (w : World) (e : event) :
  registry_ok w -> registry_ok (step w e).
Proof.
  intros R. destruct e as [|me k raw|me|me]; simpl.
  - apply connect_registry_ok, R.
  - destruct (connectedb w me) eqn:Hc; [|assumption].
    destruct (connectedb_open _ _ Hc) as (u & Hme & Hopen).
    pose proof (handle_line_preserves k me u raw w Hme Hopen) as [P _].
    destruct (handle_line k me raw w); simpl in P; auto.
    apply disconnect_registry_ok; auto.
  - destruct (connectedb w me); [apply disconnect_registry_ok|]; assumption.
  - apply registry_ok_alter; [|assumption]. intros u; split; reflexivity.
Qed.

Lemma step_all_registered (w : World) (e : event) :
  placeholder_free w [e] = true -> registry_ok w ->
  all_registered w -> all_registered (step w e).
Proof.
  intros F R A. destruct e as [|me k raw|me|me]; simpl in *.
  - apply connect_all_registered; auto.
    rewrite andb_true_r in F. apply bool_decide_eq_true in F. exact F.
  - destruct (connectedb w me) eqn:Hc; [|assumption].
    destruct (connectedb_open _ _ Hc) as (u & Hme & Hopen).
    pose proof (handle_line_preserves k me u raw w Hme Hopen) as [_ P].
    destruct (handle_line k me raw w) as [w'|w'] eqn:E; simpl in P; auto.
    apply handle_line_raised in E. subst w'.
    apply disconnect_all_registered; auto.
  - destruct (connectedb w me) eqn:Hc; [|assumption].
    apply disconnect_all_registered; auto.
  - apply all_registered_alter; [|assumption]. intros u; split; reflexivity.
Qed.

Lemma run_registry_ok (es : list event) (w : World) :
  registry_ok w -> registry_ok (run w es).
Proof.
  revert w. induction es as [|e es IH]; intros w R; simpl; [assumption|].
  apply IH, step_registry_ok, R.
Qed.

Lemma run_all_registered (es : list event) (w : World) :
  placeholder_free w es = true -> registry_ok w ->
  all_registered w -> all_registered (run w es).
Proof.
  revert w. induction es as [|e es IH]; intros w F R A; simpl; [assumption|].
  simpl in F. apply andb_true_iff in F as [F1 F2].
  apply IH; [assumption|apply step_registry_ok, R|].
  apply step_all_registered; auto.
  simpl. rewrite F1. reflexivity.
Qed.

Lemma world0_registry_ok : registry_ok world0.
Proof.
  split; simpl.
  - intros key o Hk. rewrite lookup_empty in Hk. discriminate.
  - intros o [u Hu]. rewrite lookup_empty in Hu. discriminate.
Qed.

Lemma world0_all_registered : all_registered world0.
Proof. intros o u Hu. simpl in Hu. rewrite lookup_empty in Hu. discriminate. Qed.

End Lifecycle.

(** ** The registry over whole runs *)

Section RegistryClaims.

Context {T : PyText}.

(** What [handle_client] does first: the new object goes under the key
    of the default nick, whatever was there. *)
Lemma connect_registers (w : World) :
  users (connect w) !! lower (lit "Guest") = Some (next_obj w).
Proof.
  unfold connect.
  match goal with
  | |- users (broadcast ?m ?s (send_lines ?o ?ls ?w2)) !! _ = _ =>
      pose proof (broadcast_frame m s (send_lines o ls w2)) as (-> & _);
      pose proof (send_lines_frame o ls w2) as (-> & _)
  end.
  simpl. apply lookup_insert_eq.
Qed.

(** C1 (as amended).  After every sequence of accepted connections,
    received lines (among them every [/nick]), ends of stream and lost
    peers: each registry key is the lower-cased nick of the session it
    maps to, and that session is connected; no session is filed under
    two keys and no key holds two sessions; and, when no connection was
    accepted while the key of the default nick was in the registry, the
    registered sessions are exactly the connected ones. *)
Theorem registry_invariant (es : list event) :
  let w := run world0 es in
  (forall key o, users w !! key = Some o ->
     exists u, heap w !! o = Some u /\ key = lower (nick u) /\ connected w o)
  /\ (forall k1 k2 o, users w !! k1 = Some o -> users w !! k2 = Some o -> k1 = k2)
  /\ (forall key o1 o2, users w !! key = Some o1 -> users w !! key = Some o2 -> o1 = o2)
  /\ (placeholder_free world0 es = true ->
      forall o, connected w o <-> exists key, users w !! key = Some o).
Proof.
  intros w.
  pose proof (run_registry_ok es world0 world0_registry_ok) as R.
  fold w in R. pose proof R as [R1 _].
  split; [|split; [|split]].
  - intros key o Hk. destruct (R1 key o Hk) as (u & Hu & Hkey & Hc).
    exists u. repeat split; auto. exists u. auto.
  - intros k1 k2 o H1 H2.
    destruct (R1 k1 o H1) as (u1 & Hu1 & -> & _).
    destruct (R1 k2 o H2) as (u2 & Hu2 & -> & _).
    congruence.
  - intros key o1 o2 H1 H2. congruence.
  - intros F o.
    pose proof (run_all_registered es world0 F world0_registry_ok
                  world0_all_registered) as A.
    fold w in A. split.
    + intros (u & Hu & Hc). exists (lower (nick u)). apply A; auto.
    + intros (key & Hk). destruct (R1 key o Hk) as (u & Hu & _ & Hc).
      exists u. auto.
Qed.

End RegistryClaims.

(** C1, as the specification states it, fails on two connections in a
    row: the second registration does not fail, it takes over the key of
    the first, and the first session stays connected without an entry. *)
Lemma second_guest_replaces_first :
  let w1 := run (T := ascii_text) world0 [Accept] in
  let w2 := step (T := ascii_text) w1 Accept in
  users w1 !! lit "guest" = Some 0%nat
  /\ users w2 !! lit "guest" = Some 1%nat
  /\ connected w2 0
  /\ forall key, users w2 !! key <> Some 0%nat.
Proof.
  intros w1 w2.
  assert (users w2 = {[ lit "guest" := 1%nat ]}) as E by (vm_compute; reflexivity).
  split; [vm_compute; reflexivity|].
  split; [vm_compute; reflexivity|].
  split.
  - eexists. split; [vm_compute; reflexivity|reflexivity].
  - intros key. rewrite E, lookup_singleton. case_decide; congruence.
Qed.

Lemma registry_invariant_polite_run :
  placeholder_free (T := ascii_text) world0 polite_run = true
  /\ forall o, connected after_polite_run o
               <-> exists key, users after_polite_run !! key = Some o.
Proof.
  split; [vm_compute; reflexivity|].
  apply (proj2 (proj2 (proj2 (registry_invariant (T := ascii_text) polite_run)))).
  vm_compute; reflexivity.
Defined.

(** ** The [/nick] command *)

Section NickClaims.

Context {T : PyText}.

Lemma nick_token_parse (line tok : str) :
  nick_token line = Some tok ->
  exists args rest,
    parse_command line = Some (lit "nick", args)
    /\ split args = tok :: rest /\ args <> [].
Proof.
  unfold nick_token. destruct (parse_command line) as [[cmd args]|]; [|discriminate].
  unfold str_eqb. case_bool_decide as Hc; [|discriminate]. subst cmd.
  destruct (split args) as [|t rest] eqn:Hs; [discriminate|].
  intros [= ->]. exists args, rest. repeat split; auto.
  intros ->. discriminate.
Qed.

Lemma handle_command_nick (k : Clock) (me : nat) (u : User) (line args : str)
    (w : World) :
  heap w !! me = Some u -> parse_command line = Some (lit "nick", args) ->
  handle_command k me line w = cmd_nick me u args w.
Proof.
  intros Hme Hp. unfold handle_command. rewrite Hme, Hp. reflexivity.
Qed.

Lemma send_msg_lookup (me : nat) (u : User) (text : str) (w : World) :
  heap w !! me = Some u ->
  let w' := send_msg me text w in
  users w' = users w /\ messages w' = messages w
  /\ heap w' !! me = Some (wrote (lit ":" ++ text ++ CRLF) u)
  /\ forall o, o <> me -> heap w' !! o = heap w !! o.
Proof.
  intros Hme. unfold send_msg. rewrite try_write_alter. simpl.
  repeat split.
  - rewrite lookup_alter_eq, Hme. reflexivity.
  - intros o Ho. apply lookup_alter_ne. auto.
Qed.

(** When the sender has its own entry, a key held by another session is
    not the sender's own. *)
Lemma registered_sender_key (w : World) (me other : nat) (u : User) (key : str) :
  users w !! lower (nick u) = Some me -> users w !! key = Some other ->
  other <> me -> key <> lower (nick u).
Proof. intros Hown Hheld Hne ->. congruence. Qed.

(** C2 (as amended).  A [/nick] whose name passes the character check,
    whose lower-cased key is held by another session and is not the
    lower-cased current nick of the sender, is answered with "Nickname
    already in use" to the sender alone; the registry, the table, every
    other session and the sender's nick stay as they were. *)
Theorem nick_taken_refused (k : Clock) (me other : nat) (u : User)
    (line tok : str) (w : World) :
  heap w !! me = Some u ->
  nick_token line = Some tok ->
  nick_refused (take 24 tok) = false ->
  users w !! lower (take 24 tok) = Some other ->
  other <> me ->
  lower (take 24 tok) <> lower (nick u) ->
  exists w',
    handle_command k me line w = Returned w'
    /\ users w' = users w /\ messages w' = messages w
    /\ heap w' !! me = Some (wrote (lit ":Nickname already in use" ++ CRLF) u)
    /\ nick (wrote (lit ":Nickname already in use" ++ CRLF) u) = nick u
    /\ forall o, o <> me -> heap w' !! o = heap w !! o.
Proof.
  intros Hme Htok Hchars Hheld _ Hnot_own.
  destruct (nick_token_parse line tok Htok) as (args & rest & Hp & Hs & Hne).
  rewrite (handle_command_nick k me u line args w Hme Hp).
  unfold cmd_nick. destruct args as [|a args']; [congruence|].
  rewrite Hs, Hchars.
  assert (nick_in_use w u (lower (take 24 tok)) = true) as ->.
  { unfold nick_in_use, str_eqb. rewrite Hheld.
    rewrite bool_decide_eq_true_2 by eauto.
    rewrite bool_decide_eq_false_2 by assumption. reflexivity. }
  eexists. split; [reflexivity|].
  destruct (send_msg_lookup me u (lit "Nickname already in use") w Hme)
    as (E1 & E2 & E3 & E4).
  repeat split; auto.
Qed.


End NickClaims.

Lemma nick_taken_refused_bob :
  let w := after_polite_run in
  let line := lit "/nick Bob" in
  (exists u, heap w !! 0%nat = Some u
     /\ nick_token (T := ascii_text) line = Some (lit "Bob")
     /\ nick_refused (T := ascii_text) (take 24 (lit "Bob")) = false
     /\ users w !! lower (PyText := ascii_text) (take 24 (lit "Bob")) = Some 1%nat
     /\ 1%nat <> 0%nat
     /\ lower (PyText := ascii_text) (take 24 (lit "Bob"))
        <> lower (PyText := ascii_text) (nick u))
  /\ exists w',
       handle_command (T := ascii_text) noon 0 line w = Returned w'
       /\ users w' = users w
       /\ nick_of w' 0 = Some (lit "alice") /\ nick_of w' 1 = Some (lit "bob").
Proof.
  intros w line.
  destruct (heap w !! 0%nat) as [u|] eqn:Hu; [|vm_compute in Hu; discriminate].
  assert (nick u = lit "alice") as Hn.
  { vm_compute in Hu. injection Hu as <-. reflexivity. }
  assert (lower (PyText := ascii_text) (take 24 (lit "Bob"))
          <> lower (PyText := ascii_text) (nick u)) as Hne
    by (rewrite Hn; vm_compute; discriminate).
  split.
  - exists u. repeat split; try (vm_compute; reflexivity); auto.
  - destruct (nick_taken_refused (T := ascii_text) noon 0 1 u line (lit "Bob") w
                Hu ltac:(vm_compute; reflexivity) ltac:(vm_compute; reflexivity)
                ltac:(vm_compute; reflexivity) ltac:(lia) Hne)
      as (w' & Hr & Hus & _ & Hme & Hnick & Hoth).
    exists w'. repeat split; auto.
    + unfold nick_of. rewrite Hme. unfold fmap, option_fmap, option_map.
      rewrite Hnick, Hn. reflexivity.
    + unfold nick_of. rewrite (Hoth 1%nat) by lia. vm_compute. reflexivity.
Defined.



(** C2, as the specification states it, fails when the sender lost its
    own entry to a later connection: the key it asks for is held by the
    other session, yet the request goes through and takes the entry. *)
Lemma guest_takes_guest :
  let w := after_two_guests in
  let w' := world_of (handle_command (T := ascii_text) noon 0 (lit "/nick guest") w) in
  users w !! lit "guest" = Some 1%nat
  /\ nick_of w 0 = Some (lit "Guest")
  /\ users w' !! lit "guest" = Some 0%nat
  /\ nick_of w' 0 = Some (lit "guest")
  /\ last (sent_to w' 0) = Some (lit ":You are now guest" ++ CRLF)
  /\ forall key, users w' !! key <> Some 1%nat.
Proof.
  intros w w'.
  assert (users w' = {[ lit "guest" := 0%nat ]}) as E by (vm_compute; reflexivity).
  repeat split; try (vm_compute; reflexivity).
  intros key. rewrite E, lookup_singleton. case_decide; congruence.
Qed.

(** ** Commands always return

    The indexing and unpacking of [handle_command] that could raise
    never does: the argument text comes out of [split] with no white
    space at either end. *)

Lemma lstrip_suffix (s : str) : exists pre, s = pre ++ lstrip s.
Proof.
  induction s as [|c s [pre IH]]; simpl.
  - exists []. reflexivity.
  - destruct (isspace c).
    + exists (c :: pre). simpl. congruence.
    + exists []. reflexivity.
Qed.

Lemma lstrip_head (s r : str) (c : N) : lstrip s = c :: r -> isspace c = false.
Proof.
  induction s as [|x s IH]; simpl; [discriminate|].
  destruct (isspace x) eqn:E; [exact IH|].
  intros [= <- <-]. exact E.
Qed.

Lemma ends_in_word_suffix (pre s : str) :
  s <> [] -> ends_in_word (pre ++ s) -> ends_in_word s.
Proof.
  intros Hne (init & c & E & Hc).
  destruct (exists_last Hne) as (init' & c' & ->).
  rewrite app_assoc in E. apply app_inj_tail in E as [_ <-].
  exists init', c'. auto.
Qed.

Lemma strip_ends_in_word (s : str) : strip s <> [] -> ends_in_word (strip s).
Proof.
  unfold strip, rstrip. intros Hne.
  destruct (lstrip (rev (lstrip s))) as [|c t] eqn:E; [contradiction|].
  exists (rev t), c. split; [reflexivity|]. eapply lstrip_head, E.
Qed.

Lemma span_word_app (s : str) : fst (span_word s) ++ snd (span_word s) = s.
Proof.
  induction s as [|c s IH]; simpl; [reflexivity|].
  destruct (isspace c); [reflexivity|].
  destruct (span_word s) as [w r]. simpl in *. congruence.
Qed.

(** The argument text, when there is one, starts and ends with a
    character that is not white space. *)
Lemma split_max1_args (s a : str) (p : str) (rest : list str) :
  ends_in_word s -> split_max1 s = p :: a :: rest ->
  ends_in_word a /\ exists c r, a = c :: r /\ isspace c = false.
Proof.
  intros Hend. unfold split_max1.
  destruct (lstrip_suffix s) as [pre1 E1].
  destruct (lstrip s) as [|c1 s1] eqn:E; [discriminate|].
  pose proof (span_word_app (c1 :: s1)) as E2.
  destruct (span_word (c1 :: s1)) as [w r]. simpl in E2.
  destruct (lstrip_suffix r) as [pre2 E3].
  destruct (lstrip r) as [|c2 s2] eqn:E'; [discriminate|].
  intros [= _ <- _]. split.
  - apply (ends_in_word_suffix (pre1 ++ w ++ pre2)); [discriminate|].
    rewrite <- !app_assoc, <- E3, E2, <- E1. exact Hend.
  - exists c2, s2. split; [reflexivity|]. eapply lstrip_head, E'.
Qed.

Lemma contains_cons (c x : N) (s : str) :
  contains c (x :: s) = (c =? x) || contains c s.
Proof. reflexivity. Qed.

Lemma contains_SP_word (c : N) (s : str) :
  isspace c = false -> contains SP (c :: s) = true -> contains SP s = true.
Proof.
  intros Hc. rewrite contains_cons. destruct (SP =? c) eqn:E; [|auto].
  apply N.eqb_eq in E. subst c. discriminate.
Qed.

Lemma split_from_word (cur s : str) : cur <> [] -> split_from cur s <> [].
Proof.
  revert cur. induction s as [|c s IH]; intros cur Hne; simpl.
  - destruct cur; [contradiction|discriminate].
  - destruct (isspace c).
    + destruct cur; [contradiction|discriminate].
    + apply IH. discriminate.
Qed.

Lemma split_from_ends_in_word (cur s : str) :
  ends_in_word s -> split_from cur s <> [].
Proof.
  revert cur. induction s as [|c s IH]; intros cur Hend; simpl.
  - destruct Hend as (init & x & E & _). destruct init; discriminate.
  - destruct s as [|c' s'].
    + destruct Hend as (init & x & E & Hx).
      destruct init as [|y [|z init]]; try discriminate.
      injection E as ->. rewrite Hx. simpl. destruct cur; discriminate.
    + assert (ends_in_word (c' :: s')) as Hend'
        by (apply (ends_in_word_suffix [c]); [discriminate|exact Hend]).
      destruct (isspace c); [|apply IH, Hend'].
      destruct cur; [apply IH, Hend'|discriminate].
Qed.

Lemma split_from_two (cur s : str) :
  cur <> [] -> contains SP s = true -> ends_in_word s ->
  exists a b rest, split_from cur s = a :: b :: rest.
Proof.
  revert cur. induction s as [|c s IH]; intros cur Hne Hsp Hend; [discriminate|].
  simpl. destruct s as [|c' s'].
  - destruct Hend as (init & x & E & Hx).
    destruct init as [|y [|z init]]; try discriminate.
    injection E as ->. apply (contains_SP_word x [] Hx) in Hsp. discriminate.
  - assert (ends_in_word (c' :: s')) as Hend'
      by (apply (ends_in_word_suffix [c]); [discriminate|exact Hend]).
    destruct (isspace c) eqn:Hc.
    + destruct cur as [|x cur]; [contradiction|].
      pose proof (split_from_ends_in_word [] (c' :: s') Hend') as Hn.
      destruct (split_from [] (c' :: s')) as [|b rest]; [contradiction|]. eauto.
    + apply IH; [discriminate| |exact Hend'].
      eapply contains_SP_word; eauto.
Qed.

Lemma split_sp1_from_two (cur s : str) :
  contains SP s = true -> exists a b, split_sp1_from cur s = [a; b].
Proof.
  revert cur. induction s as [|c s IH]; intros cur Hsp; [discriminate|].
  simpl. destruct (c =? SP) eqn:Hc; [eauto|].
  apply IH. rewrite contains_cons, N.eqb_sym, Hc in Hsp. exact Hsp.
Qed.

Section Totality.

Context {T : PyText}.

Lemma handle_command_returns (k : Clock) (me : nat) (line : str) (w : World) :
  startswith_slash line = true ->
  exists w', handle_command k me line w = Returned w'.
Proof.
  intros Hslash. unfold handle_command.
  destruct (heap w !! me) as [u|]; [|eauto].
  destruct line as [|c0 r0]; [discriminate|]. simpl in Hslash.
  apply N.eqb_eq in Hslash. subst c0.
  destruct (strip_keeps_head SLASH r0 eq_refl) as (r' & Hr').
  destruct (split_max1_head SLASH r' eq_refl) as (p & rest & Hp).
  assert (ends_in_word (SLASH :: r')) as Hend
    by (rewrite <- Hr'; apply strip_ends_in_word; rewrite Hr'; discriminate).
  unfold parse_command. rewrite Hr', Hp.
  assert (match rest with a :: _ => a | [] => [] end = []
          \/ exists a c r, match rest with a :: _ => a | [] => [] end = a
                           /\ a = c :: r /\ isspace c = false /\ ends_in_word a)
    as Hargs.
  { destruct rest as [|a rest']; [left; reflexivity|]. right.
    destruct (split_max1_args _ a _ rest' Hend Hp) as (Ha & c & r & -> & Hc).
    exists (c :: r), c, r. auto. }
  generalize dependent (match rest with a :: _ => a | [] => [] end).
  intros args Hargs.
  destruct (str_eqb _ (lit "help")); [eauto|].
  destruct (str_eqb _ (lit "nick")).
  { unfold cmd_nick. destruct Hargs as [->|(a & c & r & -> & -> & Hc & Ha)]; [eauto|].
    pose proof (split_from_word [c] r ltac:(discriminate)) as Hs.
    unfold split. simpl. rewrite Hc.
    destruct (split_from [c] r) as [|tok tl]; [contradiction|].
    destruct (nick_refused (take 24 tok)); [eauto|].
    destruct (nick_in_use w u (lower (take 24 tok))); eauto. }
  destruct (str_eqb _ (lit "msg") || str_eqb _ (lit "dm")).
  { unfold cmd_msg. destruct args as [|c r] eqn:Ea; [eauto|]. rewrite <- Ea.
    destruct (contains SP args) eqn:Hsp; simpl; [|eauto].
    destruct (split_sp1_from_two [] args Hsp) as (a & b & Hs).
    unfold split_sp1. rewrite Hs.
    destruct (str_eqb (lower a) (lower (nick u))); [eauto|].
    destruct (negb (bool_decide (is_Some (users w !! lower a)))); [eauto|].
    destruct (send_to _ _ _). eauto. }
  destruct (str_eqb _ (lit "history")).
  { unfold cmd_history. destruct (contains SP args) eqn:Hsp; [|eauto].
    destruct Hargs as [->|(a & c & r & -> & -> & Hc & Ha)]; [discriminate|].
    assert (exists x y tl, split (c :: r) = x :: y :: tl) as (x & y & tl & ->).
    { unfold split. simpl. rewrite Hc.
      apply (contains_SP_word c r Hc) in Hsp.
      destruct r as [|c1 r1]; [discriminate|].
      apply split_from_two; [discriminate|exact Hsp|].
      apply (ends_in_word_suffix [c]); [discriminate|exact Ha]. }
    destruct (str_eqb (lower y) (lit "dm")); eauto. }
  destruct (str_eqb _ (lit "color")); [|eauto].
  unfold cmd_color.
  destruct (str_eqb (lower args) (lit "on")); [eauto|].
  destruct (str_eqb (lower args) (lit "off")); eauto.
Qed.

Lemma handle_line_returns (k : Clock) (me : nat) (raw : str) (w : World) :
  exists w', handle_line k me raw w = Returned w'.
Proof.
  unfold handle_line. destruct (heap w !! me) as [u|]; [|eauto].
  destruct (strip raw) as [|c r]; [eauto|].
  destruct (startswith_slash (c :: r)) eqn:Hs.
  - apply handle_command_returns, Hs.
  - destruct (400 <? length (c :: r))%nat; eauto.
Qed.

End Totality.

(** ** Delivery *)

Lemma deliver_lookup (o o' : nat) (msg : str) (w : World) :
  heap (deliver o msg w) !! o'
  = if decide (o = o') then received msg <$> heap w !! o else heap w !! o'.
Proof.
  unfold deliver. destruct (heap w !! o) as [u|] eqn:E.
  - rewrite try_write_alter. simpl. rewrite lookup_alter.
    case_decide; subst; [rewrite E|]; reflexivity.
  - case_decide; subst; [rewrite E|]; reflexivity.
Qed.

Lemma received_sent (msg : str) (u : User) :
  nick (received msg u) = nick u
  /\ colors_enabled (received msg u) = colors_enabled u
  /\ w_sent (writer (received msg u))
     = if w_ok (writer u) && negb (w_closed (writer u))
       then w_sent (writer u) ++ [apply_color u msg ++ CRLF]
       else w_sent (writer u).
Proof.
  unfold received, wrote, written, writer_write.
  destruct (w_ok (writer u) && negb (w_closed (writer u))); auto.
Qed.

Section DeliveryClaims.

Context {T : PyText}.

Lemma broadcast_one_lookup (msg : str) (skip : option str) (w : World)
    (key : str) (o o' : nat) :
  heap (broadcast_one msg skip w (key, o)) !! o'
  = if skipped skip key then heap w !! o'
    else if decide (o = o') then received msg <$> heap w !! o else heap w !! o'.
Proof.
  unfold broadcast_one. simpl. destruct (skipped skip key); [reflexivity|].
  apply deliver_lookup.
Qed.

Lemma broadcast_list_other (msg : str) (skip : option str)
    (l : list (str * nat)) (w : World) (o : nat) :
  o ∉ l.*2 -> heap (foldl (broadcast_one msg skip) w l) !! o = heap w !! o.
Proof.
  revert w. induction l as [|[k1 o1] l IH]; intros w Hnot; simpl; [reflexivity|].
  rewrite fmap_cons in Hnot. apply not_elem_of_cons in Hnot as [Hne Hnot].
  rewrite IH by assumption. rewrite broadcast_one_lookup.
  destruct (skipped skip k1); [reflexivity|].
  simpl in Hne. case_decide; congruence.
Qed.

Lemma broadcast_list_hit (msg : str) (skip : option str)
    (l : list (str * nat)) (w : World) (key : str) (o : nat) :
  NoDup l.*2 -> (key, o) ∈ l ->
  heap (foldl (broadcast_one msg skip) w l) !! o
  = if skipped skip key then heap w !! o else received msg <$> heap w !! o.
Proof.
  revert w. induction l as [|[k1 o1] l IH]; intros w Hnd Hin; simpl.
  - inversion Hin.
  - rewrite fmap_cons in Hnd. apply NoDup_cons in Hnd as [Hfresh Hnd].
    apply elem_of_cons in Hin as [Heq|Hin].
    + injection Heq as -> ->.
      rewrite broadcast_list_other by assumption.
      rewrite broadcast_one_lookup.
      destruct (skipped skip k1); [reflexivity|].
      case_decide; congruence.
    + assert (o <> o1) as Hne.
      { intros ->. apply Hfresh. apply list_elem_of_fmap.
        exists (key, o1). auto. }
      rewrite IH by assumption.
      rewrite broadcast_one_lookup.
      destruct (skipped skip k1); [reflexivity|].
      case_decide; [congruence|reflexivity].
Qed.

Lemma registry_ok_NoDup (w : World) :
  registry_ok w -> NoDup (map_to_list (users w)).*2.
Proof.
  intros [R1 _]. apply NoDup_fmap_2_strong; [|apply NoDup_map_to_list].
  intros [k1 o1] [k2 o2] H1 H2 E. simpl in E. subst o2.
  apply elem_of_map_to_list in H1, H2.
  destruct (R1 k1 o1 H1) as (u1 & Hu1 & -> & _).
  destruct (R1 k2 o1 H2) as (u2 & Hu2 & -> & _).
  congruence.
Qed.

(** C3.  [broadcast(text, skip_nick=A)] over a registry in order: every
    registered session whose key is not the lower-cased [A] gets the
    text, rendered for it, in one guarded write (nothing is added to a
    stream whose write raises, whatever happens to the others); for a
    nick [A] the session filed under its key gets nothing; sessions
    without an entry get nothing; the registry and the table are as
    before, and the call always returns. *)
Theorem broadcast_delivers (msg A : str) (w : World) :
  registry_ok w ->
  let w' := broadcast msg (Some A) w in
  users w' = users w /\ messages w' = messages w
  /\ (forall key o u, users w !! key = Some o -> heap w !! o = Some u ->
        key <> lower A ->
        heap w' !! o = Some (received msg u)
        /\ w_sent (writer (received msg u))
           = if w_ok (writer u) && negb (w_closed (writer u))
             then w_sent (writer u) ++ [apply_color u msg ++ CRLF]
             else w_sent (writer u))
  /\ (A <> [] -> forall o, users w !! lower A = Some o ->
        heap w' !! o = heap w !! o)
  /\ (forall o, unlisted w o -> heap w' !! o = heap w !! o).
Proof.
  intros R w'. pose proof (broadcast_frame msg (Some A) w) as (Eu & Em & _).
  pose proof (registry_ok_NoDup w R) as Hnd.
  split; [exact Eu|]. split; [exact Em|]. split; [|split].
  - intros key o u Hk Hu Hne. split; [|apply received_sent].
    unfold w', broadcast.
    rewrite (broadcast_list_hit msg (Some A) _ w key o Hnd)
      by (apply elem_of_map_to_list; assumption).
    assert (skipped (Some A) key = false) as ->.
    { unfold skipped, str_eqb. destruct A; [reflexivity|].
      apply bool_decide_eq_false_2. assumption. }
    rewrite Hu. reflexivity.
  - intros HA o Hk. unfold w', broadcast.
    rewrite (broadcast_list_hit msg (Some A) _ w (lower A) o Hnd)
      by (apply elem_of_map_to_list; assumption).
    assert (skipped (Some A) (lower A) = true) as ->.
    { unfold skipped, str_eqb. destruct A; [congruence|].
      apply bool_decide_eq_true_2. reflexivity. }
    reflexivity.
  - intros o Hu. unfold w', broadcast. apply broadcast_list_other.
    intros Hin. apply list_elem_of_fmap in Hin as ([k o'] & -> & Hin).
    apply elem_of_map_to_list in Hin. exact (Hu k Hin).
Qed.

(** C6 (as amended).  [send_to] hands back [None] on both paths.  With
    no session under the lower-cased name nothing changes; with one, it
    gets the text, rendered for it, in one guarded write, and nothing
    else changes. *)
Theorem send_to_returns_none (n msg : str) (w : World) :
  fst (send_to n msg w) = PyNone
  /\ (users w !! lower n = None -> snd (send_to n msg w) = w)
  /\ (forall o u, users w !! lower n = Some o -> heap w !! o = Some u ->
        let w' := snd (send_to n msg w) in
        users w' = users w /\ messages w' = messages w
        /\ heap w' !! o = Some (received msg u)
        /\ forall o', o' <> o -> heap w' !! o' = heap w !! o').
Proof.
  unfold send_to. split; [|split].
  - destruct (users w !! lower n); reflexivity.
  - intros ->. reflexivity.
  - intros o u Hk Hu. rewrite Hk. simpl.
    pose proof (deliver_frame o msg w) as (Eu & Em & _).
    repeat split; auto.
    + rewrite deliver_lookup. case_decide; [|congruence]. rewrite Hu. reflexivity.
    + intros o' Hne. rewrite deliver_lookup. case_decide; congruence.
Qed.

End DeliveryClaims.

Lemma broadcast_delivers_polite_run :
  let w := after_polite_run in
  let msg := lit "[12:00] <alice> hi" in
  let w' := broadcast (T := ascii_text) msg (Some (lit "alice")) w in
  registry_ok (T := ascii_text) w
  /\ users w' = users w
  /\ (users w !! lit "alice" = Some 0%nat /\ sent_to w' 0 = sent_to w 0)
  /\ (users w !! lit "guest" = Some 2%nat
      /\ sent_to w' 2 = sent_to w 2 ++ [msg ++ CRLF])
  /\ (users w !! lit "bob" = Some 1%nat /\ sent_to w' 1 = sent_to w 1).
Proof.
  intros w msg w'.
  assert (registry_ok (T := ascii_text) w) as R
    by (apply run_registry_ok, world0_registry_ok).
  split; [exact R|].
  destruct (broadcast_delivers (T := ascii_text) msg (lit "alice") w R)
    as (Eu & _ & Hdeliv & Hskip & _).
  fold w' in Eu, Hdeliv, Hskip.
  split; [exact Eu|]. split; [|split].
  - split; [vm_compute; reflexivity|]. unfold sent_to.
    rewrite (Hskip ltac:(discriminate) 0%nat ltac:(vm_compute; reflexivity)).
    reflexivity.
  - split; [vm_compute; reflexivity|].
    destruct (heap w !! 2%nat) as [u|] eqn:Hu; [|vm_compute in Hu; discriminate].
    destruct (Hdeliv (lit "guest") 2%nat u ltac:(vm_compute; reflexivity) Hu
                ltac:(vm_compute; discriminate)) as [Hg Hs].
    unfold sent_to. rewrite Hg, Hu, Hs.
    vm_compute in Hu. injection Hu as <-. reflexivity.
  - split; [vm_compute; reflexivity|].
    destruct (heap w !! 1%nat) as [u|] eqn:Hu; [|vm_compute in Hu; discriminate].
    destruct (Hdeliv (lit "bob") 1%nat u ltac:(vm_compute; reflexivity) Hu
                ltac:(vm_compute; discriminate)) as [Hg Hs].
    unfold sent_to. rewrite Hg, Hu, Hs.
    vm_compute in Hu. injection Hu as <-. reflexivity.
Defined.

(** C6, as the specification states it, fails: with the recipient
    present the call hands back [None], not [True]; with the recipient
    absent it hands back [None], not [False]. *)
Lemma send_to_hands_back_none :
  let w := run (T := ascii_text) world0 [Accept] in
  users w !! lower (PyText := ascii_text) (lit "Guest") = Some 0%nat
  /\ fst (send_to (T := ascii_text) (lit "Guest") (lit "hi") w) <> PyBool true
  /\ users w !! lower (PyText := ascii_text) (lit "bob") = None
  /\ fst (send_to (T := ascii_text) (lit "bob") (lit "hi") w) <> PyBool false.
Proof.
  intros w. repeat split; try (vm_compute; reflexivity); vm_compute; discriminate.
Qed.

(** ** Chat lines and commands *)

Section LineClaims.

Context {T : PyText}.

(** C9.  A line that starts with a slash always has a verb, and when the
    verb is none of help, nick, msg, dm, history, color the command
    returns with the whole state as it was: nothing is written to any
    session, no session field and no registry entry changes. *)
Theorem unknown_verb_ignored (k : Clock) (me : nat) (line : str) (w : World) :
  startswith_slash line = true ->
  verb_of line ∉ known_verbs ->
  (exists args, parse_command line = Some (verb_of line, args))
  /\ handle_command k me line w = Returned w.
Proof.
  intros Hslash Hverb.
  destruct line as [|c r]; [discriminate|]. simpl in Hslash.
  apply N.eqb_eq in Hslash. subst c.
  destruct (strip_keeps_head SLASH r eq_refl) as (r' & Hr').
  destruct (split_max1_head SLASH r' eq_refl) as (p & rest & Hp).
  assert (exists cmd args, parse_command (SLASH :: r) = Some (cmd, args))
    as (cmd & args & Hparse).
  { unfold parse_command. rewrite Hr', Hp. eauto. }
  unfold verb_of in *. rewrite Hparse in *.
  split; [eauto|].
  unfold handle_command. destruct (heap w !! me) as [u|]; [|reflexivity].
  rewrite Hparse.
  assert (forall v, v ∈ known_verbs -> str_eqb cmd v = false) as Hno.
  { intros v Hv. apply bool_decide_eq_false_2. intros ->. auto. }
  unfold known_verbs in Hno.
  rewrite !Hno; [reflexivity|..];
    repeat first [apply list_elem_of_here | apply list_elem_of_further].
Qed.

End LineClaims.

Lemma unknown_verb_ignored_quit :
  startswith_slash (lit "/quit") = true
  /\ verb_of (T := ascii_text) (lit "/quit") = lit "quit"
  /\ handle_command (T := ascii_text) noon 0 (lit "/quit") after_polite_run
     = Returned after_polite_run.
Proof.
  split; [reflexivity|]. split; [vm_compute; reflexivity|].
  apply (unknown_verb_ignored (T := ascii_text)); [reflexivity|].
  apply (bool_decide_unpack _). vm_compute. exact I.
Defined.

(** ** Rendering *)

Lemma render_seq_color_subs (text : str) :
  render_seq color_subs text = flat_map expand text.
Proof.
  unfold render_seq, color_subs. cbn [foldl fst snd].
  rewrite !replace_single, !flat_map_flat_map.
  apply flat_map_ext. intros c. unfold expand.
  destruct (c =? LT) eqn:E1.
  { apply N.eqb_eq in E1. subst c. vm_compute. reflexivity. }
  destruct (c =? GT) eqn:E2.
  { apply N.eqb_eq in E2. subst c. vm_compute. reflexivity. }
  destruct (c =? LBRACK) eqn:E3.
  { apply N.eqb_eq in E3. subst c. vm_compute. reflexivity. }
  destruct (c =? RBRACK) eqn:E4.
  { apply N.eqb_eq in E4. subst c. vm_compute. reflexivity. }
  destruct (c =? ARROW_R) eqn:E5.
  { apply N.eqb_eq in E5. subst c. vm_compute. reflexivity. }
  destruct (c =? ARROW_L) eqn:E6.
  { apply N.eqb_eq in E6. subst c. vm_compute. reflexivity. }
  cbn [flat_map app]. rewrite E2. cbn [flat_map app]. rewrite E3.
  cbn [flat_map app]. rewrite E4. cbn [flat_map app]. rewrite E5.
  cbn [flat_map app]. rewrite E6. reflexivity.
Qed.

(** What the code computes: the text itself when the flag is off; when
    it is on, the six replacements one after the other in the order of
    the source, each applied to the output of the one before, so that
    every character ends up as its [expand]. *)
Lemma apply_color_sequential (u : User) (text : str) :
  apply_color u text
  = (if colors_enabled u then render_seq color_subs text else text)
  /\ render_seq color_subs text = flat_map expand text.
Proof.
  split; [|apply render_seq_color_subs].
  unfold apply_color. destruct (colors_enabled u); reflexivity.
Qed.

(** C8.  With colors on, the marker table of the source says [<] is to
    come out as green followed by [<], and [>] as [>] followed by the
    reset.  The code gives neither: the markers it has put in hold an
    opening bracket, and its own later replacement for [[] breaks them,
    so [<] comes out as two escapes, the yellow marker cut open and
    "[32m<".  The outcome depends on the order of the six
    replacements: with the one for [[] done first the text comes out as
    the table says. *)
Theorem apply_color_breaks_markers :
  colors_enabled colored_user = true
  /\ apply_color colored_user (lit "<") = [ESC; ESC] ++ lit "[33m[32m<"
  /\ apply_color colored_user (lit "<") <> COLORS.green ++ lit "<"
  /\ apply_color colored_user (lit ">") = lit ">" ++ [ESC; ESC] ++ lit "[33m[0m"
  /\ apply_color colored_user (lit ">") <> lit ">" ++ COLORS.reset
  /\ Permutation bracket_first color_subs
  /\ render_seq bracket_first (lit "<") = COLORS.green ++ lit "<"
  /\ render_seq bracket_first (lit "<") <> apply_color colored_user (lit "<").
Proof.
  split; [reflexivity|]. split; [vm_compute; reflexivity|].
  split; [vm_compute; discriminate|]. split; [vm_compute; reflexivity|].
  split; [vm_compute; discriminate|]. split.
  - unfold bracket_first, color_subs.
    apply (Permutation_middle
             [([LT], COLORS.green ++ [LT]); ([GT], [GT] ++ COLORS.reset)]).
  - split; [vm_compute; reflexivity|]. vm_compute. discriminate.
Qed.

(** ** History queries *)

(** The rows a history command lists are the last [n] matching rows of
    the table, in the order they were inserted. *)
Lemma select_desc_chronological (p : Row -> bool) (n : nat) (tbl : list Row) :
  rev (select_desc p (Z.of_nat n) tbl)
  = drop (length (List.filter p tbl) - n) (List.filter p tbl)
  /\ (length (select_desc p (Z.of_nat n) tbl) <= n)%nat.
Proof.
  unfold select_desc.
  assert ((Z.of_nat n <? 0)%Z = false) as -> by (apply Z.ltb_ge; lia).
  rewrite Nat2Z.id. split.
  - rewrite firstn_rev, rev_involutive. reflexivity.
  - rewrite length_take. lia.
Qed.

Section HistoryFacts.

Context {T : PyText}.

Lemma history_limit_bounds (args : str) :
  (history_limit args <= 300)%Z
  /\ (isdigit (strip args) = false -> history_limit args = 10%Z).
Proof.
  unfold history_limit. destruct (isdigit (strip args)).
  - split; [|discriminate]. destruct (int_of_str args); lia.
  - split; [|reflexivity]. lia.
Qed.

End HistoryFacts.

(** ** Two slips of the command interpreter, run *)

(** C4.  [/nick a-!] is accepted: the name is not alphanumeric, but it
    holds a hyphen, so the test of line 123 lets it through. *)
Lemma nick_with_bang_accepted :
  let w := run (T := ascii_text) world0 [Accept; Recv 0 noon (lit "/nick a-!")] in
  nick_refused (T := ascii_text) (lit "a-!") = false
  /\ nick_of w 0 = Some (lit "a-!")
  /\ users w !! lit "a-!" = Some 0%nat
  /\ last (sent_to w 0) = Some (lit ":You are now a-!" ++ CRLF).
Proof. intros w. repeat split; vm_compute; reflexivity. Qed.

(** C5.  [/history 5 dm] after six private messages lists all six: the
    limit is read off the whole argument text, which is not a number,
    so it is 10. *)
Lemma history_dm_ignores_count :
  let w := after_six_dms in
  let w' := world_of (handle_command (T := ascii_text) noon 0 (lit "/history 5 dm") w) in
  history_limit (T := ascii_text) (lit "5 dm") = 10%Z
  /\ history_limit (T := ascii_text) (lit "5") = 5%Z
  /\ drop (length (sent_to w 0)) (sent_to w' 0)
     = (lit ":Recent private messages (6):" ++ CRLF)
       :: map (fun m => lit ":[12:00] " ++ [ARROW_R] ++ lit " bob " ++ m ++ CRLF)
            [lit "one"; lit "two"; lit "three"; lit "four"; lit "five"; lit "six"].
Proof. intros w w'. repeat split; vm_compute; reflexivity. Qed.

(** * Further properties of the handlers *)

(** ** Guarded writes, as one operation on the recipient *)

Lemma wrote_push (d : str) (u : User) : wrote d u = push [d] u.
Proof.
  unfold wrote, written, writer_write, push, writable.
  destruct (w_ok (writer u) && negb (w_closed (writer u))); [reflexivity|].
  apply set_writer_same.
Qed.

Lemma push_nil (u : User) : push [] u = u.
Proof.
  unfold push. destruct (writable u); [|reflexivity].
  rewrite app_nil_r. destruct u as [[ok cl sent] n c]. reflexivity.
Qed.

Lemma push_push (a b : list str) (u : User) : push b (push a u) = push (a ++ b) u.
Proof.
  unfold push, writable. destruct u as [[ok cl sent] n c]. simpl.
  destruct (ok && negb cl) eqn:E; simpl; rewrite E; [|reflexivity].
  rewrite app_assoc. reflexivity.
Qed.

Lemma push_fields (ds : list str) (u : User) :
  nick (push ds u) = nick u
  /\ colors_enabled (push ds u) = colors_enabled u
  /\ w_ok (writer (push ds u)) = w_ok (writer u)
  /\ w_closed (writer (push ds u)) = w_closed (writer u)
  /\ w_sent (writer (push ds u))
     = if writable u then w_sent (writer u) ++ ds else w_sent (writer u).
Proof. unfold push. destruct (writable u); simpl; auto. Qed.

Lemma received_push (msg : str) (u : User) :
  received msg u = push [apply_color u msg ++ CRLF] u.
Proof. apply wrote_push. Qed.

Lemma try_write_lookup (me o : nat) (d : str) (w : World) :
  users (try_write me d w) = users w
  /\ messages (try_write me d w) = messages w
  /\ next_obj (try_write me d w) = next_obj w
  /\ heap (try_write me d w) !! o
     = if decide (me = o) then push [d] <$> heap w !! me else heap w !! o.
Proof.
  rewrite try_write_alter. simpl. repeat split.
  rewrite lookup_alter. case_decide; [|reflexivity].
  destruct (heap w !! me); simpl; [rewrite wrote_push|]; reflexivity.
Qed.

Lemma send_msg_at (me o : nat) (text : str) (w : World) :
  users (send_msg me text w) = users w
  /\ messages (send_msg me text w) = messages w
  /\ next_obj (send_msg me text w) = next_obj w
  /\ heap (send_msg me text w) !! o
     = if decide (me = o) then push [reply text] <$> heap w !! me else heap w !! o.
Proof. apply try_write_lookup. Qed.

Lemma send_lines_lookup (me o : nat) (ls : list str) (w : World) :
  users (send_lines me ls w) = users w
  /\ messages (send_lines me ls w) = messages w
  /\ next_obj (send_lines me ls w) = next_obj w
  /\ heap (send_lines me ls w) !! o
     = if decide (me = o) then push (map reply ls) <$> heap w !! me
       else heap w !! o.
Proof.
  unfold send_lines. revert w. induction ls as [|l ls IH]; intros w; cbn [foldl map].
  - repeat split. case_decide; [subst|reflexivity].
    destruct (heap w !! o); simpl; [rewrite push_nil|]; reflexivity.
  - destruct (IH (send_msg me l w)) as (E1 & E2 & E3 & E4).
    destruct (send_msg_at me o l w) as (F1 & F2 & F3 & F4).
    destruct (send_msg_at me me l w) as (_ & _ & _ & F5).
    split; [congruence|]. split; [congruence|]. split; [congruence|].
    rewrite E4. destruct (decide (me = o)) as [->|Hne]; [|exact F4].
    rewrite F5. destruct (decide (o = o)); [|congruence].
    destruct (heap w !! o); simpl; [|reflexivity].
    rewrite push_push. reflexivity.
Qed.

Lemma send_msg_effect (me : nat) (u : User) (text : str) (w : World) :
  heap w !! me = Some u ->
  let w' := send_msg me text w in
  users w' = users w /\ messages w' = messages w
  /\ heap w' !! me = Some (push [reply text] u)
  /\ forall o, o <> me -> heap w' !! o = heap w !! o.
Proof.
  intros Hme w'. unfold w', send_msg.
  destruct (try_write_lookup me me (lit ":" ++ text ++ CRLF) w) as (E1 & E2 & _ & E3).
  repeat split; auto.
  - rewrite E3, Hme. case_decide; [reflexivity|congruence].
  - intros o Ho.
    destruct (try_write_lookup me o (lit ":" ++ text ++ CRLF) w) as (_ & _ & _ & E4).
    rewrite E4. case_decide; congruence.
Qed.

(** ** Private messages *)

Section MsgFacts.

Context {T : PyText}.

Lemma msg_request_cmd (k : Clock) (me : nat) (u : User) (line target msg : str)
    (w : World) :
  heap w !! me = Some u -> msg_request line = Some (target, msg) ->
  exists args,
    handle_command k me line w = cmd_msg k me u args w
    /\ args <> [] /\ contains SP args = true
    /\ split_sp1 args = [target; msg].
Proof.
  intros Hme. unfold msg_request, handle_command. rewrite Hme.
  destruct (parse_command line) as [[cmd args]|]; [|discriminate].
  destruct (str_eqb cmd (lit "msg") || str_eqb cmd (lit "dm")) eqn:Hv;
    [|discriminate].
  destruct (contains SP args) eqn:Hsp; [|discriminate]. simpl.
  destruct (split_sp1 args) as [|t [|m [|x y]]] eqn:Hs; try discriminate.
  intros [= -> ->]. exists args.
  assert (str_eqb cmd (lit "help") = false) as ->.
  { apply bool_decide_eq_false_2. intros ->. vm_compute in Hv. discriminate. }
  assert (str_eqb cmd (lit "nick") = false) as ->.
  { apply bool_decide_eq_false_2. intros ->. vm_compute in Hv. discriminate. }
  repeat split; auto. intros ->. discriminate.
Qed.

(** X1.  A private message to a name nobody is registered under, and
    that is not the sender's own, only tells the sender that the name is
    not online: no row is stored, nobody else is written to, the
    registry stays. *)
Theorem msg_offline_reported (k : Clock) (me : nat) (u : User)
    (line target msg : str) (w : World) :
  heap w !! me = Some u ->
  msg_request line = Some (target, msg) ->
  lower target <> lower (nick u) ->
  users w !! lower target = None ->
  exists w',
    handle_command k me line w = Returned w'
    /\ users w' = users w /\ messages w' = messages w
    /\ heap w' !! me = Some (push [reply (target ++ lit " is not online")] u)
    /\ forall o, o <> me -> heap w' !! o = heap w !! o.
Proof.
  intros Hme Hreq Hself Hoff.
  destruct (msg_request_cmd k me u line target msg w Hme Hreq)
    as (args & -> & Hne & Hsp & Hs).
  unfold cmd_msg. destruct args as [|a args']; [congruence|].
  rewrite Hsp, Hs. cbn [negb].
  unfold str_eqb. rewrite bool_decide_eq_false_2 by assumption.
  rewrite Hoff. rewrite bool_decide_eq_false_2 by (intros [x Hx]; discriminate).
  cbn [negb]. eexists. split; [reflexivity|].
  apply send_msg_effect, Hme.
Qed.

(** X2.  A private message whose target lower-cases to the sender's own
    lower-cased nick, however it is typed, is turned down with "Can't
    message yourself": no row is stored and nothing else changes. *)
Theorem msg_self_refused (k : Clock) (me : nat) (u : User)
    (line target msg : str) (w : World) :
  heap w !! me = Some u ->
  msg_request line = Some (target, msg) ->
  lower target = lower (nick u) ->
  exists w',
    handle_command k me line w = Returned w'
    /\ users w' = users w /\ messages w' = messages w
    /\ heap w' !! me = Some (push [reply (lit "Can't message yourself")] u)
    /\ forall o, o <> me -> heap w' !! o = heap w !! o.
Proof.
  intros Hme Hreq Hself.
  destruct (msg_request_cmd k me u line target msg w Hme Hreq)
    as (args & -> & Hne & Hsp & Hs).
  unfold cmd_msg. destruct args as [|a args']; [congruence|].
  rewrite Hsp, Hs. cbn [negb].
  unfold str_eqb. rewrite bool_decide_eq_true_2 by assumption.
  eexists. split; [reflexivity|].
  apply send_msg_effect, Hme.
Qed.

(** X3.  A private message to a registered name: the sender gets the
    confirmation with the right arrow, the recipient gets the text with
    the left arrow and the sender's nick, rendered for the recipient,
    one row is stored with the target as it was typed, and nothing else
    changes.  Sender and recipient are two sessions. *)
Theorem msg_delivered (k : Clock) (me o : nat) (u : User)
    (line target msg : str) (w : World) :
  registry_ok w ->
  heap w !! me = Some u ->
  msg_request line = Some (target, msg) ->
  lower target <> lower (nick u) ->
  users w !! lower target = Some o ->
  exists w' uo,
    handle_command k me line w = Returned w'
    /\ o <> me /\ heap w !! o = Some uo
    /\ users w' = users w
    /\ messages w'
       = messages w ++ [mkRow (nick u) (Some target) msg (current_timestamp k)]
    /\ heap w' !! me
       = Some (push [reply (lit "[" ++ hhmm k ++ lit "] " ++ [ARROW_R] ++ lit " "
                            ++ target ++ lit " " ++ msg)] u)
    /\ heap w' !! o
       = Some (push [apply_color uo (lit "[" ++ hhmm k ++ lit "] " ++ [ARROW_L]
                                      ++ lit " " ++ nick u ++ lit " " ++ msg)
                     ++ CRLF] uo)
    /\ forall o', o' <> me -> o' <> o -> heap w' !! o' = heap w !! o'.
Proof.
  intros [R1 _] Hme Hreq Hself Hon.
  destruct (msg_request_cmd k me u line target msg w Hme Hreq)
    as (args & -> & Hne & Hsp & Hs).
  destruct (R1 _ _ Hon) as (uo & Huo & Hkey & _).
  assert (o <> me) as Hom by (intros ->; congruence).
  unfold cmd_msg. destruct args as [|a args']; [congruence|].
  rewrite Hsp, Hs. cbn [negb].
  unfold str_eqb. rewrite bool_decide_eq_false_2 by assumption.
  rewrite Hon. rewrite bool_decide_eq_true_2 by eauto. cbn [negb].
  match goal with
  | |- context [send_msg me ?t w] =>
      destruct (send_msg_effect me u t w Hme) as (E1 & E2 & E3 & E4);
      set (w1 := send_msg me t w) in *
  end.
  unfold send_to. rewrite E1, Hon.
  eexists _, uo. split; [reflexivity|].
  split; [exact Hom|]. split; [exact Huo|].
  match goal with
  | |- context [deliver o ?m w1] =>
      pose proof (deliver_frame o m w1) as (F1 & F2 & _);
      pose proof (fun o' => deliver_lookup o o' m w1) as F3
  end.
  unfold insert_row. cbn [users messages heap].
  rewrite F1, F2, E1, E2. repeat split.
  - rewrite F3. case_decide; [congruence|]. exact E3.
  - rewrite F3. case_decide; [|congruence].
    rewrite (E4 o Hom), Huo. simpl. rewrite received_push. reflexivity.
  - intros o' H1 H2. rewrite F3. case_decide; [congruence|]. apply E4, H1.
Qed.

End MsgFacts.

(** ** Colors and history *)

Section ColorHistoryFacts.

Context {T : PyText}.

Lemma handle_command_color (k : Clock) (me : nat) (u : User) (line args : str)
    (w : World) :
  heap w !! me = Some u -> parse_command line = Some (lit "color", args) ->
  handle_command k me line w = cmd_color me u args w.
Proof.
  intros Hme Hp. unfold handle_command. rewrite Hme, Hp. reflexivity.
Qed.

Lemma handle_command_history (k : Clock) (me : nat) (u : User) (line args : str)
    (w : World) :
  heap w !! me = Some u -> parse_command line = Some (lit "history", args) ->
  handle_command k me line w = cmd_history me u args w.
Proof.
  intros Hme Hp. unfold handle_command. rewrite Hme, Hp. reflexivity.
Qed.

Lemma set_colors_effect (me : nat) (u : User) (b : bool) (text : str) (w : World) :
  heap w !! me = Some u ->
  let w' := send_msg me text (set_heap (insert me (set_colors b u)) w) in
  users w' = users w /\ messages w' = messages w
  /\ heap w' !! me = Some (push [reply text] (set_colors b u))
  /\ forall o, o <> me -> heap w' !! o = heap w !! o.
Proof.
  intros Hme w'. unfold w'.
  destruct (send_msg_effect me (set_colors b u) text
              (set_heap (insert me (set_colors b u)) w))
    as (E1 & E2 & E3 & E4); [apply lookup_insert_eq|].
  repeat split; auto.
  intros o Ho. rewrite (E4 o Ho). simpl. apply lookup_insert_ne. auto.
Qed.

(** X4.  [/color] changes nothing but the sender's flag and stream.  An
    argument that lower-cases to "on" sets the flag, and from then on
    text for this session goes through the six replacements; one that
    lower-cases to "off" clears it, and text for this session goes out
    as it is; any other argument leaves the flag as it was.  Each time
    the sender gets one reply. *)
Theorem color_toggle (k : Clock) (me : nat) (u : User) (line args : str)
    (w : World) :
  heap w !! me = Some u ->
  parse_command line = Some (lit "color", args) ->
  exists w' u' text,
    handle_command k me line w = Returned w'
    /\ users w' = users w /\ messages w' = messages w
    /\ heap w' !! me = Some (push [reply text] u')
    /\ (forall o, o <> me -> heap w' !! o = heap w !! o)
    /\ nick u' = nick u /\ writer u' = writer u
    /\ (lower args = lit "on" ->
        colors_enabled u' = true
        /\ forall t, apply_color (push [reply text] u') t = render_seq color_subs t)
    /\ (lower args = lit "off" ->
        colors_enabled u' = false
        /\ forall t, apply_color (push [reply text] u') t = t)
    /\ (lower args <> lit "on" -> lower args <> lit "off" -> u' = u).
Proof.
  intros Hme Hp. rewrite (handle_command_color k me u line args w Hme Hp).
  unfold cmd_color, str_eqb.
  destruct (decide (lower args = lit "on")) as [Hon|Hon].
  - rewrite bool_decide_eq_true_2 by assumption.
    eexists _, (set_colors true u), _. split; [reflexivity|].
    destruct (set_colors_effect me u true
                (lit "Colored output " ++ [ARROW_R] ++ lit " enabled") w Hme)
      as (E1 & E2 & E3 & E4).
    split; [exact E1|]. split; [exact E2|]. split; [exact E3|].
    split; [exact E4|]. split; [reflexivity|]. split; [reflexivity|].
    split; [|split].
    + intros _. split; [reflexivity|]. intros t. unfold apply_color.
      destruct (push_fields [reply (lit "Colored output " ++ [ARROW_R] ++ lit " enabled")]
                  (set_colors true u)) as (_ & -> & _).
      reflexivity.
    + intros Hoff. rewrite Hon in Hoff. vm_compute in Hoff. discriminate.
    + intros H. contradiction.
  - rewrite bool_decide_eq_false_2 by assumption.
    destruct (decide (lower args = lit "off")) as [Hoff|Hoff].
    + rewrite bool_decide_eq_true_2 by assumption.
      eexists _, (set_colors false u), _. split; [reflexivity|].
      destruct (set_colors_effect me u false
                  (lit "Colored output " ++ [ARROW_R] ++ lit " disabled") w Hme)
        as (E1 & E2 & E3 & E4).
      split; [exact E1|]. split; [exact E2|]. split; [exact E3|].
      split; [exact E4|]. split; [reflexivity|]. split; [reflexivity|].
      split; [|split].
      * intros H. contradiction.
      * intros _. split; [reflexivity|]. intros t. unfold apply_color.
        destruct (push_fields
                    [reply (lit "Colored output " ++ [ARROW_R] ++ lit " disabled")]
                    (set_colors false u)) as (_ & -> & _).
        reflexivity.
      * intros _ H. contradiction.
    + rewrite bool_decide_eq_false_2 by assumption.
      eexists _, u, _. split; [reflexivity|].
      destruct (send_msg_effect me u
                  (lit "Current: " ++ (if colors_enabled u then lit "on" else lit "off")
                   ++ lit "   Usage: /color on|off") w Hme)
        as (E1 & E2 & E3 & E4).
      split; [exact E1|]. split; [exact E2|]. split; [exact E3|].
      split; [exact E4|]. split; [reflexivity|]. split; [reflexivity|].
      split; [|split]; try (intros H; contradiction). reflexivity.
Qed.

Lemma history_reply (me : nat) (u : User) (header : str) (ls : list str)
    (w : World) :
  heap w !! me = Some u ->
  let w' := send_lines me ls (send_msg me header w) in
  users w' = users w /\ messages w' = messages w
  /\ heap w' !! me = Some (push (map reply (header :: ls)) u)
  /\ forall o, o <> me -> heap w' !! o = heap w !! o.
Proof.
  intros Hme w'. unfold w'.
  destruct (send_msg_effect me u header w Hme) as (E1 & E2 & E3 & E4).
  repeat split.
  - destruct (send_lines_lookup me me ls (send_msg me header w)) as (-> & _). exact E1.
  - destruct (send_lines_lookup me me ls (send_msg me header w)) as (_ & -> & _).
    exact E2.
  - destruct (send_lines_lookup me me ls (send_msg me header w)) as (_ & _ & _ & ->).
    destruct (decide (me = me)); [|congruence].
    rewrite E3. simpl. rewrite push_push. reflexivity.
  - intros o Ho.
    destruct (send_lines_lookup me o ls (send_msg me header w)) as (_ & _ & _ & ->).
    destruct (decide (me = o)); [congruence|]. apply E4, Ho.
Qed.

(** X5.  [/history] with an argument text that has no space in it and a
    limit of [n]: the sender is sent a header with the number of rows
    and then the last [n] public rows of the table (all of them when
    there are fewer), oldest first, one line each; nothing else
    changes. *)
Theorem history_public_lists_last (k : Clock) (me : nat) (u : User)
    (line args : str) (n : nat) (w : World) :
  heap w !! me = Some u ->
  parse_command line = Some (lit "history", args) ->
  contains SP args = false ->
  history_limit args = Z.of_nat n ->
  let pub := List.filter is_public (messages w) in
  let rows := drop (length pub - n) pub in
  exists w',
    handle_command k me line w = Returned w'
    /\ users w' = users w /\ messages w' = messages w
    /\ heap w' !! me
       = Some (push (map reply
                       ((lit "Recent public messages (" ++ str_of_nat (length rows)
                         ++ lit "):") :: map public_line rows)) u)
    /\ (forall o, o <> me -> heap w' !! o = heap w !! o)
    /\ length rows = Nat.min n (length pub) /\ (n <= 300)%nat.
Proof.
  intros Hme Hp Hsp Hlim pub rows.
  rewrite (handle_command_history k me u line args w Hme Hp).
  unfold cmd_history. rewrite Hsp, Hlim. unfold history_public.
  destruct (select_desc_chronological is_public n (messages w)) as [-> _].
  fold pub. fold rows.
  eexists. split; [reflexivity|].
  destruct (history_reply me u
              (lit "Recent public messages (" ++ str_of_nat (length rows) ++ lit "):")
              (map public_line rows) w Hme) as (E1 & E2 & E3 & E4).
  repeat split; auto.
  - unfold rows. rewrite length_drop. lia.
  - destruct (history_limit_bounds args) as [Hb _]. lia.
Qed.

(** X6.  [/history] with a second word that lower-cases to "dm" and a
    limit of [n]: the sender is sent a header and the last [n] rows it
    sent or that were sent to its current nick, oldest first.  A row
    the sender wrote shows a right arrow and the recipient, any other a
    left arrow and the writer.  Public rows the sender wrote are among
    them, and show the recipient as the word None. *)
Theorem history_dm_lists_last (k : Clock) (me : nat) (u : User)
    (line args first second : str) (rest : list str) (n : nat) (w : World) :
  heap w !! me = Some u ->
  parse_command line = Some (lit "history", args) ->
  contains SP args = true ->
  split args = first :: second :: rest ->
  lower second = lit "dm" ->
  history_limit args = Z.of_nat n ->
  let mine := List.filter (involves (nick u)) (messages w) in
  let rows := drop (length mine - n) mine in
  exists w',
    handle_command k me line w = Returned w'
    /\ users w' = users w /\ messages w' = messages w
    /\ heap w' !! me
       = Some (push (map reply
                       ((lit "Recent private messages (" ++ str_of_nat (length rows)
                         ++ lit "):") :: map (dm_line (nick u)) rows)) u)
    /\ (forall o, o <> me -> heap w' !! o = heap w !! o)
    /\ (forall r, In r (messages w) -> from_nick r = nick u -> to_nick r = None ->
          In r mine
          /\ dm_line (nick u) r
             = lit "[" ++ slice 11 16 (timestamp r) ++ lit "] " ++ [ARROW_R]
               ++ lit " " ++ lit "None" ++ lit " " ++ message r).
Proof.
  intros Hme Hp Hsp Hs Hdm Hlim mine rows.
  rewrite (handle_command_history k me u line args w Hme Hp).
  unfold cmd_history. rewrite Hsp, Hs, Hlim. unfold str_eqb.
  rewrite bool_decide_eq_true_2 by assumption. unfold history_dm.
  destruct (select_desc_chronological (involves (nick u)) n (messages w)) as [-> _].
  fold mine. fold rows.
  eexists. split; [reflexivity|].
  destruct (history_reply me u
              (lit "Recent private messages (" ++ str_of_nat (length rows) ++ lit "):")
              (map (dm_line (nick u)) rows) w Hme) as (E1 & E2 & E3 & E4).
  repeat split; auto.
  - unfold mine. apply filter_In. split; [assumption|].
    unfold involves, str_eqb. rewrite bool_decide_eq_true_2 by assumption.
    reflexivity.
  - unfold dm_line, str_eqb. rewrite H1.
    rewrite bool_decide_eq_true_2 by assumption. reflexivity.
Qed.

End ColorHistoryFacts.

(** ** Notices *)

Section NoticeFacts.

Context {T : PyText}.

Lemma broadcast_lookup (msg : str) (skip : option str) (w : World) :
  registry_ok w ->
  users (broadcast msg skip w) = users w
  /\ messages (broadcast msg skip w) = messages w
  /\ next_obj (broadcast msg skip w) = next_obj w
  /\ (forall key o, users w !! key = Some o ->
        heap (broadcast msg skip w) !! o
        = if skipped skip key then heap w !! o else received msg <$> heap w !! o)
  /\ (forall o, unlisted w o -> heap (broadcast msg skip w) !! o = heap w !! o).
Proof.
  intros R. pose proof (broadcast_frame msg skip w) as (Eu & Em & En & _).
  pose proof (registry_ok_NoDup w R) as Hnd.
  split; [exact Eu|]. split; [exact Em|]. split; [exact En|]. split.
  - intros key o Hk. unfold broadcast.
    apply broadcast_list_hit; [exact Hnd|].
    apply elem_of_map_to_list. exact Hk.
  - intros o Hu. unfold broadcast. apply broadcast_list_other.
    intros Hin. apply list_elem_of_fmap in Hin as ([key o'] & -> & Hin).
    apply elem_of_map_to_list in Hin. exact (Hu key Hin).
Qed.

(** X7.  A broadcast without [skip_nick], or with the empty text for
    it, leaves nobody out: every registered session gets the text,
    rendered for it, in one guarded write, and sessions without an
    entry get nothing. *)
Theorem broadcast_unskipped (msg : str) (skip : option str) (w : World) :
  registry_ok w ->
  skip = None \/ skip = Some [] ->
  let w' := broadcast msg skip w in
  users w' = users w /\ messages w' = messages w
  /\ (forall key o u, users w !! key = Some o -> heap w !! o = Some u ->
        heap w' !! o = Some (push [apply_color u msg ++ CRLF] u))
  /\ (forall o, unlisted w o -> heap w' !! o = heap w !! o).
Proof.
  intros R Hskip w'.
  destruct (broadcast_lookup msg skip w R) as (Eu & Em & _ & Hhit & Hother).
  split; [exact Eu|]. split; [exact Em|]. split; [|exact Hother].
  intros key o u Hk Hu. unfold w'. rewrite (Hhit key o Hk), Hu.
  assert (skipped skip key = false) as -> by (destruct Hskip; subst; reflexivity).
  simpl. rewrite received_push. reflexivity.
Qed.

End NoticeFacts.

(** ** The length cap on chat lines *)

Section ChatLineClaims.

Context {T : PyText}.

(** C7.  A line that is not a command, once stripped.  With at most 400
    characters (so with exactly 400): one public row is appended to the
    table, and the line, stamped and tagged with the sender's nick, is
    broadcast with the sender's key skipped; in a registry in order
    that is, every session registered under another key is sent the
    line, rendered for it, in one guarded write, and the sender and
    every session without an entry are sent nothing.  With 401 or
    more: the sender gets the one length message, in a guarded write,
    and the registry, the table and every other session stay as they
    were. *)
Theorem chat_line_length_cap (k : Clock) (me : nat) (u : User) (raw : str)
    (w : World) :
  heap w !! me = Some u ->
  strip raw <> [] ->
  startswith_slash (strip raw) = false ->
  let line := strip raw in
  let text := lit "[" ++ hhmm k ++ lit "] <" ++ nick u ++ lit "> " ++ line in
  ((length line <= 400)%nat ->
     exists w',
       handle_line k me raw w = Returned w'
       /\ messages w' = messages w ++ [mkRow (nick u) None line (current_timestamp k)]
       /\ users w' = users w
       /\ heap w' = heap (broadcast text (Some (nick u)) w)
       /\ (registry_ok w -> nick u <> [] ->
           (forall key o uo, users w !! key = Some o -> key <> lower (nick u) ->
              heap w !! o = Some uo ->
              o <> me
              /\ heap w' !! o = Some (push [apply_color uo text ++ CRLF] uo))
           /\ heap w' !! me = Some u
           /\ (forall o, users w !! lower (nick u) = Some o \/ unlisted w o ->
                 heap w' !! o = heap w !! o)))
  /\ ((401 <= length line)%nat ->
        exists w',
          handle_line k me raw w = Returned w'
          /\ messages w' = messages w /\ users w' = users w
          /\ heap w' !! me
             = Some (wrote (lit ":Message too long (max ~400 chars)" ++ CRLF) u)
          /\ forall o, o <> me -> heap w' !! o = heap w !! o).
Proof.
  intros Hme Hne Hslash line text. subst line text.
  unfold handle_line. rewrite Hme.
  destruct (strip raw) as [|c rest] eqn:E; [congruence|]. rewrite <- E in *.
  rewrite Hslash. split; intros Hlen.
  - assert ((400 <? length (strip raw))%nat = false) as ->
      by (apply Nat.ltb_ge; lia).
    eexists. split; [reflexivity|].
    set (text := lit "[" ++ hhmm k ++ lit "] <" ++ nick u ++ lit "> " ++ strip raw).
    pose proof (broadcast_frame text (Some (nick u)) w) as (Eu & Em & _).
    unfold insert_row. cbn [messages users heap]. rewrite Em, Eu.
    split; [reflexivity|]. split; [reflexivity|]. split; [reflexivity|].
    intros R Hnick. pose proof R as [R1 _].
    destruct (broadcast_lookup text (Some (nick u)) w R)
      as (_ & _ & _ & Hhit & Hother).
    assert (forall key, skipped (Some (nick u)) key
                        = bool_decide (key = lower (nick u))) as Hskip.
    { intros key. unfold skipped, str_eqb. destruct (nick u); [congruence|reflexivity]. }
    assert (forall o, users w !! lower (nick u) = Some o \/ unlisted w o ->
              heap (broadcast text (Some (nick u)) w) !! o = heap w !! o) as Hsame.
    { intros o [Hk|Hun]; [|apply Hother, Hun].
      rewrite (Hhit _ _ Hk), Hskip, bool_decide_eq_true_2 by reflexivity.
      reflexivity. }
    split; [|split; [|exact Hsame]].
    + intros key o uo Hk Hkey Huo.
      assert (o <> me) as Hom.
      { intros ->. destruct (R1 _ _ Hk) as (u0 & Hu0 & Ek & _). congruence. }
      split; [exact Hom|].
      rewrite (Hhit _ _ Hk), Hskip, bool_decide_eq_false_2 by exact Hkey.
      rewrite Huo. simpl. rewrite received_push. reflexivity.
    + rewrite Hsame; [exact Hme|].
      destruct (decide (users w !! lower (nick u) = Some me)) as [Hin|Hout];
        [left; exact Hin|right].
      intros key Hk. destruct (R1 _ _ Hk) as (u0 & Hu0 & -> & _).
      apply Hout. congruence.
  - assert ((400 <? length (strip raw))%nat = true) as ->
      by (apply Nat.ltb_lt; lia).
    eexists. split; [reflexivity|].
    destruct (send_msg_lookup me u (lit "Message too long (max ~400 chars)") w Hme)
      as (E1 & E2 & E3 & E4).
    auto.
Qed.

End ChatLineClaims.

Lemma chat_line_length_cap_400_401 :
  let w := after_polite_run in
  let a400 := repeat 97 400 in
  let a401 := repeat 97 401 in
  (length (strip a400) = 400%nat /\ length (strip a401) = 401%nat)
  /\ (exists w',
        handle_line (T := ascii_text) noon 0 a400 w = Returned w'
        /\ messages w'
           = messages w ++ [mkRow (lit "alice") None a400 (current_timestamp noon)]
        /\ sent_to w' 2 = sent_to w 2 ++ [lit "[12:00] <alice> " ++ a400 ++ CRLF]
        /\ sent_to w' 0 = sent_to w 0)
  /\ (exists w',
        handle_line (T := ascii_text) noon 0 a401 w = Returned w'
        /\ messages w' = messages w /\ users w' = users w
        /\ sent_to w' 0
           = sent_to w 0 ++ [lit ":Message too long (max ~400 chars)" ++ CRLF]
        /\ forall o, o <> 0%nat -> heap w' !! o = heap w !! o).
Proof.
  intros w a400 a401.
  assert (registry_ok (T := ascii_text) w) as R
    by (apply run_registry_ok, world0_registry_ok).
  destruct (heap w !! 0%nat) as [u|] eqn:Hu; [|vm_compute in Hu; discriminate].
  assert (nick u = lit "alice") as Hn.
  { vm_compute in Hu. injection Hu as <-. reflexivity. }
  assert (strip a400 = a400) as E400 by (vm_compute; reflexivity).
  assert (strip a401 = a401) as E401 by (vm_compute; reflexivity).
  split; [split; vm_compute; reflexivity|]. split.
  - destruct (chat_line_length_cap (T := ascii_text) noon 0 u a400 w Hu
                ltac:(rewrite E400; discriminate)
                ltac:(rewrite E400; reflexivity)) as [Hok _].
    destruct Hok as (w' & Hr & Hm & _ & _ & Hall).
    { rewrite E400. vm_compute. lia. }
    destruct (Hall R ltac:(rewrite Hn; discriminate)) as (Hothers & Hme & _).
    exists w'. split; [exact Hr|]. split; [rewrite Hm, Hn, E400; reflexivity|].
    unfold sent_to. split.
    + destruct (heap w !! 2%nat) as [v|] eqn:Hv; [|vm_compute in Hv; discriminate].
      destruct (Hothers (lit "guest") 2%nat v ltac:(vm_compute; reflexivity)
                  ltac:(rewrite Hn; vm_compute; discriminate) Hv) as [_ ->].
      rewrite Hn, E400. vm_compute in Hv. injection Hv as <-. reflexivity.
    + rewrite Hme, Hu. reflexivity.
  - destruct (chat_line_length_cap (T := ascii_text) noon 0 u a401 w Hu
                ltac:(rewrite E401; discriminate)
                ltac:(rewrite E401; reflexivity)) as [_ Hlong].
    destruct Hlong as (w' & Hr & Hm & Hus & Hme & Hoth).
    { rewrite E401. vm_compute. lia. }
    exists w'. split; [exact Hr|]. split; [exact Hm|]. split; [exact Hus|].
    split; [|exact Hoth].
    unfold sent_to. rewrite Hme, Hu.
    vm_compute in Hu. injection Hu as <-. reflexivity.
Defined.


(** ** Joining and leaving *)

Section JoinLeaveFacts.

Context {T : PyText}.

Lemma connect_unfold (w : World) :
  connect w
  = broadcast join_notice None (send_lines (next_obj w) greeting (with_new_guest w)).
Proof. reflexivity. Qed.

Lemma with_new_guest_ok (w : World) :
  registry_ok w -> registry_ok (with_new_guest w).
Proof.
  intros [R1 R2]. split; simpl.
  - intros key o Hk. rewrite lookup_insert in Hk. case_decide; subst.
    + injection Hk as <-. rewrite lookup_insert_eq. eauto.
    + destruct (R1 key o Hk) as (u & Hu & Hkey & Hc).
      assert (o < next_obj w)%nat by (apply R2; eauto).
      rewrite lookup_insert_ne by lia. eauto.
  - intros o Ho. rewrite lookup_insert in Ho. case_decide; subst; [lia|].
    specialize (R2 o Ho). lia.
Qed.

(** X8.  Accepting a connection, in a registry in order: the new session
    is filed under the key of the default nick; its stream holds the
    welcome line, the five lines of the banner and then its own join
    notice; every session registered under another key gets the join
    notice, rendered for it; a session that held the default key is no
    longer registered and gets nothing; the table is as before. *)
Theorem accept_greets (w : World) :
  registry_ok w ->
  let me := next_obj w in
  let w' := step w Accept in
  users w' = <[lower (lit "Guest") := me]> (users w)
  /\ messages w' = messages w
  /\ heap w' !! me
     = Some (mkUser (mkWriter true false
                       (map reply greeting ++ [join_notice ++ CRLF]))
               (lit "Guest") false)
  /\ length greeting = 6%nat
  /\ (forall key o u, users w !! key = Some o -> key <> lower (lit "Guest") ->
        heap w !! o = Some u ->
        users w' !! key = Some o
        /\ heap w' !! o = Some (push [apply_color u join_notice ++ CRLF] u))
  /\ (forall o, users w !! lower (lit "Guest") = Some o ->
        unlisted w' o /\ heap w' !! o = heap w !! o).
Proof.
  intros R me w'. unfold w'. cbn [step]. rewrite connect_unfold. fold me.
  pose proof R as [R1 R2].
  set (w2 := with_new_guest w).
  set (w3 := send_lines me greeting w2).
  assert (registry_ok w3) as R3.
  { eapply registry_ok_frame; [apply send_lines_frame|].
    apply with_new_guest_ok, R. }
  assert (users w3 = <[lower (lit "Guest") := me]> (users w)) as Hu3.
  { unfold w3. destruct (send_lines_lookup me me greeting w2) as (-> & _).
    reflexivity. }
  assert (forall o, heap w3 !! o
                    = if decide (me = o) then Some (push (map reply greeting) new_user)
                      else heap w !! o) as Hh3.
  { intros o. unfold w3.
    destruct (send_lines_lookup me o greeting w2) as (_ & _ & _ & ->).
    unfold w2. simpl. case_decide; subst.
    - rewrite lookup_insert_eq. reflexivity.
    - rewrite lookup_insert_ne by assumption. reflexivity. }
  destruct (broadcast_lookup join_notice None w3 R3) as (Eu & Em & _ & Hhit & Hother).
  assert (forall o, is_Some (heap w !! o) -> o <> me) as Hold.
  { intros o Ho ->. specialize (R2 _ Ho). unfold me in R2. lia. }
  split; [rewrite Eu; exact Hu3|].
  split.
  { rewrite Em. unfold w3.
    destruct (send_lines_lookup me me greeting w2) as (_ & -> & _). reflexivity. }
  split.
  { rewrite (Hhit (lower (lit "Guest")) me)
      by (rewrite Hu3; apply lookup_insert_eq).
    cbn [skipped]. rewrite Hh3. destruct (decide (me = me)); [|congruence].
    simpl. rewrite received_push, push_push. reflexivity. }
  split; [reflexivity|].
  split.
  - intros key o u Hk Hne Hu.
    assert (o <> me) as Hom by (apply Hold; eauto).
    assert (users w3 !! key = Some o) as Hk3
      by (rewrite Hu3, lookup_insert_ne by auto; exact Hk).
    split; [rewrite Eu; exact Hk3|].
    rewrite (Hhit key o Hk3). cbn [skipped]. rewrite Hh3.
    destruct (decide (me = o)); [congruence|].
    rewrite Hu. simpl. rewrite received_push. reflexivity.
  - intros o Hk.
    destruct (R1 _ _ Hk) as (u & Hu & _ & _).
    assert (o <> me) as Hom by (apply Hold; eauto).
    assert (unlisted w3 o) as Hun.
    { intros key Hk3. rewrite Hu3, lookup_insert in Hk3.
      case_decide; [congruence|].
      destruct (R1 _ _ Hk3) as (u1 & Hu1 & -> & _).
      destruct (R1 _ _ Hk) as (u2 & Hu2 & E & _). congruence. }
    split.
    + intros key. rewrite Eu. apply Hun.
    + rewrite (Hother o Hun), Hh3. destruct (decide (me = o)); congruence.
Qed.

(** X9.  End of stream on a session that has its own entry, in a
    registry in order: the entry is removed and the stream closed, so
    the session is neither registered nor connected; every other
    registered session keeps its entry and gets the leave notice,
    rendered for it; the one that leaves gets none; the table is as
    before. *)
Theorem eof_unregisters (me : nat) (u : User) (w : World) :
  registry_ok w ->
  heap w !! me = Some u ->
  w_closed (writer u) = false ->
  users w !! lower (nick u) = Some me ->
  let w' := step w (Eof me) in
  users w' = delete (lower (nick u)) (users w)
  /\ messages w' = messages w
  /\ heap w' !! me = Some (close_writer u)
  /\ connectedb w' me = false
  /\ unlisted w' me
  /\ (forall key o uo, users w !! key = Some o -> o <> me -> heap w !! o = Some uo ->
        users w' !! key = Some o
        /\ heap w' !! o = Some (push [apply_color uo (leave_notice (nick u)) ++ CRLF] uo)).
Proof.
  intros R Hme Hopen Hown w'. unfold w'. cbn [step].
  assert (connectedb w me = true) as -> by (unfold connectedb; rewrite Hme, Hopen; reflexivity).
  unfold disconnect. rewrite Hme.
  rewrite bool_decide_eq_true_2 by eauto.
  destruct (unregister_unlisted me u w R Hme) as (R1 & U1 & Hh & Hk).
  rewrite bool_decide_eq_true_2 in R1, U1, Hh, Hk by eauto.
  set (w1 := set_users (delete (lower (nick u))) w) in *.
  fold (leave_notice (nick u)).
  destruct (broadcast_lookup (leave_notice (nick u)) None w1 R1)
    as (Eu & Em & _ & Hhit & Hother).
  set (w2 := broadcast (leave_notice (nick u)) None w1) in *.
  cbn [set_heap users messages heap].
  split; [rewrite Eu; reflexivity|]. split; [rewrite Em; reflexivity|].
  assert (heap w2 !! me = Some u) as Hme2 by (rewrite (Hother me U1), Hh; exact Hme).
  split; [rewrite lookup_alter_eq, Hme2; reflexivity|].
  split.
  { unfold connectedb. cbn [set_heap heap].
    rewrite lookup_alter_eq, Hme2. reflexivity. }
  split.
  { intros key. cbn [set_heap users]. rewrite Eu. apply U1. }
  intros key o uo Hko Hom Huo.
  assert (key <> lower (nick u)) as Hne by (intros ->; congruence).
  assert (users w1 !! key = Some o) as Hk1 by (rewrite (Hk key Hne); exact Hko).
  split; [rewrite Eu; exact Hk1|].
  rewrite lookup_alter_ne by auto.
  rewrite (Hhit key o Hk1). cbn [skipped]. rewrite Hh, Huo. simpl.
  rewrite received_push. reflexivity.
Qed.

End JoinLeaveFacts.

(** ** Renames and chat lines, as the others see them *)

Section RenameChatFacts.

Context {T : PyText}.

Lemma cmd_nick_goes_through (me : nat) (u : User) (args tok : str)
    (rest : list str) (w : World) :
  args <> [] -> split args = tok :: rest ->
  nick_refused (take 24 tok) = false ->
  nick_in_use w u (lower (take 24 tok)) = false ->
  cmd_nick me u args w
  = Returned (send_msg me (lit "You are now " ++ take 24 tok)
                (broadcast (rename_notice (nick u) (take 24 tok)) None
                   (renamed me u (take 24 tok) w))).
Proof.
  intros Hne Hs Hchars Hfree. unfold cmd_nick.
  destruct args as [|a args']; [congruence|].
  rewrite Hs, Hchars, Hfree. reflexivity.
Qed.

(** X10.  A [/nick] that goes through, in a registry in order: the
    sender's entry moves from its old key to the lower-cased new name;
    the sender carries the new name and is sent the rename notice and
    then the confirmation; every other session that keeps its entry
    gets the rename notice, rendered for it; the table is as before. *)
Theorem rename_announced (k : Clock) (me : nat) (u : User) (line tok : str)
    (w : World) :
  registry_ok w ->
  heap w !! me = Some u ->
  w_closed (writer u) = false ->
  nick_token line = Some tok ->
  nick_refused (take 24 tok) = false ->
  nick_in_use w u (lower (take 24 tok)) = false ->
  let new := take 24 tok in
  let notice := rename_notice (nick u) new in
  exists w',
    handle_command k me line w = Returned w'
    /\ users w' = <[lower new := me]> (delete (lower (nick u)) (users w))
    /\ messages w' = messages w
    /\ heap w' !! me
       = Some (push [apply_color u notice ++ CRLF; reply (lit "You are now " ++ new)]
                 (set_nick new u))
    /\ (forall key o uo, users w !! key = Some o -> o <> me ->
          key <> lower (nick u) -> heap w !! o = Some uo ->
          users w' !! key = Some o
          /\ heap w' !! o = Some (push [apply_color uo notice ++ CRLF] uo)).
Proof.
  intros R Hme Hopen Htok Hchars Hfree new notice.
  destruct (nick_token_parse line tok Htok) as (args & rest & Hp & Hs & Hne).
  rewrite (handle_command_nick k me u line args w Hme Hp).
  rewrite (cmd_nick_goes_through me u args tok rest w Hne Hs Hchars Hfree).
  fold new. fold notice.
  set (w3 := renamed me u new w).
  assert (registry_ok w3) as R3 by (apply registry_ok_renamed; assumption).
  destruct (broadcast_lookup notice None w3 R3) as (Eu & Em & _ & Hhit & _).
  set (w4 := broadcast notice None w3) in *.
  assert (heap w4 !! me = Some (received notice (set_nick new u))) as Hme4.
  { rewrite (Hhit (lower new) me) by (simpl; apply lookup_insert_eq).
    cbn [skipped]. simpl. rewrite lookup_insert_eq. reflexivity. }
  destruct (send_msg_effect me _ (lit "You are now " ++ new) w4 Hme4)
    as (E1 & E2 & E3 & E4).
  eexists. split; [reflexivity|].
  split; [rewrite E1, Eu; reflexivity|].
  split; [rewrite E2, Em; reflexivity|].
  split.
  { rewrite E3, received_push, push_push. reflexivity. }
  intros key o uo Hk Hom Hkey Huo.
  assert (key <> lower new) as Hnew.
  { intros ->. unfold new in Hk, Hkey.
    unfold nick_in_use, str_eqb in Hfree. rewrite Hk in Hfree.
    rewrite bool_decide_eq_true_2 in Hfree by eauto.
    rewrite bool_decide_eq_false_2 in Hfree by assumption. discriminate. }
  assert (users w3 !! key = Some o) as Hk3.
  { simpl. rewrite lookup_insert_ne, lookup_delete_ne by auto. exact Hk. }
  split; [rewrite E1, Eu; exact Hk3|].
  rewrite (E4 o Hom), (Hhit key o Hk3). cbn [skipped]. simpl.
  rewrite lookup_insert_ne by auto. rewrite Huo. simpl.
  rewrite received_push. reflexivity.
Qed.

(** X11.  A [/nick] to a name that lower-cases to the sender's own key
    (the same nick in another case, or the same nick again) is never
    turned down as in use: when the name passes the character check and
    the sender has its own entry, the sender carries the name as typed
    and the registry is the same map as before. *)
Theorem recase_keeps_registry (k : Clock) (me : nat) (u : User) (line tok : str)
    (w : World) :
  heap w !! me = Some u ->
  users w !! lower (nick u) = Some me ->
  nick_token line = Some tok ->
  nick_refused (take 24 tok) = false ->
  lower (take 24 tok) = lower (nick u) ->
  exists w',
    handle_command k me line w = Returned w'
    /\ users w' = users w
    /\ messages w' = messages w
    /\ nick <$> heap w' !! me = Some (take 24 tok)
    /\ forall o uo, o <> me -> heap w !! o = Some uo ->
         nick <$> heap w' !! o = Some (nick uo).
Proof.
  intros Hme Hown Htok Hchars Hsame.
  destruct (nick_token_parse line tok Htok) as (args & rest & Hp & Hs & Hne).
  rewrite (handle_command_nick k me u line args w Hme Hp).
  assert (nick_in_use w u (lower (take 24 tok)) = false) as Hfree.
  { unfold nick_in_use, str_eqb.
    rewrite (bool_decide_eq_true_2 (lower (take 24 tok) = lower (nick u)))
      by assumption.
    apply andb_false_r. }
  rewrite (cmd_nick_goes_through me u args tok rest w Hne Hs Hchars Hfree).
  set (w3 := renamed me u (take 24 tok) w).
  match goal with
  | |- context [send_msg me ?t (broadcast ?m ?s w3)] =>
      assert (same_but_sent w3 (send_msg me t (broadcast m s w3))) as F
        by (eapply same_but_sent_trans; [apply broadcast_frame|apply send_msg_frame])
  end.
  eexists. split; [reflexivity|].
  pose proof F as (Eu & Em & _ & Hsh).
  split.
  { rewrite Eu. simpl. rewrite Hsame, insert_delete_eq. apply insert_id, Hown. }
  split; [rewrite Em; reflexivity|].
  assert (forall o x, heap w3 !! o = Some x ->
            nick <$> heap (send_msg me (lit "You are now " ++ take 24 tok)
                             (broadcast (rename_notice (nick u) (take 24 tok)) None w3))
                     !! o = Some (nick x)) as Hn.
  { intros o x Hx.
    destruct (same_but_sent_lookup_inv _ _ _ _ F Hx) as (x' & -> & Hs').
    apply shape_fields in Hs' as (Hnx & _). simpl. rewrite Hnx. reflexivity. }
  split.
  - apply (Hn me (set_nick (take 24 tok) u)). simpl. apply lookup_insert_eq.
  - intros o uo Hom Huo. apply Hn. simpl. rewrite lookup_insert_ne by auto. exact Huo.
Qed.

(** X12.  A chat line of at most 400 characters from a session that has
    its own entry, in a registry in order: nothing is written to the
    sender; every other registered session gets the line, stamped and
    tagged with the sender's nick, rendered for it; one public row is
    stored. *)
Theorem chat_not_echoed (k : Clock) (me : nat) (u : User) (raw : str) (w : World) :
  registry_ok w ->
  heap w !! me = Some u ->
  users w !! lower (nick u) = Some me ->
  nick u <> [] ->
  strip raw <> [] ->
  startswith_slash (strip raw) = false ->
  (length (strip raw) <= 400)%nat ->
  exists w',
    handle_line k me raw w = Returned w'
    /\ heap w' !! me = Some u
    /\ users w' = users w
    /\ messages w'
       = messages w ++ [mkRow (nick u) None (strip raw) (current_timestamp k)]
    /\ forall key o uo, users w !! key = Some o -> o <> me -> heap w !! o = Some uo ->
         heap w' !! o
         = Some (push [apply_color uo (chat_notice k (nick u) (strip raw)) ++ CRLF] uo).
Proof.
  intros R Hme Hown Hnick Hne Hslash Hlen.
  unfold handle_line. rewrite Hme.
  destruct (strip raw) as [|c rest] eqn:E; [congruence|]. rewrite <- E in *.
  rewrite Hslash.
  assert ((400 <? length (strip raw))%nat = false) as -> by (apply Nat.ltb_ge; lia).
  fold (chat_notice k (nick u) (strip raw)).
  destruct (broadcast_lookup (chat_notice k (nick u) (strip raw)) (Some (nick u)) w R)
    as (Eu & Em & _ & Hhit & _).
  eexists. split; [reflexivity|].
  unfold insert_row. cbn [heap users messages].
  assert (forall key, skipped (Some (nick u)) key
                      = bool_decide (key = lower (nick u))) as Hskip.
  { intros key. unfold skipped, str_eqb. destruct (nick u); [congruence|reflexivity]. }
  split.
  { rewrite (Hhit _ _ Hown), Hskip, bool_decide_eq_true_2 by reflexivity. exact Hme. }
  split; [exact Eu|]. split; [rewrite Em; reflexivity|].
  intros key o uo Hk Hom Huo.
  rewrite (Hhit _ _ Hk), Hskip.
  rewrite bool_decide_eq_false_2 by (intros ->; congruence).
  rewrite Huo. simpl. rewrite received_push. reflexivity.
Qed.

End RenameChatFacts.

(** ** What a handled line can change *)

Lemma user_step_refl (u : User) : user_step u u.
Proof.
  unfold user_step. repeat split; auto.
  exists []. rewrite app_nil_r. auto.
Qed.

Lemma writable_same (u u' : User) :
  w_ok (writer u') = w_ok (writer u) -> w_closed (writer u') = w_closed (writer u) ->
  writable u' = writable u.
Proof. unfold writable. intros -> ->. reflexivity. Qed.

Lemma user_step_trans (u1 u2 u3 : User) :
  user_step u1 u2 -> user_step u2 u3 -> user_step u1 u3.
Proof.
  intros (N1 & O1 & C1 & d1 & S1 & W1) (N2 & O2 & C2 & d2 & S2 & W2).
  pose proof (writable_same u1 u2 O1 C1) as Hw.
  unfold user_step. split; [|split; [congruence|split; [congruence|]]].
  - destruct N2 as [N2|N2]; [|auto]. destruct N1 as [N1|N1]; [left; congruence|].
    right. rewrite N2. exact N1.
  - exists (d1 ++ d2). rewrite S2, S1, app_assoc. split; [reflexivity|].
    intros H. rewrite (W1 H), (W2 ltac:(congruence)). reflexivity.
Qed.

Lemma user_step_push (ds : list str) (u : User) : user_step u (push ds u).
Proof.
  destruct (push_fields ds u) as (N & _ & O & C & S).
  unfold user_step. split; [auto|]. split; [exact O|]. split; [exact C|].
  destruct (writable u) eqn:E.
  - exists ds. split; [exact S|discriminate].
  - exists []. rewrite app_nil_r. auto.
Qed.

Lemma evolves_refl (w : World) : evolves w w.
Proof.
  split; [exists []; rewrite app_nil_r; reflexivity|]. split; [reflexivity|].
  intros o. destruct (heap w !! o); [apply user_step_refl|exact I].
Qed.

Lemma evolves_trans (w1 w2 w3 : World) :
  evolves w1 w2 -> evolves w2 w3 -> evolves w1 w3.
Proof.
  intros ([r1 M1] & N1 & H1) ([r2 M2] & N2 & H2).
  split; [exists (r1 ++ r2); rewrite M2, M1, app_assoc; reflexivity|].
  split; [congruence|].
  intros o. specialize (H1 o). specialize (H2 o).
  destruct (heap w1 !! o), (heap w2 !! o), (heap w3 !! o); try contradiction; auto.
  eapply user_step_trans; eauto.
Qed.

Lemma evolves_alter (f : User -> User) (o : nat) (w : World) :
  (forall u, user_step u (f u)) -> evolves w (set_heap (alter f o) w).
Proof.
  intros Hf. split; [exists []; simpl; rewrite app_nil_r; reflexivity|].
  split; [reflexivity|].
  intros i. simpl. rewrite lookup_alter. case_decide; subst.
  - destruct (heap w !! i); simpl; [apply Hf|exact I].
  - destruct (heap w !! i); [apply user_step_refl|exact I].
Qed.

Lemma evolves_set_users (g : gmap str nat -> gmap str nat) (w : World) :
  evolves w (set_users g w).
Proof.
  split; [exists []; simpl; rewrite app_nil_r; reflexivity|].
  split; [reflexivity|].
  intros o. simpl. destruct (heap w !! o); [apply user_step_refl|exact I].
Qed.

Lemma evolves_insert_row (r : Row) (w : World) : evolves w (insert_row r w).
Proof.
  split; [exists [r]; reflexivity|]. split; [reflexivity|].
  intros o. simpl. destruct (heap w !! o); [apply user_step_refl|exact I].
Qed.

Lemma evolves_try_write (o : nat) (d : str) (w : World) : evolves w (try_write o d w).
Proof.
  rewrite try_write_alter. apply evolves_alter.
  intros u. rewrite wrote_push. apply user_step_push.
Qed.

Lemma evolves_deliver (o : nat) (msg : str) (w : World) : evolves w (deliver o msg w).
Proof.
  unfold deliver. destruct (heap w !! o); [apply evolves_try_write|apply evolves_refl].
Qed.

Lemma evolves_send_lines (o : nat) (ls : list str) (w : World) :
  evolves w (send_lines o ls w).
Proof.
  unfold send_lines. revert w. induction ls as [|l ls IH]; intros w; cbn [foldl].
  - apply evolves_refl.
  - eapply evolves_trans; [apply evolves_try_write|apply IH].
Qed.

Section Evolution.

Context {T : PyText}.

Lemma evolves_broadcast (msg : str) (skip : option str) (w : World) :
  evolves w (broadcast msg skip w).
Proof.
  unfold broadcast. generalize (map_to_list (users w)). intros l.
  revert w. induction l as [|e l IH]; intros w; cbn [foldl].
  - apply evolves_refl.
  - eapply evolves_trans; [|apply IH]. unfold broadcast_one.
    destruct (skipped skip (fst e)); [apply evolves_refl|apply evolves_deliver].
Qed.

Lemma evolves_send_to (n msg : str) (w : World) :
  evolves w (snd (send_to n msg w)).
Proof.
  unfold send_to. destruct (users w !! lower n); simpl;
    [apply evolves_deliver|apply evolves_refl].
Qed.

Lemma evolves_insert (f : User -> User) (me : nat) (u : User) (w : World) :
  heap w !! me = Some u -> user_step u (f u) ->
  evolves w (set_heap (insert me (f u)) w).
Proof.
  intros Hme Hf.
  split; [exists []; simpl; rewrite app_nil_r; reflexivity|].
  split; [reflexivity|].
  intros i. simpl. rewrite lookup_insert. case_decide; subst.
  - rewrite Hme. exact Hf.
  - destruct (heap w !! i); [apply user_step_refl|exact I].
Qed.

End Evolution.

Lemma split_from_no_space (cur s : str) :
  Forall (fun c => isspace c = false) cur ->
  Forall (fun t => Forall (fun c => isspace c = false) t) (split_from cur s).
Proof.
  revert cur. induction s as [|c s IH]; intros cur Hcur; simpl.
  - destruct cur; constructor; [|constructor]. apply Forall_rev. exact Hcur.
  - destruct (isspace c) eqn:E.
    + destruct cur as [|x cur']; [apply IH; constructor|].
      constructor; [apply Forall_rev; exact Hcur|apply IH; constructor].
    + apply IH. constructor; assumption.
Qed.

Lemma nick_wf_take (args tok : str) (rest : list str) :
  split args = tok :: rest -> nick_wf (take 24 tok).
Proof.
  intros Hs. pose proof (split_word_nonempty _ _ _ Hs) as Hne.
  pose proof (split_from_no_space [] args ltac:(constructor)) as Hall.
  unfold split in Hs. rewrite Hs in Hall. inversion Hall as [|? ? Htok _]; subst.
  split; [|split].
  - destruct tok; [congruence|discriminate].
  - rewrite length_take. lia.
  - apply Forall_take. exact Htok.
Qed.

Lemma nick_wf_guest : nick_wf (lit "Guest").
Proof.
  split; [discriminate|]. split; [vm_compute; lia|].
  repeat constructor.
Qed.

Section HandlerEvolution.

Context {T : PyText}.

Lemma evolves_send_msg (o : nat) (text : str) (w : World) :
  evolves w (send_msg o text w).
Proof. apply evolves_try_write. Qed.

Lemma cmd_nick_evolves (me : nat) (u : User) (args : str) (w : World) :
  heap w !! me = Some u -> evolves w (world_of (cmd_nick me u args w)).
Proof.
  intros Hme. unfold cmd_nick.
  destruct args as [|a args']; [apply evolves_send_msg|].
  generalize (a :: args'). intros args.
  destruct (split args) as [|tok rest] eqn:Hs; [apply evolves_refl|].
  destruct (nick_refused (take 24 tok)); [apply evolves_send_msg|].
  destruct (nick_in_use w u (lower (take 24 tok))); [apply evolves_send_msg|].
  cbn [world_of].
  eapply evolves_trans; [|apply evolves_send_msg].
  eapply evolves_trans; [|apply evolves_broadcast].
  eapply evolves_trans; [apply evolves_set_users|].
  eapply evolves_trans; [|apply evolves_set_users].
  apply (evolves_insert (set_nick (take 24 tok))); [exact Hme|].
  unfold user_step. simpl. split; [right; eapply nick_wf_take; eauto|].
  repeat split. exists []. rewrite app_nil_r. auto.
Qed.

Lemma cmd_msg_evolves (k : Clock) (me : nat) (u : User) (args : str) (w : World) :
  evolves w (world_of (cmd_msg k me u args w)).
Proof.
  unfold cmd_msg.
  destruct args as [|a args']; [apply evolves_send_msg|].
  generalize (a :: args'). intros args.
  destruct (negb (contains SP args)); [apply evolves_send_msg|].
  destruct (split_sp1 args) as [|target [|msg [|x y]]]; try apply evolves_refl.
  destruct (str_eqb (lower target) (lower (nick u))); [apply evolves_send_msg|].
  destruct (negb (bool_decide (is_Some (users w !! lower target))));
    [apply evolves_send_msg|].
  match goal with
  | |- context [send_to ?n ?m ?x] =>
      pose proof (evolves_send_to n m x) as F; destruct (send_to n m x) as [v w2]
  end.
  cbn [world_of snd] in *.
  eapply evolves_trans; [apply evolves_send_msg|].
  eapply evolves_trans; [apply F|]. apply evolves_insert_row.
Qed.

Lemma cmd_history_evolves (me : nat) (u : User) (args : str) (w : World) :
  evolves w (world_of (cmd_history me u args w)).
Proof.
  assert (forall l, evolves w (history_public me l w)) as Hpub.
  { intros l. unfold history_public.
    eapply evolves_trans; [apply evolves_send_msg|apply evolves_send_lines]. }
  assert (forall l, evolves w (history_dm me u l w)) as Hdm.
  { intros l. unfold history_dm.
    eapply evolves_trans; [apply evolves_send_msg|apply evolves_send_lines]. }
  unfold cmd_history. destruct (contains SP args); [|apply Hpub].
  destruct (split args) as [|first [|second rest]]; try apply evolves_refl.
  destruct (str_eqb (lower second) (lit "dm")); [apply Hdm|apply Hpub].
Qed.

Lemma cmd_color_evolves (me : nat) (u : User) (args : str) (w : World) :
  heap w !! me = Some u -> evolves w (world_of (cmd_color me u args w)).
Proof.
  intros Hme. unfold cmd_color.
  assert (forall b, user_step u (set_colors b u)) as Hc.
  { intros b. unfold user_step. simpl. repeat split; auto.
    exists []. rewrite app_nil_r. auto. }
  destruct (str_eqb (lower args) (lit "on")); cbn [world_of].
  { eapply evolves_trans; [|apply evolves_send_msg].
    apply (evolves_insert (set_colors true)); auto. }
  destruct (str_eqb (lower args) (lit "off")); cbn [world_of].
  { eapply evolves_trans; [|apply evolves_send_msg].
    apply (evolves_insert (set_colors false)); auto. }
  apply evolves_send_msg.
Qed.

Lemma handle_command_evolves (k : Clock) (me : nat) (line : str) (w : World) :
  evolves w (world_of (handle_command k me line w)).
Proof.
  unfold handle_command. destruct (heap w !! me) as [u|] eqn:Hme; [|apply evolves_refl].
  destruct (parse_command line) as [[cmd args]|]; [|apply evolves_refl].
  destruct (str_eqb cmd (lit "help")); [apply evolves_send_lines|].
  destruct (str_eqb cmd (lit "nick")); [apply cmd_nick_evolves, Hme|].
  destruct (str_eqb cmd (lit "msg") || str_eqb cmd (lit "dm"));
    [apply cmd_msg_evolves|].
  destruct (str_eqb cmd (lit "history")); [apply cmd_history_evolves|].
  destruct (str_eqb cmd (lit "color")); [apply cmd_color_evolves, Hme|].
  apply evolves_refl.
Qed.

Lemma handle_line_evolves (k : Clock) (me : nat) (raw : str) (w : World) :
  evolves w (world_of (handle_line k me raw w)).
Proof.
  unfold handle_line. destruct (heap w !! me) as [u|]; [|apply evolves_refl].
  destruct (strip raw) as [|c line'] eqn:E; [apply evolves_refl|].
  generalize (c :: line'). intros line.
  destruct (startswith_slash line); [apply handle_command_evolves|].
  destruct (400 <? length line)%nat; cbn [world_of]; [apply evolves_send_msg|].
  eapply evolves_trans; [apply evolves_broadcast|apply evolves_insert_row].
Qed.

(** X13.  No line a session sends, whatever it is, ends a connection:
    after the line is handled every session is connected exactly when
    it was before, and every stream is lost exactly when it was before.
    In particular [/quit] leaves the sender connected. *)
Theorem recv_keeps_connections (k : Clock) (me : nat) (raw : str) (w : World) :
  let w' := step w (Recv me k raw) in
  (forall o, connectedb w' o = connectedb w o)
  /\ (forall o, writable <$> heap w' !! o = writable <$> heap w !! o)
  /\ exists w'', handle_line k me raw w = Returned w''.
Proof.
  intros w'. destruct (handle_line_returns k me raw w) as [w'' Hr].
  assert (evolves w w') as (_ & _ & H).
  { unfold w'. cbn [step]. destruct (connectedb w me); [|apply evolves_refl].
    pose proof (handle_line_evolves k me raw w) as E. rewrite Hr in *. exact E. }
  split; [|split; [|eauto]].
  - intros o. specialize (H o). unfold connectedb.
    destruct (heap w !! o), (heap w' !! o); try contradiction; auto.
    destruct H as (_ & _ & -> & _). reflexivity.
  - intros o. specialize (H o).
    destruct (heap w !! o), (heap w' !! o); try contradiction; auto.
    destruct H as (_ & O & C & _). simpl. rewrite (writable_same _ _ O C). reflexivity.
Qed.

End HandlerEvolution.

(** ** What a run can change *)

Lemma unwritable_cases (u : User) :
  writable u = false <-> w_ok (writer u) = false \/ w_closed (writer u) = true.
Proof.
  unfold writable. destruct (w_ok (writer u)), (w_closed (writer u)); simpl;
    intuition discriminate.
Qed.

Lemma user_ages_refl (u : User) : user_ages u u.
Proof.
  unfold user_ages. repeat split; auto.
  exists []. rewrite app_nil_r. auto.
Qed.

Lemma user_ages_unwritable (u u' : User) :
  user_ages u u' -> writable u = false -> writable u' = false.
Proof.
  intros (_ & _ & O & C) H. apply unwritable_cases in H. apply unwritable_cases.
  destruct H; auto.
Qed.

Lemma user_ages_trans (u1 u2 u3 : User) :
  user_ages u1 u2 -> user_ages u2 u3 -> user_ages u1 u3.
Proof.
  intros A1 A2. pose proof (user_ages_unwritable _ _ A1) as Hw.
  destruct A1 as (N1 & (d1 & S1 & W1) & O1 & C1).
  destruct A2 as (N2 & (d2 & S2 & W2) & O2 & C2).
  unfold user_ages. split; [|split; [|split; auto]].
  - destruct N2 as [N2|N2]; [|auto]. destruct N1 as [N1|N1]; [left; congruence|].
    right. rewrite N2. exact N1.
  - exists (d1 ++ d2). rewrite S2, S1, app_assoc. split; [reflexivity|].
    intros H. rewrite (W1 H), (W2 (Hw H)). reflexivity.
Qed.

Lemma user_step_ages (u u' : User) : user_step u u' -> user_ages u u'.
Proof.
  intros (N & O & C & D). unfold user_ages. repeat split; auto; congruence.
Qed.

Lemma ages_refl (w : World) : ages w w.
Proof.
  split; [exists []; rewrite app_nil_r; reflexivity|]. split.
  - intros o u Hu. exists u. split; [exact Hu|apply user_ages_refl].
  - intros o u Hu. right. eauto.
Qed.

Lemma ages_trans (w1 w2 w3 : World) : ages w1 w2 -> ages w2 w3 -> ages w1 w3.
Proof.
  intros ([r1 M1] & A1 & B1) ([r2 M2] & A2 & B2).
  split; [exists (r1 ++ r2); rewrite M2, M1, app_assoc; reflexivity|]. split.
  - intros o u1 H1. destruct (A1 o u1 H1) as (u2 & H2 & U12).
    destruct (A2 o u2 H2) as (u3 & H3 & U23).
    exists u3. split; [exact H3|eapply user_ages_trans; eauto].
  - intros o u3 H3. destruct (B2 o u3 H3) as [Hwf|(u2 & H2 & N2)]; [auto|].
    destruct (B1 o u2 H2) as [Hwf|(u1 & H1 & N1)].
    + left. rewrite N2. exact Hwf.
    + right. exists u1. split; [exact H1|congruence].
Qed.

Lemma evolves_ages (w w' : World) : evolves w w' -> ages w w'.
Proof.
  intros (M & _ & H). split; [exact M|]. split.
  - intros o u Hu. specialize (H o). rewrite Hu in H.
    destruct (heap w' !! o) as [u'|]; [|contradiction].
    exists u'. split; [reflexivity|apply user_step_ages, H].
  - intros o u' Hu'. specialize (H o). rewrite Hu' in H.
    destruct (heap w !! o) as [u|]; [|contradiction].
    destruct H as ([N|N] & _); [right; eauto|left; exact N].
Qed.

Lemma ages_alter (f : User -> User) (me : nat) (w : World) :
  (forall u, user_ages u (f u) /\ nick (f u) = nick u) ->
  ages w (set_heap (alter f me) w).
Proof.
  intros Hf. split; [exists []; simpl; rewrite app_nil_r; reflexivity|]. split.
  - intros o u Hu. simpl. rewrite lookup_alter. case_decide; subst.
    + rewrite Hu. exists (f u). split; [reflexivity|apply Hf].
    + exists u. split; [exact Hu|apply user_ages_refl].
  - intros o u' Hu'. simpl in Hu'. rewrite lookup_alter in Hu'. right.
    case_decide; subst; [|eauto].
    destruct (heap w !! o) as [u|]; [|discriminate].
    injection Hu' as <-. exists u. split; [reflexivity|apply Hf].
Qed.

Lemma close_writer_ages (u : User) :
  user_ages u (close_writer u) /\ nick (close_writer u) = nick u.
Proof.
  unfold user_ages. simpl. repeat split; auto.
  exists []. rewrite app_nil_r. auto.
Qed.

Lemma lose_writer_ages (u : User) :
  user_ages u (lose_writer u) /\ nick (lose_writer u) = nick u.
Proof.
  unfold user_ages. simpl. repeat split; auto.
  exists []. rewrite app_nil_r. auto.
Qed.

Section RunFacts.

Context {T : PyText}.

Lemma with_new_guest_ages (w : World) :
  registry_ok w -> ages w (with_new_guest w).
Proof.
  intros [_ R2]. split; [exists []; simpl; rewrite app_nil_r; reflexivity|]. split.
  - intros o u Hu. assert (o < next_obj w)%nat by (apply R2; eauto).
    exists u. simpl. rewrite lookup_insert_ne by lia.
    split; [exact Hu|apply user_ages_refl].
  - intros o u' Hu'. simpl in Hu'. rewrite lookup_insert in Hu'.
    case_decide; subst; [|right; eauto].
    injection Hu' as <-. left. apply nick_wf_guest.
Qed.

Lemma connect_ages (w : World) : registry_ok w -> ages w (connect w).
Proof.
  intros R. rewrite connect_unfold.
  eapply ages_trans; [apply with_new_guest_ages, R|].
  apply evolves_ages.
  eapply evolves_trans; [apply evolves_send_lines|apply evolves_broadcast].
Qed.

Lemma disconnect_ages (me : nat) (w : World) : ages w (disconnect me w).
Proof.
  unfold disconnect. destruct (heap w !! me) as [u|]; [|apply ages_refl].
  eapply ages_trans; [|apply ages_alter, close_writer_ages].
  apply evolves_ages. eapply evolves_trans; [|apply evolves_broadcast].
  destruct (bool_decide _); [apply evolves_set_users|apply evolves_refl].
Qed.

Lemma step_ages (w : World) (e : event) : registry_ok w -> ages w (step w e).
Proof.
  intros R. destruct e as [|me k raw|me|me]; cbn [step].
  - apply connect_ages, R.
  - destruct (connectedb w me); [|apply ages_refl].
    pose proof (handle_line_evolves k me raw w) as E.
    destruct (handle_line k me raw w) as [w'|w']; cbn [world_of] in E.
    + apply evolves_ages, E.
    + eapply ages_trans; [apply evolves_ages, E|apply disconnect_ages].
  - destruct (connectedb w me); [apply disconnect_ages|apply ages_refl].
  - apply ages_alter, lose_writer_ages.
Qed.

Lemma run_ages (es : list event) (w : World) : registry_ok w -> ages w (run w es).
Proof.
  revert w. induction es as [|e es IH]; intros w R; simpl; [apply ages_refl|].
  eapply ages_trans; [apply step_ages, R|].
  apply IH, step_registry_ok, R.
Qed.

(** X14.  After every sequence of events every session's nick is not
    empty, has at most 24 characters and holds no white space, and so
    every registry key is the lower-cased form of such a nick. *)
Theorem nicks_wellformed (es : list event) :
  let w := run world0 es in
  (forall o u, heap w !! o = Some u -> nick_wf (nick u))
  /\ (forall key o, users w !! key = Some o ->
        exists n, nick_wf n /\ key = lower n).
Proof.
  intros w.
  destruct (run_ages es world0 world0_registry_ok) as (_ & _ & B).
  assert (forall o u, heap w !! o = Some u -> nick_wf (nick u)) as Hwf.
  { intros o u Hu. destruct (B o u Hu) as [H|(u0 & H0 & _)]; [exact H|].
    simpl in H0. rewrite lookup_empty in H0. discriminate. }
  split; [exact Hwf|].
  intros key o Hk.
  destruct (run_registry_ok es world0 world0_registry_ok) as [R1 _].
  destruct (R1 key o Hk) as (u & Hu & -> & _).
  exists (nick u). split; [eapply Hwf; eauto|reflexivity].
Qed.

(** X15.  Between any two points of a run the table and the streams
    only grow at the end: the rows stored earlier are the first rows
    later, what was sent to a session earlier is the start of what was
    sent to it later, and a stream that was lost or closed earlier got
    nothing since and takes no write later. *)
Theorem table_and_streams_append_only (es1 es2 : list event) :
  let w1 := run world0 es1 in
  let w2 := run w1 es2 in
  (exists rows, messages w2 = messages w1 ++ rows)
  /\ forall o u, heap w1 !! o = Some u ->
       exists u' ds,
         heap w2 !! o = Some u'
         /\ w_sent (writer u') = w_sent (writer u) ++ ds
         /\ (writable u = false -> ds = [] /\ writable u' = false).
Proof.
  intros w1 w2.
  assert (registry_ok w1) as R1 by (apply run_registry_ok, world0_registry_ok).
  destruct (run_ages es2 w1 R1) as (M & A & _).
  split; [exact M|].
  intros o u Hu. destruct (A o u Hu) as (u' & Hu' & Hages).
  pose proof (user_ages_unwritable _ _ Hages) as Hw.
  destruct Hages as (_ & (ds & S & W) & _).
  exists u', ds. repeat split; auto.
Qed.

End RunFacts.

(** ** Rendering and blank lines *)

Lemma expand_plain (c : N) : plain c = true -> expand c = [c].
Proof.
  unfold plain, expand. intros H. apply negb_true_iff in H.
  apply orb_false_iff in H as [H H6]. apply orb_false_iff in H as [H H5].
  apply orb_false_iff in H as [H H4]. apply orb_false_iff in H as [H H3].
  apply orb_false_iff in H as [H1 H2].
  rewrite H1, H2, H3, H4, H5, H6. reflexivity.
Qed.

Lemma expand_length (c : N) : (1 <= length (expand c))%nat.
Proof.
  unfold expand.
  repeat match goal with
         | |- context [if ?b then _ else _] => destruct b
         end; rewrite ?length_app; simpl; lia.
Qed.

Lemma expand_keeps (c : N) : sublist [c] (expand c).
Proof.
  unfold expand.
  repeat match goal with
         | |- context [if ?a =? ?b then _ else _] =>
             let E := fresh "E" in
             destruct (a =? b) eqn:E; [apply N.eqb_eq in E; subst c; vm_compute|]
         end;
    repeat first [apply sublist_nil_l | apply sublist_skip | apply sublist_cons].
Qed.

(** X16.  Rendering never takes a character away: the text is what is
    left of the output when the markers put in are struck out, every
    character kept and in its place among the others.  A text that
    holds none of [<], [>], [[], []] and the two arrows comes out as it
    is, with colors on as with colors off. *)
Theorem apply_color_plain (u : User) (text : str) :
  sublist text (apply_color u text)
  /\ (length text <= length (apply_color u text))%nat
  /\ (forallb plain text = true -> apply_color u text = text).
Proof.
  assert (apply_color u text
          = if colors_enabled u then flat_map expand text else text) as ->.
  { rewrite <- render_seq_color_subs. unfold apply_color.
    destruct (colors_enabled u); reflexivity. }
  destruct (colors_enabled u); [|split; [reflexivity|split; [lia|reflexivity]]].
  assert (sublist text (flat_map expand text)) as Hsub.
  { induction text as [|c text IH]; simpl; [constructor|].
    apply (sublist_app [c] (expand c) text); [apply expand_keeps|exact IH]. }
  split; [exact Hsub|]. split; [apply sublist_length, Hsub|].
  clear Hsub. induction text as [|c text IH]; simpl; [reflexivity|].
  intros H. apply andb_true_iff in H as [Hc Ht].
  rewrite (expand_plain c Hc), (IH Ht). reflexivity.
Qed.

Lemma lstrip_blank (s : str) : forallb isspace s = true -> lstrip s = [].
Proof.
  induction s as [|c s IH]; simpl; [reflexivity|].
  intros H. apply andb_true_iff in H as [-> Hs]. auto.
Qed.

Section BlankFacts.

Context {T : PyText}.

(** X17.  A line made of white space only, the empty line among them,
    is passed over: nothing is sent, stored or changed. *)
Theorem blank_line_ignored (k : Clock) (me : nat) (raw : str) (w : World) :
  forallb isspace raw = true ->
  strip raw = [] /\ handle_line k me raw w = Returned w.
Proof.
  intros H.
  assert (strip raw = []) as E.
  { unfold strip, rstrip. rewrite (lstrip_blank raw H). reflexivity. }
  split; [exact E|]. unfold handle_line. rewrite E.
  destruct (heap w !! me); reflexivity.
Qed.

End BlankFacts.

(** ** The rows of the table *)

Lemma split_sp1_from_cut (cur s a b : str) :
  split_sp1_from cur s = [a; b] ->
  exists pre, a = rev cur ++ pre /\ s = pre ++ SP :: b /\ contains SP pre = false.
Proof.
  revert cur. induction s as [|c s IH]; intros cur; simpl; [discriminate|].
  destruct (c =? SP) eqn:E.
  - intros [= <- <-]. apply N.eqb_eq in E. subst c.
    exists []. rewrite app_nil_r. auto.
  - intros H. destruct (IH _ H) as (pre & -> & -> & Hpre).
    exists (c :: pre). split; [|split].
    + simpl. rewrite <- app_assoc. reflexivity.
    + reflexivity.
    + rewrite contains_cons, N.eqb_sym, E. exact Hpre.
Qed.

Lemma msg_parts_ok (args target msg : str) (c : N) (r : str) :
  args = c :: r -> isspace c = false -> ends_in_word args ->
  split_sp1 args = [target; msg] ->
  target <> [] /\ contains SP target = false /\ ends_in_word msg.
Proof.
  intros Ha Hc Hend Hs. unfold split_sp1 in Hs.
  destruct (split_sp1_from_cut [] args target msg Hs) as (pre & -> & E & Hpre).
  simpl. split; [|split; [exact Hpre|]].
  - intros ->. rewrite Ha in E. simpl in E. injection E as -> _. discriminate.
  - assert (msg <> []) as Hne.
    { intros ->. destruct Hend as (init & x & Ex & Hx). rewrite E in Ex.
      change (pre ++ [SP]) with (pre ++ [SP]) in Ex.
      apply app_inj_tail in Ex as [_ <-]. discriminate. }
    apply (ends_in_word_suffix (pre ++ [SP])); [exact Hne|].
    rewrite <- app_assoc. simpl. rewrite <- E. exact Hend.
Qed.

Section RowFacts.

Context {T : PyText}.

Lemma parse_command_args (line cmd args : str) :
  startswith_slash line = true -> parse_command line = Some (cmd, args) ->
  args = [] \/ (ends_in_word args /\ exists c r, args = c :: r /\ isspace c = false).
Proof.
  intros Hslash. destruct line as [|c0 r0]; [discriminate|]. simpl in Hslash.
  apply N.eqb_eq in Hslash. subst c0.
  destruct (strip_keeps_head SLASH r0 eq_refl) as (r' & Hr').
  destruct (split_max1_head SLASH r' eq_refl) as (p & rest & Hp).
  assert (ends_in_word (SLASH :: r')) as Hend
    by (rewrite <- Hr'; apply strip_ends_in_word; rewrite Hr'; discriminate).
  unfold parse_command. rewrite Hr', Hp. intros [= _ <-].
  destruct rest as [|a rest']; [left; reflexivity|]. right.
  destruct (split_max1_args _ a _ rest' Hend Hp) as (Ha & c & r & -> & Hc).
  eauto.
Qed.

Lemma logged_frame (w w' : World) : same_but_sent w w' -> logged w w'.
Proof. intros (_ & M & _). left. exact M. Qed.

Lemma logged_frame_after (w w1 w' : World) :
  messages w1 = messages w -> same_but_sent w1 w' -> logged w w'.
Proof. intros M1 (_ & M & _). left. congruence. Qed.

Lemma cmd_msg_logged (k : Clock) (me : nat) (u : User) (args : str) (w : World) :
  nick_wf (nick u) ->
  args = [] \/ (ends_in_word args /\ exists c r, args = c :: r /\ isspace c = false) ->
  logged w (world_of (cmd_msg k me u args w)).
Proof.
  intros Hwf Hargs. unfold cmd_msg.
  destruct Hargs as [->|(Hend & c & r & Ha & Hc)];
    [apply logged_frame, send_msg_frame|].
  destruct args as [|a args'] eqn:Eargs; [discriminate|]. rewrite <- Eargs in *.
  destruct (negb (contains SP args)); [apply logged_frame, send_msg_frame|].
  destruct (split_sp1 args) as [|target [|msg [|x y]]] eqn:Hs;
    try (left; reflexivity).
  destruct (str_eqb (lower target) (lower (nick u)));
    [apply logged_frame, send_msg_frame|].
  destruct (negb (bool_decide (is_Some (users w !! lower target))));
    [apply logged_frame, send_msg_frame|].
  match goal with
  | |- context [send_to ?n ?m ?x] =>
      pose proof (send_to_frame n m x) as F; destruct (send_to n m x) as [v w2]
  end.
  cbn [world_of snd] in *. right.
  destruct F as (_ & M2 & _).
  match type of M2 with
  | messages w2 = messages (send_msg me ?t w) =>
      pose proof (send_msg_frame me t w) as (_ & M1 & _)
  end.
  eexists. split; [unfold insert_row; cbn [messages]; rewrite M2, M1; reflexivity|].
  rewrite Eargs in Ha.
  destruct (msg_parts_ok args target msg c r ltac:(congruence) Hc Hend Hs)
    as (H1 & H2 & H3).
  split; [exact Hwf|]. split; [exact H3|]. simpl. auto.
Qed.

Lemma handle_command_logged (k : Clock) (me : nat) (u : User) (line : str)
    (w : World) :
  heap w !! me = Some u -> nick_wf (nick u) -> startswith_slash line = true ->
  logged w (world_of (handle_command k me line w)).
Proof.
  intros Hme Hwf Hslash. unfold handle_command. rewrite Hme.
  destruct (parse_command line) as [[cmd args]|] eqn:Hp; [|left; reflexivity].
  pose proof (parse_command_args line cmd args Hslash Hp) as Hargs.
  destruct (str_eqb cmd (lit "help")); [apply logged_frame, send_lines_frame|].
  destruct (str_eqb cmd (lit "nick")).
  { unfold cmd_nick. destruct args as [|a args'];
      [apply logged_frame, send_msg_frame|].
    generalize (a :: args'). intros args0.
    destruct (split args0) as [|tok rest]; [left; reflexivity|].
    destruct (nick_refused (take 24 tok)); [apply logged_frame, send_msg_frame|].
    destruct (nick_in_use w u (lower (take 24 tok)));
      [apply logged_frame, send_msg_frame|].
    cbn [world_of].
    eapply logged_frame_after;
      [|eapply same_but_sent_trans; [apply broadcast_frame|apply send_msg_frame]].
    reflexivity. }
  destruct (str_eqb cmd (lit "msg") || str_eqb cmd (lit "dm"));
    [apply cmd_msg_logged; assumption|].
  destruct (str_eqb cmd (lit "history")).
  { unfold cmd_history. destruct (contains SP args);
      [|apply logged_frame, history_public_frame].
    destruct (split args) as [|first [|second rest]]; try (left; reflexivity).
    destruct (str_eqb (lower second) (lit "dm"));
      [apply logged_frame, history_dm_frame|apply logged_frame, history_public_frame]. }
  destruct (str_eqb cmd (lit "color")); [|left; reflexivity].
  unfold cmd_color.
  destruct (str_eqb (lower args) (lit "on")); cbn [world_of];
    [eapply logged_frame_after; [|apply send_msg_frame]; reflexivity|].
  destruct (str_eqb (lower args) (lit "off")); cbn [world_of];
    [eapply logged_frame_after; [|apply send_msg_frame]; reflexivity|].
  apply logged_frame, send_msg_frame.
Qed.

Lemma handle_line_logged (k : Clock) (me : nat) (u : User) (raw : str) (w : World) :
  heap w !! me = Some u -> nick_wf (nick u) ->
  logged w (world_of (handle_line k me raw w)).
Proof.
  intros Hme Hwf. unfold handle_line. rewrite Hme.
  pose proof (strip_ends_in_word raw) as Hend.
  destruct (strip raw) as [|c line'] eqn:E; [left; reflexivity|].
  specialize (Hend ltac:(discriminate)). revert Hend.
  generalize (c :: line'). intros line Hend.
  destruct (startswith_slash line) eqn:Hs;
    [apply handle_command_logged with u; assumption|].
  destruct (400 <? length line)%nat eqn:Hlen; cbn [world_of];
    [apply logged_frame, send_msg_frame|].
  right. eexists. split.
  - unfold insert_row. cbn [messages].
    match goal with
    | |- context [broadcast ?m ?s w] =>
        pose proof (broadcast_frame m s w) as (_ & -> & _)
    end.
    reflexivity.
  - split; [exact Hwf|]. split; [exact Hend|]. simpl.
    apply Nat.ltb_ge in Hlen. exact Hlen.
Qed.

Lemma connect_messages (w : World) : messages (connect w) = messages w.
Proof.
  rewrite connect_unfold.
  match goal with
  | |- messages (broadcast ?m ?s (send_lines ?o ?ls ?w2)) = _ =>
      pose proof (broadcast_frame m s (send_lines o ls w2)) as (_ & -> & _);
      pose proof (send_lines_frame o ls w2) as (_ & -> & _)
  end.
  reflexivity.
Qed.

Lemma disconnect_messages (me : nat) (w : World) :
  messages (disconnect me w) = messages w.
Proof.
  unfold disconnect. destruct (heap w !! me) as [u|]; [|reflexivity].
  cbn [set_heap messages].
  match goal with
  | |- messages (broadcast ?m ?s ?w1) = _ =>
      pose proof (broadcast_frame m s w1) as (_ & -> & _)
  end.
  destruct (bool_decide _); reflexivity.
Qed.

Lemma run_nicks (es : list event) (o : nat) (u : User) :
  heap (run world0 es) !! o = Some u -> nick_wf (nick u).
Proof.
  intros Hu.
  destruct (run_ages es world0 world0_registry_ok) as (_ & _ & B).
  destruct (B o u Hu) as [H|(u0 & H0 & _)]; [exact H|].
  simpl in H0. rewrite lookup_empty in H0. discriminate.
Qed.

Lemma run_snoc (w : World) (es : list event) (e : event) :
  run w (es ++ [e]) = step (run w es) e.
Proof. unfold run. rewrite foldl_app. reflexivity. Qed.

Lemma step_logged (es : list event) (e : event) :
  logged (run world0 es) (step (run world0 es) e).
Proof.
  set (w := run world0 es).
  destruct e as [|me k raw|me|me]; cbn [step].
  - left. apply connect_messages.
  - destruct (connectedb w me) eqn:Hc; [|left; reflexivity].
    destruct (connectedb_open _ _ Hc) as (u & Hme & _).
    pose proof (handle_line_logged k me u raw w Hme (run_nicks es me u Hme)) as L.
    destruct (handle_line_returns k me raw w) as [w' Hr].
    rewrite Hr in *. exact L.
  - destruct (connectedb w me); left; [apply disconnect_messages|reflexivity].
  - left. reflexivity.
Qed.

(** X18.  Every event stores at most one row.  Every row ever stored
    names a writer with a well-formed nick and holds a text that is not
    empty and does not end in white space; a public row has at most 400
    characters; the recipient of a private row is not empty and holds
    no space. *)
Theorem table_rows_wellformed (es : list event) :
  Forall row_ok (messages (run world0 es))
  /\ forall e, logged (run world0 es) (step (run world0 es) e).
Proof.
  split; [|intros e; apply step_logged].
  induction es as [|e es IH] using rev_ind; [constructor|].
  rewrite run_snoc.
  destruct (step_logged es e) as [->|(r & -> & Hr)]; [exact IH|].
  apply Forall_app. split; [exact IH|]. constructor; [exact Hr|constructor].
Qed.

End RowFacts.

(** ** The further properties on the sample runs *)

Lemma msg_offline_reported_carol :
  let w := after_polite_run in
  let line := lit "/msg carol are you there" in
  msg_request (T := ascii_text) line = Some (lit "carol", lit "are you there")
  /\ users w !! lit "carol" = None
  /\ exists w',
       handle_command (T := ascii_text) noon 0 line w = Returned w'
       /\ messages w' = messages w
       /\ sent_to w' 0 = sent_to w 0 ++ [lit ":carol is not online" ++ CRLF].
Proof.
  intros w line.
  split; [vm_compute; reflexivity|]. split; [vm_compute; reflexivity|].
  destruct (heap w !! 0%nat) as [u|] eqn:Hu; [|vm_compute in Hu; discriminate].
  assert (nick u = lit "alice") as Hn
    by (vm_compute in Hu; injection Hu as <-; reflexivity).
  destruct (msg_offline_reported (T := ascii_text) noon 0 u line
              (lit "carol") (lit "are you there") w Hu
              ltac:(vm_compute; reflexivity)
              ltac:(rewrite Hn; vm_compute; discriminate)
              ltac:(vm_compute; reflexivity))
    as (w' & Hr & _ & Hm & Hme & _).
  exists w'. split; [exact Hr|]. split; [exact Hm|].
  unfold sent_to. rewrite Hme, Hu.
  vm_compute in Hu. injection Hu as <-. reflexivity.
Defined.

Lemma msg_self_refused_alice :
  let w := after_polite_run in
  let line := lit "/dm ALICE note to self" in
  msg_request (T := ascii_text) line = Some (lit "ALICE", lit "note to self")
  /\ exists w',
       handle_command (T := ascii_text) noon 0 line w = Returned w'
       /\ messages w' = messages w
       /\ sent_to w' 0 = sent_to w 0 ++ [lit ":Can't message yourself" ++ CRLF].
Proof.
  intros w line. split; [vm_compute; reflexivity|].
  destruct (heap w !! 0%nat) as [u|] eqn:Hu; [|vm_compute in Hu; discriminate].
  assert (nick u = lit "alice") as Hn
    by (vm_compute in Hu; injection Hu as <-; reflexivity).
  destruct (msg_self_refused (T := ascii_text) noon 0 u line
              (lit "ALICE") (lit "note to self") w Hu
              ltac:(vm_compute; reflexivity)
              ltac:(rewrite Hn; vm_compute; reflexivity))
    as (w' & Hr & _ & Hm & Hme & _).
  exists w'. split; [exact Hr|]. split; [exact Hm|].
  unfold sent_to. rewrite Hme, Hu.
  vm_compute in Hu. injection Hu as <-. reflexivity.
Defined.

Lemma msg_delivered_to_alice :
  let w := after_seven_lines in
  let line := lit "/dm ALICE hello  there" in
  registry_ok (T := ascii_text) w
  /\ msg_request (T := ascii_text) line = Some (lit "ALICE", lit "hello  there")
  /\ users w !! lit "alice" = Some 0%nat
  /\ exists w',
       handle_command (T := ascii_text) noon 1 line w = Returned w'
       /\ messages w'
          = messages w ++ [mkRow (lit "bob") (Some (lit "ALICE")) (lit "hello  there")
                             (current_timestamp noon)]
       /\ sent_to w' 1
          = sent_to w 1 ++ [lit ":[12:00] " ++ [ARROW_R] ++ lit " ALICE hello  there"
                            ++ CRLF]
       /\ sent_to w' 0
          = sent_to w 0 ++ [lit "[12:00] " ++ [ARROW_L] ++ lit " bob hello  there"
                            ++ CRLF].
Proof.
  intros w line.
  assert (registry_ok (T := ascii_text) w) as R
    by (apply run_registry_ok, world0_registry_ok).
  split; [exact R|]. split; [vm_compute; reflexivity|].
  split; [vm_compute; reflexivity|].
  destruct (heap w !! 1%nat) as [u|] eqn:Hu; [|vm_compute in Hu; discriminate].
  assert (nick u = lit "bob") as Hn
    by (vm_compute in Hu; injection Hu as <-; reflexivity).
  destruct (msg_delivered (T := ascii_text) noon 1 0 u line
              (lit "ALICE") (lit "hello  there") w R Hu
              ltac:(vm_compute; reflexivity)
              ltac:(rewrite Hn; vm_compute; discriminate)
              ltac:(vm_compute; reflexivity))
    as (w' & uo & Hr & _ & Huo & _ & Hm & Hme & Ho & _).
  exists w'. split; [exact Hr|]. split; [rewrite Hm, Hn; reflexivity|]. split.
  - unfold sent_to. rewrite Hme, Hu.
    vm_compute in Hu. injection Hu as <-. reflexivity.
  - unfold sent_to. rewrite Ho, Huo, Hn.
    vm_compute in Huo. injection Huo as <-. reflexivity.
Defined.

Lemma color_toggle_on :
  let w := after_polite_run in
  let line := lit "/color ON" in
  parse_command (T := ascii_text) line = Some (lit "color", lit "ON")
  /\ exists w' u',
       handle_command (T := ascii_text) noon 0 line w = Returned w'
       /\ heap w' !! 0%nat = Some u'
       /\ colors_enabled u' = true
       /\ apply_color u' (lit "<x>") = render_seq color_subs (lit "<x>")
       /\ users w' = users w.
Proof.
  intros w line. split; [vm_compute; reflexivity|].
  destruct (heap w !! 0%nat) as [u|] eqn:Hu; [|vm_compute in Hu; discriminate].
  destruct (color_toggle (T := ascii_text) noon 0 u line (lit "ON") w Hu
              ltac:(vm_compute; reflexivity))
    as (w' & u' & text & Hr & Hus & _ & Hme & _ & _ & _ & Hon & _).
  destruct (Hon ltac:(vm_compute; reflexivity)) as [Hc Hren].
  exists w', (push [reply text] u'). split; [exact Hr|]. split; [exact Hme|].
  split; [|split; [apply Hren|exact Hus]].
  destruct (push_fields [reply text] u') as (_ & -> & _). exact Hc.
Defined.

Lemma history_public_last_five :
  let w := after_seven_lines in
  let line := lit "/history 5" in
  parse_command (T := ascii_text) line = Some (lit "history", lit "5")
  /\ history_limit (T := ascii_text) (lit "5") = Z.of_nat 5
  /\ length (List.filter is_public (messages w)) = 7%nat
  /\ exists w',
       handle_command (T := ascii_text) noon 1 line w = Returned w'
       /\ sent_to w' 1
          = sent_to w 1
            ++ (lit ":Recent public messages (5):" ++ CRLF)
               :: map (fun m => lit ":[12:00] <alice> " ++ m ++ CRLF)
                    [lit "three"; lit "four"; lit "five"; lit "six"; lit "seven"].
Proof.
  intros w line.
  split; [vm_compute; reflexivity|]. split; [vm_compute; reflexivity|].
  split; [vm_compute; reflexivity|].
  destruct (heap w !! 1%nat) as [u|] eqn:Hu; [|vm_compute in Hu; discriminate].
  destruct (history_public_lists_last (T := ascii_text) noon 1 u line (lit "5") 5 w Hu
              ltac:(vm_compute; reflexivity) ltac:(vm_compute; reflexivity)
              ltac:(vm_compute; reflexivity))
    as (w' & Hr & _ & _ & Hme & _).
  exists w'. split; [exact Hr|].
  unfold sent_to. rewrite Hme, Hu.
  vm_compute in Hu. injection Hu as <-. vm_compute. reflexivity.
Defined.

Lemma history_dm_lists_own_public :
  let w := after_seven_lines in
  let line := lit "/history 3 dm" in
  parse_command (T := ascii_text) line = Some (lit "history", lit "3 dm")
  /\ split (lit "3 dm") = [lit "3"; lit "dm"]
  /\ history_limit (T := ascii_text) (lit "3 dm") = Z.of_nat 10
  /\ exists w',
       handle_command (T := ascii_text) noon 0 line w = Returned w'
       /\ sent_to w' 0
          = sent_to w 0
            ++ (lit ":Recent private messages (8):" ++ CRLF)
               :: map (fun m => lit ":[12:00] " ++ [ARROW_R] ++ lit " " ++ m ++ CRLF)
                    [lit "None one"; lit "None two"; lit "None three";
                     lit "None four"; lit "None five"; lit "None six";
                     lit "None seven"; lit "bob psst"].
Proof.
  intros w line.
  split; [vm_compute; reflexivity|]. split; [vm_compute; reflexivity|].
  split; [vm_compute; reflexivity|].
  destruct (heap w !! 0%nat) as [u|] eqn:Hu; [|vm_compute in Hu; discriminate].
  destruct (history_dm_lists_last (T := ascii_text) noon 0 u line (lit "3 dm")
              (lit "3") (lit "dm") [] 10 w Hu
              ltac:(vm_compute; reflexivity) ltac:(vm_compute; reflexivity)
              ltac:(vm_compute; reflexivity) ltac:(vm_compute; reflexivity)
              ltac:(vm_compute; reflexivity))
    as (w' & Hr & _ & _ & Hme & _).
  exists w'. split; [exact Hr|].
  unfold sent_to. rewrite Hme, Hu.
  vm_compute in Hu. injection Hu as <-. vm_compute. reflexivity.
Defined.

Lemma broadcast_unskipped_empty_skip :
  let w := after_polite_run in
  let w' := broadcast (T := ascii_text) (lit "* notice") (Some []) w in
  registry_ok (T := ascii_text) w
  /\ sent_to w' 0 = sent_to w 0 ++ [lit "* notice" ++ CRLF]
  /\ sent_to w' 2 = sent_to w 2 ++ [lit "* notice" ++ CRLF]
  /\ sent_to w' 1 = sent_to w 1.
Proof.
  intros w w'.
  assert (registry_ok (T := ascii_text) w) as R
    by (apply run_registry_ok, world0_registry_ok).
  split; [exact R|].
  destruct (broadcast_unskipped (T := ascii_text) (lit "* notice") (Some []) w R
              ltac:(right; reflexivity)) as (_ & _ & Hall & _).
  fold w' in Hall.
  split; [|split].
  - destruct (heap w !! 0%nat) as [u|] eqn:Hu; [|vm_compute in Hu; discriminate].
    unfold sent_to.
    rewrite (Hall (lit "alice") 0%nat u ltac:(vm_compute; reflexivity) Hu), Hu.
    vm_compute in Hu. injection Hu as <-. reflexivity.
  - destruct (heap w !! 2%nat) as [u|] eqn:Hu; [|vm_compute in Hu; discriminate].
    unfold sent_to.
    rewrite (Hall (lit "guest") 2%nat u ltac:(vm_compute; reflexivity) Hu), Hu.
    vm_compute in Hu. injection Hu as <-. reflexivity.
  - destruct (heap w !! 1%nat) as [u|] eqn:Hu; [|vm_compute in Hu; discriminate].
    unfold sent_to.
    rewrite (Hall (lit "bob") 1%nat u ltac:(vm_compute; reflexivity) Hu), Hu.
    vm_compute in Hu. injection Hu as <-. reflexivity.
Defined.

Lemma accept_greets_fourth :
  let w := after_polite_run in
  let w' := step (T := ascii_text) w Accept in
  registry_ok (T := ascii_text) w
  /\ next_obj w = 3%nat
  /\ users w !! lit "guest" = Some 2%nat
  /\ users w' !! lit "guest" = Some 3%nat
  /\ sent_to w' 3 = map reply greeting ++ [join_notice ++ CRLF]
  /\ unlisted w' 2 /\ sent_to w' 2 = sent_to w 2.
Proof.
  intros w w'.
  assert (registry_ok (T := ascii_text) w) as R
    by (apply run_registry_ok, world0_registry_ok).
  split; [exact R|]. split; [vm_compute; reflexivity|].
  split; [vm_compute; reflexivity|].
  destruct (accept_greets (T := ascii_text) w R) as (Hus & _ & Hme & _ & _ & Hold).
  fold w' in Hus, Hme, Hold.
  assert (next_obj w = 3%nat) as E3 by (vm_compute; reflexivity).
  rewrite E3 in Hus, Hme.
  split; [rewrite Hus; apply lookup_insert_eq|].
  split; [unfold sent_to; rewrite Hme; reflexivity|].
  destruct (Hold 2%nat ltac:(vm_compute; reflexivity)) as [Hun Hsame].
  split; [exact Hun|]. unfold sent_to. rewrite Hsame. reflexivity.
Defined.

Lemma eof_unregisters_alice :
  let w := after_polite_run in
  let w' := step (T := ascii_text) w (Eof 0) in
  registry_ok (T := ascii_text) w
  /\ users w !! lit "alice" = Some 0%nat
  /\ connectedb w 0 = true
  /\ connectedb w' 0 = false
  /\ unlisted w' 0
  /\ users w' !! lit "guest" = Some 2%nat
  /\ sent_to w' 0 = sent_to w 0
  /\ sent_to w' 2 = sent_to w 2 ++ [lit "* alice has left" ++ CRLF].
Proof.
  intros w w'.
  assert (registry_ok (T := ascii_text) w) as R
    by (apply run_registry_ok, world0_registry_ok).
  split; [exact R|]. split; [vm_compute; reflexivity|].
  split; [vm_compute; reflexivity|].
  destruct (heap w !! 0%nat) as [u|] eqn:Hu; [|vm_compute in Hu; discriminate].
  assert (nick u = lit "alice" /\ w_closed (writer u) = false) as [Hn Hc]
    by (vm_compute in Hu; injection Hu as <-; split; reflexivity).
  destruct (eof_unregisters (T := ascii_text) 0 u w R Hu Hc
              ltac:(rewrite Hn; vm_compute; reflexivity))
    as (_ & _ & Hme & Hcon & Hun & Hoth).
  fold w' in Hme, Hcon, Hun, Hoth.
  split; [exact Hcon|]. split; [exact Hun|].
  destruct (heap w !! 2%nat) as [u2|] eqn:Hu2; [|vm_compute in Hu2; discriminate].
  destruct (Hoth (lit "guest") 2%nat u2 ltac:(vm_compute; reflexivity) ltac:(lia) Hu2)
    as [Hk2 Hh2].
  split; [exact Hk2|]. split.
  - unfold sent_to. rewrite Hme, Hu. reflexivity.
  - unfold sent_to. rewrite Hh2, Hu2, Hn.
    vm_compute in Hu2. injection Hu2 as <-. reflexivity.
Defined.

Lemma rename_announced_carol :
  let w := after_polite_run in
  let line := lit "/nick carol" in
  registry_ok (T := ascii_text) w
  /\ nick_token (T := ascii_text) line = Some (lit "carol")
  /\ exists w',
       handle_command (T := ascii_text) noon 2 line w = Returned w'
       /\ users w' !! lit "carol" = Some 2%nat
       /\ users w' !! lit "guest" = None
       /\ sent_to w' 2
          = sent_to w 2 ++ [lit "* Guest is now known as carol" ++ CRLF;
                            lit ":You are now carol" ++ CRLF]
       /\ sent_to w' 0
          = sent_to w 0 ++ [lit "* Guest is now known as carol" ++ CRLF].
Proof.
  intros w line.
  assert (registry_ok (T := ascii_text) w) as R
    by (apply run_registry_ok, world0_registry_ok).
  split; [exact R|]. split; [vm_compute; reflexivity|].
  destruct (heap w !! 2%nat) as [u|] eqn:Hu; [|vm_compute in Hu; discriminate].
  assert (nick u = lit "Guest" /\ w_closed (writer u) = false) as [Hn Hc]
    by (vm_compute in Hu; injection Hu as <-; split; reflexivity).
  assert (nick_in_use (T := ascii_text) w u
            (lower (PyText := ascii_text) (take 24 (lit "carol"))) = false) as Hfree
    by (unfold nick_in_use; rewrite Hn; vm_compute; reflexivity).
  destruct (rename_announced (T := ascii_text) noon 2 u line (lit "carol") w R Hu Hc
              ltac:(vm_compute; reflexivity) ltac:(vm_compute; reflexivity) Hfree)
    as (w' & Hr & Hus & _ & Hme & Hoth).
  exists w'. split; [exact Hr|].
  rewrite Hn in Hus, Hme, Hoth.
  split; [rewrite Hus; apply lookup_insert_eq|].
  split.
  { rewrite Hus, lookup_insert_ne by (vm_compute; discriminate).
    apply lookup_delete_eq. }
  split.
  - unfold sent_to. rewrite Hme, Hu.
    vm_compute in Hu. injection Hu as <-. reflexivity.
  - destruct (heap w !! 0%nat) as [u0|] eqn:Hu0; [|vm_compute in Hu0; discriminate].
    destruct (Hoth (lit "alice") 0%nat u0 ltac:(vm_compute; reflexivity) ltac:(lia)
                ltac:(vm_compute; discriminate) Hu0) as [_ Hh0].
    unfold sent_to. rewrite Hh0, Hu0.
    vm_compute in Hu0. injection Hu0 as <-. reflexivity.
Defined.

Lemma recase_keeps_registry_alice :
  let w := after_polite_run in
  let line := lit "/nick ALICE" in
  users w !! lit "alice" = Some 0%nat
  /\ nick_token (T := ascii_text) line = Some (lit "ALICE")
  /\ exists w',
       handle_command (T := ascii_text) noon 0 line w = Returned w'
       /\ users w' = users w
       /\ nick_of w' 0 = Some (lit "ALICE").
Proof.
  intros w line. split; [vm_compute; reflexivity|]. split; [vm_compute; reflexivity|].
  destruct (heap w !! 0%nat) as [u|] eqn:Hu; [|vm_compute in Hu; discriminate].
  assert (nick u = lit "alice") as Hn
    by (vm_compute in Hu; injection Hu as <-; reflexivity).
  destruct (recase_keeps_registry (T := ascii_text) noon 0 u line (lit "ALICE") w Hu
              ltac:(rewrite Hn; vm_compute; reflexivity)
              ltac:(vm_compute; reflexivity) ltac:(vm_compute; reflexivity)
              ltac:(rewrite Hn; vm_compute; reflexivity))
    as (w' & Hr & Hus & _ & Hnick & _).
  exists w'. repeat split; auto.
Defined.

Lemma chat_not_echoed_alice :
  let w := after_polite_run in
  let raw := lit "  good [morning]  " in
  registry_ok (T := ascii_text) w
  /\ strip raw = lit "good [morning]"
  /\ exists w',
       handle_line (T := ascii_text) noon 0 raw w = Returned w'
       /\ sent_to w' 0 = sent_to w 0
       /\ sent_to w' 2
          = sent_to w 2 ++ [lit "[12:00] <alice> good [morning]" ++ CRLF].
Proof.
  intros w raw.
  assert (registry_ok (T := ascii_text) w) as R
    by (apply run_registry_ok, world0_registry_ok).
  split; [exact R|].
  assert (strip raw = lit "good [morning]") as Es by (vm_compute; reflexivity).
  split; [exact Es|].
  destruct (heap w !! 0%nat) as [u|] eqn:Hu; [|vm_compute in Hu; discriminate].
  assert (nick u = lit "alice") as Hn
    by (vm_compute in Hu; injection Hu as <-; reflexivity).
  destruct (chat_not_echoed (T := ascii_text) noon 0 u raw w R Hu
              ltac:(rewrite Hn; vm_compute; reflexivity)
              ltac:(rewrite Hn; discriminate)
              ltac:(rewrite Es; discriminate)
              ltac:(rewrite Es; reflexivity)
              ltac:(rewrite Es; vm_compute; lia))
    as (w' & Hr & Hme & _ & _ & Hoth).
  exists w'. split; [exact Hr|]. split.
  - unfold sent_to. rewrite Hme, Hu. reflexivity.
  - destruct (heap w !! 2%nat) as [u2|] eqn:Hu2; [|vm_compute in Hu2; discriminate].
    unfold sent_to.
    rewrite (Hoth (lit "guest") 2%nat u2 ltac:(vm_compute; reflexivity) ltac:(lia) Hu2).
    rewrite Hu2, Hn, Es.
    vm_compute in Hu2. injection Hu2 as <-. reflexivity.
Defined.

Lemma blank_line_ignored_tabs :
  let raw := [32; 9; 32; 160] in
  forallb isspace raw = true
  /\ handle_line (T := ascii_text) noon 0 raw after_polite_run = Returned after_polite_run.
Proof.
  intros raw. split; [reflexivity|].
  apply (blank_line_ignored (T := ascii_text)). reflexivity.
Defined.

(** * The variant server of [ssh_server.py] *)

(** ** Exceptions out of the command interpreter *)

Lemma split_word_first (c : N) (r : str) :
  isspace c = false -> exists tok rest, split (c :: r) = tok :: rest.
Proof.
  intros Hc. pose proof (split_from_word [c] r ltac:(discriminate)) as Hs.
  unfold split. simpl. rewrite Hc.
  destruct (split_from [c] r) as [|tok tl]; [contradiction|]. eauto.
Qed.

Section SshExceptions.

Context {T : PyText}.

Lemma parse_command_some (line : str) :
  startswith_slash line = true ->
  exists cmd args, parse_command line = Some (cmd, args).
Proof.
  intros Hslash. destruct line as [|c0 r0]; [discriminate|]. simpl in Hslash.
  apply N.eqb_eq in Hslash. subst c0.
  destruct (strip_keeps_head SLASH r0 eq_refl) as (r' & Hr').
  destruct (split_max1_head SLASH r' eq_refl) as (p & rest & Hp).
  unfold parse_command. rewrite Hr', Hp. eauto.
Qed.

Lemma ssh_cmd_nick_returns (me : nat) (u : User) (args : str) (w : World) :
  args = [] \/ (exists c r, args = c :: r /\ isspace c = false) ->
  exists w', Ssh.cmd_nick me u args w = Returned w'.
Proof.
  unfold Ssh.cmd_nick. intros [->|(c & r & -> & Hc)]; [eauto|].
  destruct (split_word_first c r Hc) as (tok & rest & ->).
  destruct (nick_in_use w u (lower (take 24 tok))); eauto.
Qed.

Lemma ssh_cmd_msg_returns (k : Clock) (me : nat) (u : User) (args : str) (w : World) :
  exists w', Ssh.cmd_msg k me u args w = Returned w'.
Proof.
  unfold Ssh.cmd_msg. destruct (contains SP args) eqn:Hsp; cbn [negb]; [|eauto].
  destruct (split_sp1_from_two [] args Hsp) as (a & b & Hs).
  unfold split_sp1. rewrite Hs.
  destruct (negb (bool_decide (is_Some (users w !! lower a)))); [eauto|].
  destruct (send_to _ _ _). eauto.
Qed.

(** [/history] reads no limit exactly when [int] refuses the digits. *)
Lemma ssh_history_limit_refused (args : str) :
  Ssh.digits_refused args = true <-> Ssh.history_limit args = None.
Proof.
  unfold Ssh.digits_refused, Ssh.history_limit.
  destruct (isdigit args); cbn [andb].
  - destruct (int_of_str args) as [n|].
    + rewrite bool_decide_eq_true_2 by eauto. split; discriminate.
    + rewrite bool_decide_eq_false_2 by (intros [x Hx]; discriminate).
      split; reflexivity.
  - destruct (is_prefix (lit "dm") (lower (strip args))); split; discriminate.
Qed.

Lemma ssh_fetch_desc_cases (p : Row -> bool) (limit : Z) (tbl : list Row) :
  Ssh.fetch_desc p limit tbl
  = if fits_int64 limit then Some (select_desc p limit tbl) else None.
Proof. reflexivity. Qed.

Lemma ssh_cmd_history_cases (me : nat) (u : User) (args : str) (w : World) :
  if Ssh.digits_refused args || Ssh.limit_overflows args
  then Ssh.cmd_history me u args w = Raised w
  else exists w', Ssh.cmd_history me u args w = Returned w'.
Proof.
  pose proof (ssh_history_limit_refused args) as Href.
  unfold Ssh.cmd_history, Ssh.limit_overflows.
  destruct (Ssh.history_limit args) as [limit|].
  - destruct (Ssh.digits_refused args); [destruct Href as [Href _]|].
    { discriminate (Href eq_refl). }
    cbn [orb]. unfold Ssh.history_dm, Ssh.history_public.
    rewrite !ssh_fetch_desc_cases.
    destruct (fits_int64 limit); cbn [negb];
      destruct (Ssh.is_infix (lit "dm") (lower args)); eauto.
  - destruct Href as [_ Href]. rewrite (Href eq_refl). reflexivity.
Qed.

Lemma ssh_cmd_color_returns (me : nat) (u : User) (args : str) (w : World) :
  exists w', Ssh.cmd_color me u args w = Returned w'.
Proof.
  unfold Ssh.cmd_color.
  destruct (Ssh.one_of _ _); [eauto|]. destruct (Ssh.one_of _ _); eauto.
Qed.

Lemma ssh_cmd_ssh_cases (e : Ssh.Env) (me : nat) (u : User) (args : str) (w : World) :
  args = [] \/ ends_in_word args ->
  if str_eqb args [Ssh.AT]
  then Ssh.cmd_ssh e me u args w = Raised w
  else exists w', Ssh.cmd_ssh e me u args w = Returned w'.
Proof.
  intros Hargs. unfold str_eqb. case_bool_decide as Hat.
  - subst args. reflexivity.
  - unfold Ssh.cmd_ssh. destruct (is_prefix [Ssh.AT] args) eqn:Hp; cbn [negb]; [|eauto].
    destruct args as [|a rest]; [discriminate|].
    cbn [is_prefix] in Hp. rewrite andb_true_r in Hp. apply N.eqb_eq in Hp.
    subst a. change (drop 1 (Ssh.AT :: rest)) with rest. destruct rest as [|c rest']; [congruence|].
    destruct Hargs as [Hargs|Hend]; [discriminate|].
    assert (ends_in_word (c :: rest')) as Hend'
      by (apply (ends_in_word_suffix [Ssh.AT]); [discriminate|exact Hend]).
    pose proof (split_from_ends_in_word [] (c :: rest') Hend') as Hs.
    unfold split. destruct (split_from [] (c :: rest')) as [|tok tl]; [contradiction|].
    destruct (str_eqb (lower (strip tok)) (lower (nick u))); [eauto|].
    destruct (users w !! lower (strip tok)); eauto.
Qed.

Lemma ssh_cmd_sshyes_cases (e : Ssh.Env) (me : nat) (u : User) (args : str)
    (w : World) :
  if Ssh.digits_refused args
  then Ssh.cmd_sshyes e me u args w = Raised w
  else exists w', Ssh.cmd_sshyes e me u args w = Returned w'.
Proof.
  unfold Ssh.cmd_sshyes, Ssh.digits_refused.
  destruct (isdigit args); cbn [andb negb]; [|eauto].
  destruct (int_of_str args) as [port|].
  - rewrite bool_decide_eq_true_2 by eauto. cbn [negb].
    destruct (negb _); eauto.
  - rewrite bool_decide_eq_false_2 by (intros [x Hx]; discriminate).
    reflexivity.
Qed.

Lemma ssh_handle_command_dispatch (e : Ssh.Env) (me : nat) (u : User) (line : str)
    (w : World) :
  heap w !! me = Some u -> startswith_slash line = true ->
  if Ssh.unhandled line
  then Ssh.handle_command e me line w = Raised w
  else exists w', Ssh.handle_command e me line w = Returned w'.
Proof.
  intros Hme Hslash. unfold Ssh.handle_command, Ssh.unhandled. rewrite Hme.
  destruct (parse_command_some line Hslash) as (cmd & args & Hp).
  pose proof (parse_command_args line cmd args Hslash Hp) as Hargs.
  rewrite Hp.
  destruct (str_eqb cmd (lit "help")) eqn:E1; [verb_case E1; eauto|].
  destruct (str_eqb cmd (lit "nick")) eqn:E2.
  { verb_case E2. apply ssh_cmd_nick_returns.
    destruct Hargs as [->|(_ & c & r & -> & Hc)]; eauto. }
  destruct (str_eqb cmd (lit "msg")) eqn:E3;
    [verb_case E3; apply ssh_cmd_msg_returns|].
  destruct (str_eqb cmd (lit "dm")) eqn:E4;
    [verb_case E4; apply ssh_cmd_msg_returns|].
  cbn [orb].
  destruct (str_eqb cmd (lit "history")) eqn:E5;
    [verb_case E5; apply ssh_cmd_history_cases|].
  destruct (str_eqb cmd (lit "color")) eqn:E6;
    [verb_case E6; apply ssh_cmd_color_returns|].
  destruct (str_eqb cmd (lit "ssh")) eqn:E7.
  { verb_case E7. rewrite !orb_false_r. apply ssh_cmd_ssh_cases.
    destruct Hargs as [->|[Hend _]]; auto. }
  destruct (str_eqb cmd (lit "sshyes")) eqn:E8;
    [cbn [andb orb]; rewrite orb_false_r; apply ssh_cmd_sshyes_cases|].
  cbn [andb orb]. eauto.
Qed.

Lemma ssh_unhandled_raises (e : Ssh.Env) (me : nat) (u : User) (line : str)
    (w : World) :
  heap w !! me = Some u -> startswith_slash line = true ->
  Ssh.unhandled line = true -> Ssh.handle_command e me line w = Raised w.
Proof.
  intros Hme Hs Hun.
  pose proof (ssh_handle_command_dispatch e me u line w Hme Hs) as Hx.
  rewrite Hun in Hx. exact Hx.
Qed.

Lemma ssh_handled_returns (e : Ssh.Env) (me : nat) (u : User) (line : str)
    (w : World) :
  heap w !! me = Some u -> startswith_slash line = true ->
  Ssh.unhandled line = false ->
  exists w', Ssh.handle_command e me line w = Returned w'.
Proof.
  intros Hme Hs Hun.
  pose proof (ssh_handle_command_dispatch e me u line w Hme Hs) as Hx.
  rewrite Hun in Hx. exact Hx.
Qed.

Lemma ssh_handle_line_raised (e : Ssh.Env) (me : nat) (raw : str) (w w' : World) :
  Ssh.handle_line e me raw w = Raised w' -> w' = w.
Proof.
  unfold Ssh.handle_line. destruct (heap w !! me) as [u|] eqn:Hme; [|discriminate].
  destruct (strip raw) as [|c r]; [discriminate|].
  destruct (startswith_slash (c :: r)) eqn:Hs.
  - destruct (Ssh.unhandled (c :: r)) eqn:Hun.
    + rewrite (ssh_unhandled_raises e me u _ w Hme Hs Hun). congruence.
    + destruct (ssh_handled_returns e me u _ w Hme Hs Hun) as (w1 & ->).
      discriminate.
  - destruct (400 <? length (c :: r))%nat; discriminate.
Qed.

(** X19.  The command interpreter of the variant lets an exception out
    on these lines and on no other: [/ssh @] with nothing after the
    sign ([IndexError]); [/history] or [/sshyes] with an argument that
    passes [isdigit] and that [int] refuses ([ValueError]); [/history]
    with a limit that does not fit 64 bits ([OverflowError] of the
    query).  Nothing has been written or changed when it is raised; on
    every other command line the interpreter returns. *)
Theorem ssh_exceptions (e : Ssh.Env) (me : nat) (u : User) (line : str) (w : World) :
  heap w !! me = Some u -> startswith_slash line = true ->
  if Ssh.unhandled line
  then Ssh.handle_command e me line w = Raised w
  else exists w', Ssh.handle_command e me line w = Returned w'.
Proof.
  intros Hme Hslash. destruct (Ssh.unhandled line) eqn:Hun.
  - exact (ssh_unhandled_raises e me u line w Hme Hslash Hun).
  - exact (ssh_handled_returns e me u line w Hme Hslash Hun).
Qed.

(** X20.  A line on which the handler raises ends the session as an
    end of stream does: nothing was done before the exception, and it
    runs the [finally] block of [handle_client], which takes the sender
    out of the registry, tells the others, and closes the stream.  The
    line is one of those of X19. *)
Theorem ssh_exception_ends_session (e : Ssh.Env) (me : nat) (raw : str)
    (w w1 : World) :
  connectedb w me = true ->
  Ssh.handle_line e me raw w = Raised w1 ->
  w1 = w
  /\ startswith_slash (strip raw) = true
  /\ Ssh.unhandled (strip raw) = true
  /\ Ssh.step w (Ssh.Recv me e raw) = Ssh.step w (Ssh.Eof me)
  /\ connectedb (Ssh.step w (Ssh.Recv me e raw)) me = false.
Proof.
  intros Hc Hx.
  destruct (connectedb_open w me Hc) as (u & Hme & Hopen).
  pose proof (ssh_handle_line_raised e me raw w w1 Hx) as ->.
  assert (Ssh.step w (Ssh.Recv me e raw) = Ssh.disconnect me w) as E
    by (cbn [Ssh.step]; rewrite Hc, Hx; reflexivity).
  split; [reflexivity|].
  assert (startswith_slash (strip raw) = true /\ Ssh.unhandled (strip raw) = true)
    as [Hslash Hun].
  { unfold Ssh.handle_line in Hx. rewrite Hme in Hx.
    destruct (strip raw) as [|c r]; [discriminate|].
    destruct (startswith_slash (c :: r)) eqn:Hs;
      [|destruct (400 <? length (c :: r))%nat; discriminate].
    split; [reflexivity|].
    destruct (Ssh.unhandled (c :: r)) eqn:Hun; [reflexivity|].
    destruct (ssh_handled_returns e me u _ w Hme Hs Hun) as (w2 & Hr).
    congruence. }
  split; [exact Hslash|]. split; [exact Hun|].
  split; [rewrite E; cbn [Ssh.step]; rewrite Hc; reflexivity|].
  rewrite E. unfold Ssh.disconnect. rewrite Hme.
  unfold connectedb. cbn [heap set_heap]. rewrite lookup_alter_eq.
  match goal with
  | |- context [heap (broadcast ?m ?s ?w1) !! me] =>
      destruct (heap (broadcast m s w1) !! me); reflexivity
  end.
Qed.

End SshExceptions.

(** ** The registry of the variant *)

Section SshRegistry.

Context {T : PyText}.

Create HintDb chat.

#[local] Hint Resolve preserves_refl preserves_frame preserves_insert_row
  send_msg_frame send_lines_frame broadcast_frame send_to_frame
  same_but_sent_refl : chat.

Lemma ssh_cmd_nick_preserves (me : nat) (u : User) (args : str) (w : World) :
  heap w !! me = Some u -> w_closed (writer u) = false ->
  preserves w (world_of (Ssh.cmd_nick me u args w)).
Proof.
  intros Hme Hopen. unfold Ssh.cmd_nick.
  destruct args as [|a args']; [simpl; auto with chat|].
  generalize (a :: args'). intros args.
  destruct (split args) as [|tok rest]; [simpl; auto with chat|].
  destruct (nick_in_use w u (lower (take 24 tok))) eqn:Hfree;
    [simpl; auto with chat|].
  cbn [world_of].
  eapply preserves_trans; [apply (preserves_renamed me u (take 24 tok) w); auto|].
  eapply preserves_trans; [apply preserves_frame, broadcast_frame|].
  apply preserves_frame, send_msg_frame.
Qed.

Lemma ssh_cmd_msg_preserves (k : Clock) (me : nat) (u : User) (args : str)
    (w : World) :
  preserves w (world_of (Ssh.cmd_msg k me u args w)).
Proof.
  unfold Ssh.cmd_msg.
  destruct (negb (contains SP args)); [simpl; auto with chat|].
  destruct (split_sp1 args) as [|target [|msg [|x y]]];
    try (simpl; auto with chat; fail).
  destruct (negb (bool_decide (is_Some (users w !! lower target))));
    [simpl; auto with chat|].
  match goal with
  | |- context [send_to ?n ?m ?x] =>
      pose proof (send_to_frame n m x) as F; destruct (send_to n m x) as [v w2]
  end.
  simpl in *.
  eapply preserves_trans; [apply preserves_frame, send_msg_frame|].
  eapply preserves_trans; [apply preserves_frame, F|].
  apply preserves_insert_row.
Qed.

Lemma ssh_cmd_history_frame (me : nat) (u : User) (args : str) (w : World) :
  same_but_sent w (world_of (Ssh.cmd_history me u args w)).
Proof.
  unfold Ssh.cmd_history.
  destruct (Ssh.history_limit args) as [limit|]; [|apply same_but_sent_refl].
  destruct (Ssh.is_infix (lit "dm") (lower args));
    unfold Ssh.history_dm, Ssh.history_public;
    match goal with
    | |- context [Ssh.fetch_desc ?p limit ?tbl] =>
        destruct (Ssh.fetch_desc p limit tbl) as [fetched|]
    end; cbn [world_of]; try apply same_but_sent_refl;
    (eapply same_but_sent_trans; [apply send_msg_frame|apply send_lines_frame]).
Qed.

Lemma ssh_cmd_color_preserves (me : nat) (u : User) (args : str) (w : World) :
  heap w !! me = Some u ->
  preserves w (world_of (Ssh.cmd_color me u args w)).
Proof.
  intros Hme. unfold Ssh.cmd_color.
  destruct (Ssh.one_of (lower args) [lit "on"; lit "yes"; lit "true"]);
    cbn [world_of].
  { eapply preserves_trans; [|apply preserves_frame, send_msg_frame].
    rewrite (insert_as_alter me u (set_colors true)) by auto.
    apply preserves_alter. intros; split; reflexivity. }
  destruct (Ssh.one_of (lower args) [lit "off"; lit "no"; lit "false"]);
    cbn [world_of].
  { eapply preserves_trans; [|apply preserves_frame, send_msg_frame].
    rewrite (insert_as_alter me u (set_colors false)) by auto.
    apply preserves_alter. intros; split; reflexivity. }
  auto with chat.
Qed.

Lemma ssh_cmd_ssh_frame (e : Ssh.Env) (me : nat) (u : User) (args : str) (w : World) :
  same_but_sent w (world_of (Ssh.cmd_ssh e me u args w)).
Proof.
  unfold Ssh.cmd_ssh.
  destruct (negb (is_prefix [Ssh.AT] args)); cbn [world_of]; [apply send_msg_frame|].
  destruct (split (drop 1 args)) as [|tok tl]; cbn [world_of];
    [apply same_but_sent_refl|].
  destruct (str_eqb (lower (strip tok)) (lower (nick u))); cbn [world_of];
    [apply send_msg_frame|].
  destruct (users w !! lower (strip tok)) as [target|]; cbn [world_of];
    [|apply send_msg_frame].
  eapply same_but_sent_trans; apply send_msg_frame.
Qed.

Lemma ssh_cmd_sshyes_frame (e : Ssh.Env) (me : nat) (u : User) (args : str)
    (w : World) :
  same_but_sent w (world_of (Ssh.cmd_sshyes e me u args w)).
Proof.
  unfold Ssh.cmd_sshyes.
  destruct (negb (isdigit args)); cbn [world_of]; [apply send_msg_frame|].
  destruct (int_of_str args) as [port|]; cbn [world_of];
    [|apply same_but_sent_refl].
  destruct (negb ((50000 <=? port)%Z && (port <=? 59999)%Z)); cbn [world_of];
    [apply send_msg_frame|].
  eapply same_but_sent_trans; [apply broadcast_frame|apply send_msg_frame].
Qed.

Lemma ssh_handle_command_preserves (e : Ssh.Env) (me : nat) (u : User) (line : str)
    (w : World) :
  heap w !! me = Some u -> w_closed (writer u) = false ->
  preserves w (world_of (Ssh.handle_command e me line w)).
Proof.
  intros Hme Hopen. unfold Ssh.handle_command. rewrite Hme.
  destruct (parse_command line) as [[cmd args]|]; [|cbn [world_of]; auto with chat].
  destruct (str_eqb cmd (lit "help")); [cbn [world_of]; auto with chat|].
  destruct (str_eqb cmd (lit "nick")); [apply ssh_cmd_nick_preserves; auto|].
  destruct (str_eqb cmd (lit "msg") || str_eqb cmd (lit "dm"));
    [apply ssh_cmd_msg_preserves|].
  destruct (str_eqb cmd (lit "history"));
    [apply preserves_frame, ssh_cmd_history_frame|].
  destruct (str_eqb cmd (lit "color")); [apply ssh_cmd_color_preserves; auto|].
  destruct (str_eqb cmd (lit "ssh")); [apply preserves_frame, ssh_cmd_ssh_frame|].
  destruct (str_eqb cmd (lit "sshyes"));
    [apply preserves_frame, ssh_cmd_sshyes_frame|].
  cbn [world_of]. auto with chat.
Qed.

Lemma ssh_handle_line_preserves (e : Ssh.Env) (me : nat) (u : User) (raw : str)
    (w : World) :
  heap w !! me = Some u -> w_closed (writer u) = false ->
  preserves w (world_of (Ssh.handle_line e me raw w)).
Proof.
  intros Hme Hopen. unfold Ssh.handle_line. rewrite Hme.
  destruct (strip raw) as [|c line'] eqn:E; [cbn [world_of]; auto with chat|].
  generalize (c :: line'). intros line.
  destruct (startswith_slash line); [eapply ssh_handle_command_preserves; eauto|].
  destruct (400 <? length line)%nat; cbn [world_of]; [auto with chat|].
  eapply preserves_trans; [apply preserves_frame, broadcast_frame|].
  apply preserves_insert_row.
Qed.

Lemma ssh_connect_registry_ok (w : World) :
  registry_ok w -> registry_ok (Ssh.connect w).
Proof.
  intros [R1 R2]. unfold Ssh.connect.
  eapply registry_ok_frame; [apply broadcast_frame|].
  eapply registry_ok_frame; [apply send_lines_frame|].
  split; simpl.
  - intros key o Hk. rewrite lookup_insert in Hk. case_decide; subst.
    + injection Hk as <-. rewrite lookup_insert_eq. eauto.
    + destruct (R1 key o Hk) as (u & Hu & Hkey & Hc).
      assert (o < next_obj w)%nat by (apply R2; eauto).
      rewrite lookup_insert_ne by lia. eauto.
  - intros o Ho. rewrite lookup_insert in Ho. case_decide; subst; [lia|].
    specialize (R2 o Ho). lia.
Qed.

Lemma ssh_connect_all_registered (w : World) :
  registry_ok w -> users w !! lower (lit "Guest") = None ->
  all_registered w -> all_registered (Ssh.connect w).
Proof.
  intros [R1 R2] Hfree R. unfold Ssh.connect.
  eapply all_registered_frame; [apply broadcast_frame|].
  eapply all_registered_frame; [apply send_lines_frame|].
  intros o u Hu Hc. simpl in *.
  rewrite lookup_insert in Hu. case_decide; subst.
  - injection Hu as <-. simpl. apply lookup_insert_eq.
  - pose proof (R o u Hu Hc) as Ho.
    rewrite lookup_insert_ne; [assumption|].
    intros E. rewrite <- E, Hfree in Ho. discriminate.
Qed.

Lemma ssh_disconnect_registry_ok (me : nat) (w : World) :
  registry_ok w -> registry_ok (Ssh.disconnect me w).
Proof.
  intros R. unfold Ssh.disconnect.
  destruct (heap w !! me) as [u|] eqn:Hme; [|assumption].
  destruct (unregister_unlisted me u w R Hme) as (R1 & U1 & _).
  cbv zeta in *.
  apply registry_ok_close.
  - intros key. pose proof (broadcast_frame (lit "* " ++ nick u ++ lit " left") None
      (if bool_decide (is_Some (users w !! lower (nick u)))
       then set_users (delete (lower (nick u))) w else w)) as (Eu & _).
    rewrite Eu. apply U1.
  - eapply registry_ok_frame; [apply broadcast_frame|]. exact R1.
Qed.

Lemma ssh_disconnect_all_registered (me : nat) (w : World) :
  connectedb w me = true -> registry_ok w ->
  all_registered w -> all_registered (Ssh.disconnect me w).
Proof.
  intros Hc R A. destruct (connectedb_open _ _ Hc) as (u & Hme & Hopen).
  unfold Ssh.disconnect. rewrite Hme.
  destruct (unregister_unlisted me u w R Hme) as (_ & _ & Hh & Hk).
  cbv zeta in *.
  match goal with
  | |- all_registered (set_heap _ (broadcast ?m ?s ?w1)) =>
      pose proof (broadcast_frame m s w1) as F;
      set (w2 := broadcast m s w1) in *;
      set (w1' := w1) in *
  end.
  intros o u' Hu' Hcl. simpl in Hu'. rewrite lookup_alter in Hu'.
  case_decide; subst.
  - destruct (heap w2 !! o) as [x|]; [|discriminate].
    simpl in Hu'. injection Hu' as <-. simpl in Hcl. discriminate.
  - destruct (same_but_sent_lookup _ _ _ _ F Hu') as (u1 & Hu1 & Hs).
    apply shape_fields in Hs as (Hn & _ & _ & Hcl').
    rewrite Hh in Hu1. destruct F as (Eu & _). simpl. rewrite Eu, <- Hn.
    pose proof (A o u1 Hu1 ltac:(congruence)) as Ho.
    rewrite Hk; [assumption|].
    intros E. rewrite E, (A me u Hme Hopen) in Ho. congruence.
Qed.

Lemma ssh_step_registry_ok (w : World) (ev : Ssh.event) :
  registry_ok w -> registry_ok (Ssh.step w ev).
Proof.
  intros R. destruct ev as [|me e raw|me|me]; simpl.
  - apply ssh_connect_registry_ok, R.
  - destruct (connectedb w me) eqn:Hc; [|assumption].
    destruct (connectedb_open _ _ Hc) as (u & Hme & Hopen).
    pose proof (ssh_handle_line_preserves e me u raw w Hme Hopen) as [P _].
    destruct (Ssh.handle_line e me raw w); simpl in P; auto.
    apply ssh_disconnect_registry_ok; auto.
  - destruct (connectedb w me); [apply ssh_disconnect_registry_ok|]; assumption.
  - apply registry_ok_alter; [|assumption]. intros u; split; reflexivity.
Qed.

Lemma ssh_step_all_registered (w : World) (ev : Ssh.event) :
  Ssh.placeholder_free w [ev] = true -> registry_ok w ->
  all_registered w -> all_registered (Ssh.step w ev).
Proof.
  intros F R A. destruct ev as [|me e raw|me|me]; simpl in *.
  - apply ssh_connect_all_registered; auto.
    rewrite andb_true_r in F. apply bool_decide_eq_true in F. exact F.
  - destruct (connectedb w me) eqn:Hc; [|assumption].
    destruct (connectedb_open _ _ Hc) as (u & Hme & Hopen).
    pose proof (ssh_handle_line_preserves e me u raw w Hme Hopen) as [_ P].
    destruct (Ssh.handle_line e me raw w) as [w'|w'] eqn:E; simpl in P; auto.
    apply ssh_handle_line_raised in E. subst w'.
    apply ssh_disconnect_all_registered; auto.
  - destruct (connectedb w me) eqn:Hc; [|assumption].
    apply ssh_disconnect_all_registered; auto.
  - apply all_registered_alter; [|assumption]. intros u; split; reflexivity.
Qed.

Lemma ssh_run_registry_ok (evs : list Ssh.event) (w : World) :
  registry_ok w -> registry_ok (Ssh.run w evs).
Proof.
  revert w. induction evs as [|ev evs IH]; intros w R; simpl; [assumption|].
  apply IH, ssh_step_registry_ok, R.
Qed.

Lemma ssh_run_all_registered (evs : list Ssh.event) (w : World) :
  Ssh.placeholder_free w evs = true -> registry_ok w ->
  all_registered w -> all_registered (Ssh.run w evs).
Proof.
  revert w. induction evs as [|ev evs IH]; intros w F R A; simpl; [assumption|].
  simpl in F. apply andb_true_iff in F as [F1 F2].
  apply IH; [assumption|apply ssh_step_registry_ok, R|].
  apply ssh_step_all_registered; auto.
  simpl. rewrite F1. reflexivity.
Qed.

(** X21.  The registry of the variant over whole runs, the sessions
    ended by an exception among them: each key is the lower-cased nick
    of the session it maps to, and that session is connected; no
    session is filed under two keys; and, when no connection was
    accepted while the key of the default nick was in the registry, the
    registered sessions are exactly the connected ones. *)
Theorem ssh_registry_invariant (evs : list Ssh.event) :
  let w := Ssh.run world0 evs in
  (forall key o, users w !! key = Some o ->
     exists u, heap w !! o = Some u /\ key = lower (nick u) /\ connected w o)
  /\ (forall k1 k2 o, users w !! k1 = Some o -> users w !! k2 = Some o -> k1 = k2)
  /\ (Ssh.placeholder_free world0 evs = true ->
      forall o, connected w o <-> exists key, users w !! key = Some o).
Proof.
  intros w.
  pose proof (ssh_run_registry_ok evs world0 world0_registry_ok) as R.
  fold w in R. pose proof R as [R1 _].
  split; [|split].
  - intros key o Hk. destruct (R1 key o Hk) as (u & Hu & Hkey & Hc).
    exists u. repeat split; auto. exists u. auto.
  - intros k1 k2 o H1 H2.
    destruct (R1 k1 o H1) as (u1 & Hu1 & -> & _).
    destruct (R1 k2 o H2) as (u2 & Hu2 & -> & _).
    congruence.
  - intros F o.
    pose proof (ssh_run_all_registered evs world0 F world0_registry_ok
                  world0_all_registered) as A.
    fold w in A. split.
    + intros (u & Hu & Hc). exists (lower (nick u)). apply A; auto.
    + intros (key & Hk). destruct (R1 key o Hk) as (u & Hu & _ & Hc).
      exists u. auto.
Qed.

(** X27.  [/ssh] and [/sshyes] write to streams and do nothing else:
    the registry, the table, the nicks and the color flags are as
    before, whichever way the command ends.  No request is recorded by
    the one, and none is looked for by the other. *)
Theorem ssh_requests_not_recorded (e : Ssh.Env) (me : nat) (line : str) (w : World) :
  verb_of line = lit "ssh" \/ verb_of line = lit "sshyes" ->
  same_but_sent w (world_of (Ssh.handle_command e me line w)).
Proof.
  intros Hv. unfold Ssh.handle_command.
  destruct (heap w !! me) as [u|]; [|apply same_but_sent_refl].
  unfold verb_of in Hv.
  destruct (parse_command line) as [[cmd args]|]; [|apply same_but_sent_refl].
  destruct Hv as [->| ->]; closed_verbs; cbn [orb].
  - apply ssh_cmd_ssh_frame.
  - apply ssh_cmd_sshyes_frame.
Qed.

End SshRegistry.

(** ** Shell requests *)

Lemma apply_color_push (ds : list str) (u : User) (t : str) :
  apply_color (push ds u) t = apply_color u t.
Proof.
  unfold apply_color. destruct (push_fields ds u) as (_ & -> & _). reflexivity.
Qed.

Lemma select_desc_rows (p : Row -> bool) (limit : Z) (tbl : list Row) :
  rev (select_desc p limit tbl)
  = if (limit <? 0)%Z then List.filter p tbl
    else drop (length (List.filter p tbl) - Z.to_nat limit) (List.filter p tbl).
Proof.
  unfold select_desc. destruct (limit <? 0)%Z; [apply rev_involutive|].
  rewrite firstn_rev, rev_involutive. reflexivity.
Qed.

Section SshShell.

Context {T : PyText}.

Lemma skipped_own_key (n : str) : n <> [] -> skipped (Some n) (lower n) = true.
Proof.
  intros Hn. unfold skipped. destruct n as [|c r]; [contradiction|].
  apply bool_decide_eq_true_2. reflexivity.
Qed.

Lemma skipped_other_key (n key : str) :
  key <> lower n -> skipped (Some n) key = false.
Proof.
  intros Hk. unfold skipped. destruct n as [|c r]; [reflexivity|].
  apply bool_decide_eq_false_2. exact Hk.
Qed.

(** X22.  [/ssh @nick] for a nick that is registered and is not the
    sender's: the session filed under it is sent the request, with the
    sender's nick and a port, as a reply line that is not colored; the
    sender is told that it went out; nothing else changes.  The port
    is one that [/sshyes] takes, given that [randbelow] keeps below its
    bound. *)
Theorem ssh_request_delivered (e : Ssh.Env) (me o : nat) (u : User)
    (line rest tok : str) (more : list str) (w : World) :
  registry_ok w ->
  heap w !! me = Some u ->
  parse_command line = Some (lit "ssh", Ssh.AT :: rest) ->
  split rest = tok :: more ->
  lower (strip tok) <> lower (nick u) ->
  users w !! lower (strip tok) = Some o ->
  (0 <= Ssh.randbelow e < 10000)%Z ->
  exists w' uo port,
    Ssh.handle_command e me line w = Returned w'
    /\ o <> me /\ heap w !! o = Some uo
    /\ port = (Ssh.randbelow e + 50000)%Z
    /\ ((50000 <=? port)%Z && (port <=? 59999)%Z = true)
    /\ users w' = users w /\ messages w' = messages w
    /\ heap w' !! o = Some (push [reply (Ssh.shell_request (nick u) port)] uo)
    /\ heap w' !! me
       = Some (push [reply (lit "Shell request sent to @" ++ strip tok ++ lit " "
                            ++ [Ssh.EM_DASH] ++ lit " waiting for /sshyes ...")] u)
    /\ forall o', o' <> me -> o' <> o -> heap w' !! o' = heap w !! o'.
Proof.
  intros [R1 _] Hme Hp Hs Hself Hon Hr.
  destruct (R1 _ _ Hon) as (uo & Huo & Hkey & _).
  assert (o <> me) as Hom by (intros ->; congruence).
  unfold Ssh.handle_command. rewrite Hme, Hp. closed_verbs. cbn [orb].
  unfold Ssh.cmd_ssh. cbn [is_prefix]. rewrite N.eqb_refl. cbn [andb negb].
  change (drop 1 (Ssh.AT :: rest)) with rest. rewrite Hs.
  unfold str_eqb. rewrite bool_decide_eq_false_2 by assumption. rewrite Hon.
  destruct (send_msg_effect o uo
              (Ssh.shell_request (nick u) (Ssh.randbelow e + 50000)) w Huo)
    as (E1 & E2 & E3 & E4).
  match goal with
  | |- context [send_msg me ?t (send_msg o ?r w)] =>
      set (w1 := send_msg o r w) in *;
      assert (heap w1 !! me = Some u) as Hme1
        by (rewrite E4 by auto; exact Hme);
      destruct (send_msg_effect me u t w1 Hme1) as (F1 & F2 & F3 & F4)
  end.
  eexists _, uo, _. split; [reflexivity|].
  split; [exact Hom|]. split; [exact Huo|]. split; [reflexivity|].
  split; [apply andb_true_iff; split; apply Z.leb_le; lia|].
  split; [congruence|]. split; [congruence|].
  split; [rewrite F4 by exact Hom; exact E3|].
  split; [exact F3|].
  intros o' H1 H2. rewrite F4 by exact H1. apply E4, H2.
Qed.

(** X23.  [/sshyes] with a port from 50000 to 59999, sent by anybody at
    any time: every session registered under a key other than the
    sender's lower-cased nick is sent the notice, with the sender's
    nick, the address and the port, rendered for it; the sender is sent
    the instructions and not the notice; a session without an entry,
    or one filed under the sender's key, is sent nothing; the registry
    and the table are as before. *)
Theorem sshyes_announced (e : Ssh.Env) (me : nat) (u : User) (line args : str)
    (port : Z) (w : World) :
  registry_ok w ->
  heap w !! me = Some u ->
  nick u <> [] ->
  parse_command line = Some (lit "sshyes", args) ->
  isdigit args = true ->
  int_of_str args = Some port ->
  (50000 <= port <= 59999)%Z ->
  exists w',
    Ssh.handle_command e me line w = Returned w'
    /\ users w' = users w /\ messages w' = messages w
    /\ (forall key o v, users w !! key = Some o -> key <> lower (nick u) ->
          heap w !! o = Some v ->
          o <> me
          /\ heap w' !! o
             = Some (push [apply_color v (Ssh.accepted_notice (nick u) (Ssh.my_ip e) port)
                           ++ CRLF] v))
    /\ heap w' !! me = Some (push [reply (Ssh.listen_hint port)] u)
    /\ (forall o, o <> me -> unlisted w o \/ users w !! lower (nick u) = Some o ->
          heap w' !! o = heap w !! o).
Proof.
  intros R Hme Hnick Hp Hd Hint Hrange. pose proof R as [R1 _].
  unfold Ssh.handle_command. rewrite Hme, Hp. closed_verbs. cbn [orb].
  unfold Ssh.cmd_sshyes. rewrite Hd, Hint. cbn [negb].
  assert ((50000 <=? port)%Z && (port <=? 59999)%Z = true) as ->
    by (apply andb_true_iff; split; apply Z.leb_le; lia).
  cbn [negb].
  destruct (broadcast_lookup (Ssh.accepted_notice (nick u) (Ssh.my_ip e) port)
              (Some (nick u)) w R) as (Eu & Em & _ & Hhit & Hother).
  set (w1 := broadcast _ _ w) in *.
  assert (heap w1 !! me = Some u) as Hme1.
  { destruct (decide (users w !! lower (nick u) = Some me)) as [Hin|Hout].
    - rewrite (Hhit _ _ Hin), skipped_own_key by exact Hnick. exact Hme.
    - rewrite Hother; [exact Hme|]. intros key Hk.
      destruct (R1 _ _ Hk) as (u0 & Hu0 & -> & _).
      apply Hout. congruence. }
  destruct (send_msg_effect me u (Ssh.listen_hint port) w1 Hme1)
    as (F1 & F2 & F3 & F4).
  eexists. split; [reflexivity|].
  split; [congruence|]. split; [congruence|].
  split; [|split; [exact F3|]].
  - intros key o v Hk Hne Hv.
    assert (o <> me) as Hom.
    { intros ->. destruct (R1 _ _ Hk) as (u0 & Hu0 & E & _). congruence. }
    split; [exact Hom|].
    rewrite F4 by exact Hom.
    rewrite (Hhit _ _ Hk), skipped_other_key by exact Hne.
    rewrite Hv. simpl. rewrite received_push. reflexivity.
  - intros o Hom [Hun|Hkey]; rewrite F4 by exact Hom.
    + apply Hother, Hun.
    + rewrite (Hhit _ _ Hkey), skipped_own_key by exact Hnick. reflexivity.
Qed.

(** X24.  [/sshyes] with a number outside 50000 to 59999: the sender is
    told so, nobody else is told anything, and nothing else changes. *)
Theorem sshyes_out_of_range (e : Ssh.Env) (me : nat) (u : User) (line args : str)
    (port : Z) (w : World) :
  heap w !! me = Some u ->
  parse_command line = Some (lit "sshyes", args) ->
  isdigit args = true ->
  int_of_str args = Some port ->
  (port < 50000 \/ 59999 < port)%Z ->
  exists w',
    Ssh.handle_command e me line w = Returned w'
    /\ users w' = users w /\ messages w' = messages w
    /\ heap w' !! me = Some (push [reply (lit "Port out of allowed range")] u)
    /\ forall o, o <> me -> heap w' !! o = heap w !! o.
Proof.
  intros Hme Hp Hd Hint Hrange.
  unfold Ssh.handle_command. rewrite Hme, Hp. closed_verbs. cbn [orb].
  unfold Ssh.cmd_sshyes. rewrite Hd, Hint. cbn [negb].
  assert ((50000 <=? port)%Z && (port <=? 59999)%Z = false) as ->.
  { apply andb_false_iff. destruct Hrange; [left|right]; apply Z.leb_gt; lia. }
  cbn [negb]. eexists. split; [reflexivity|].
  apply send_msg_effect, Hme.
Qed.

End SshShell.

(** ** History and private messages in the variant *)

Section SshHistory.

Context {T : PyText}.

Lemma ssh_history_limit_cap (args : str) (limit : Z) :
  Ssh.history_limit args = Some limit -> (limit <= 300)%Z.
Proof.
  unfold Ssh.history_limit. destruct (isdigit args).
  { destruct (int_of_str args); [intros [= <-]; lia|discriminate]. }
  destruct (is_prefix (lit "dm") (lower (strip args))); [|intros [= <-]; lia].
  destruct (split args) as [|a [|b r]]; try (intros [= <-]; lia).
  destruct (int_of_str b); intros [= <-]; lia.
Qed.

(** X25.  [/history] in the variant, with the limit it reads from the
    argument text, which is at most 300.  When the limit fits 64 bits:
    the listing is the private one exactly when "dm" occurs somewhere
    in the lower-cased argument text; the sender is sent a header with
    the number of rows and then the rows, oldest first, one line each;
    these are the last [limit] matching rows of the table, and all of
    them when the limit is negative; nothing else changes.  When the
    limit does not fit 64 bits, the query raises, before anything is
    sent. *)
Theorem ssh_history_lists (e : Ssh.Env) (me : nat) (u : User) (line args : str)
    (limit : Z) (dm : bool) (w : World) :
  heap w !! me = Some u ->
  parse_command line = Some (lit "history", args) ->
  Ssh.history_limit args = Some limit ->
  Ssh.is_infix (lit "dm") (lower args) = dm ->
  (limit <= 300)%Z
  /\ if fits_int64 limit
     then
       exists w' rows,
         Ssh.handle_command e me line w = Returned w'
         /\ (let hits := List.filter (if dm then involves (nick u) else is_public)
                           (messages w) in
             rows = if (limit <? 0)%Z then hits
                    else drop (length hits - Z.to_nat limit) hits)
         /\ users w' = users w /\ messages w' = messages w
         /\ heap w' !! me
            = Some (push (map reply
                      (((if dm then lit "Recent DMs (" else lit "Recent chat (")
                        ++ str_of_nat (length rows) ++ lit "):")
                       :: map (if dm then dm_line (nick u) else public_line) rows)) u)
         /\ (forall o, o <> me -> heap w' !! o = heap w !! o)
     else Ssh.handle_command e me line w = Raised w.
Proof.
  intros Hme Hp Hlim Hdm.
  split; [exact (ssh_history_limit_cap args limit Hlim)|].
  unfold Ssh.handle_command. rewrite Hme, Hp. closed_verbs. cbn [orb].
  unfold Ssh.cmd_history. rewrite Hlim, Hdm.
  unfold Ssh.history_dm, Ssh.history_public. rewrite !ssh_fetch_desc_cases.
  destruct (fits_int64 limit); [|destruct dm; reflexivity].
  destruct dm.
  - rewrite select_desc_rows.
    eexists _, _. split; [reflexivity|]. split; [reflexivity|].
    match goal with
    | |- context [send_lines me ?ls (send_msg me ?h w)] =>
        destruct (history_reply me u h ls w Hme) as (E1 & E2 & E3 & E4)
    end.
    repeat split; auto.
  - rewrite select_desc_rows.
    eexists _, _. split; [reflexivity|]. split; [reflexivity|].
    match goal with
    | |- context [send_lines me ?ls (send_msg me ?h w)] =>
        destruct (history_reply me u h ls w Hme) as (E1 & E2 & E3 & E4)
    end.
    repeat split; auto.
Qed.

Lemma msg_request_parse (line target msg : str) :
  msg_request line = Some (target, msg) ->
  exists cmd args,
    parse_command line = Some (cmd, args)
    /\ (cmd = lit "msg" \/ cmd = lit "dm")
    /\ contains SP args = true /\ split_sp1 args = [target; msg].
Proof.
  unfold msg_request.
  destruct (parse_command line) as [[cmd args]|]; [|discriminate].
  destruct (str_eqb cmd (lit "msg") || str_eqb cmd (lit "dm")) eqn:Hv;
    [|discriminate].
  destruct (contains SP args) eqn:Hsp; [|discriminate]. cbn [andb].
  destruct (split_sp1 args) as [|a [|b [|c r]]] eqn:Hs; try discriminate.
  intros [= <- <-]. exists cmd, args.
  split; [reflexivity|]. split; [|split; [exact Hsp|exact Hs]].
  apply orb_true_iff in Hv as [Hv|Hv]; apply bool_decide_eq_true in Hv; auto.
Qed.

(** X26.  The variant has no test for a message to oneself: when the
    target lower-cases to the sender's own key, the sender is sent the
    confirmation and then its own text back, the second rendered for
    it, and the row is stored. *)
Theorem ssh_msg_to_self (e : Ssh.Env) (me : nat) (u : User)
    (line target msg : str) (w : World) :
  heap w !! me = Some u ->
  msg_request line = Some (target, msg) ->
  lower target = lower (nick u) ->
  users w !! lower (nick u) = Some me ->
  exists w',
    Ssh.handle_command e me line w = Returned w'
    /\ users w' = users w
    /\ messages w'
       = messages w ++ [mkRow (nick u) (Some target) msg
                          (current_timestamp (Ssh.clock e))]
    /\ heap w' !! me
       = Some (push [reply (lit "[" ++ hhmm (Ssh.clock e) ++ lit "] " ++ [ARROW_R]
                            ++ lit " " ++ target ++ lit " " ++ msg);
                     apply_color u (lit "[" ++ hhmm (Ssh.clock e) ++ lit "] "
                                    ++ [ARROW_L] ++ lit " " ++ nick u ++ lit " " ++ msg)
                     ++ CRLF] u)
    /\ forall o, o <> me -> heap w' !! o = heap w !! o.
Proof.
  intros Hme Hreq Hself Hon.
  destruct (msg_request_parse line target msg Hreq)
    as (cmd & args & Hp & Hv & Hsp & Hs).
  unfold Ssh.handle_command. rewrite Hme, Hp.
  assert ((if str_eqb cmd (lit "help") then Returned (send_lines me Ssh.help_lines w)
           else if str_eqb cmd (lit "nick") then Ssh.cmd_nick me u args w
           else if str_eqb cmd (lit "msg") || str_eqb cmd (lit "dm")
           then Ssh.cmd_msg (Ssh.clock e) me u args w
           else if str_eqb cmd (lit "history") then Ssh.cmd_history me u args w
           else if str_eqb cmd (lit "color") then Ssh.cmd_color me u args w
           else if str_eqb cmd (lit "ssh") then Ssh.cmd_ssh e me u args w
           else if str_eqb cmd (lit "sshyes") then Ssh.cmd_sshyes e me u args w
           else Returned w) = Ssh.cmd_msg (Ssh.clock e) me u args w) as ->
    by (destruct Hv; subst cmd; closed_verbs; reflexivity).
  unfold Ssh.cmd_msg. rewrite Hsp, Hs. cbn [negb].
  rewrite Hself, Hon. rewrite bool_decide_eq_true_2 by eauto. cbn [negb].
  match goal with
  | |- context [send_msg me ?t w] =>
      destruct (send_msg_effect me u t w Hme) as (E1 & E2 & E3 & E4);
      set (w1 := send_msg me t w) in *
  end.
  unfold send_to. rewrite E1, Hself, Hon.
  eexists. split; [reflexivity|].
  match goal with
  | |- context [deliver me ?m w1] =>
      pose proof (deliver_frame me m w1) as (F1 & F2 & _);
      pose proof (fun o' => deliver_lookup me o' m w1) as F3
  end.
  unfold insert_row. cbn [users messages heap].
  rewrite F1, F2, E1, E2. repeat split.
  - rewrite F3. case_decide; [|congruence].
    rewrite E3. simpl. rewrite received_push, apply_color_push, push_push.
    reflexivity.
  - intros o Ho. rewrite F3. case_decide; [congruence|]. apply E4, Ho.
Qed.

End SshHistory.

(** ** The properties of the variant on sample runs *)

Lemma ssh_exceptions_superscript :
  let w := Ssh.after_chatty in
  let line := lit "/sshyes " ++ [178%N] in
  let deep := lit "/history dm -9223372036854775809" in
  isdigit (PyText := latin1_text) [178%N] = true
  /\ int_of_str (PyText := latin1_text) [178%N] = None
  /\ Ssh.handle_command (T := latin1_text) Ssh.quiet 0 line w = Raised w
  /\ Ssh.history_limit (T := latin1_text) (lit "dm -9223372036854775809")
       = Some (-9223372036854775809)%Z
  /\ Ssh.handle_command (T := latin1_text) Ssh.quiet 0 deep w = Raised w
  /\ exists w', Ssh.handle_command (T := latin1_text) Ssh.quiet 0
                  (lit "/history dm -9223372036854775808") w = Returned w'.
Proof.
  intros w line deep. split; [reflexivity|]. split; [reflexivity|].
  destruct (heap w !! 0%nat) as [u|] eqn:Hu; [|vm_compute in Hu; discriminate].
  split; [|split; [vm_compute; reflexivity|split]].
  - pose proof (ssh_exceptions (T := latin1_text) Ssh.quiet 0 u line w Hu
                  ltac:(vm_compute; reflexivity)) as H.
    assert (Ssh.unhandled (T := latin1_text) line = true) as Hun
      by (vm_compute; reflexivity).
    rewrite Hun in H. exact H.
  - pose proof (ssh_exceptions (T := latin1_text) Ssh.quiet 0 u deep w Hu
                  ltac:(vm_compute; reflexivity)) as H.
    assert (Ssh.unhandled (T := latin1_text) deep = true) as Hun
      by (vm_compute; reflexivity).
    rewrite Hun in H. exact H.
  - pose proof (ssh_exceptions (T := latin1_text) Ssh.quiet 0 u
                  (lit "/history dm -9223372036854775808") w Hu
                  ltac:(vm_compute; reflexivity)) as H.
    assert (Ssh.unhandled (T := latin1_text)
              (lit "/history dm -9223372036854775808") = false) as Hun
      by (vm_compute; reflexivity).
    rewrite Hun in H. exact H.
Defined.

Lemma ssh_exception_ends_session_overflow :
  let w := Ssh.after_chatty in
  let raw := lit " /history dm -9223372036854775809 " in
  let w' := Ssh.step (T := latin1_text) w (Ssh.Recv 1 Ssh.quiet raw) in
  connectedb w 1 = true
  /\ Ssh.handle_line (T := latin1_text) Ssh.quiet 1 raw w = Raised w
  /\ w' = Ssh.step (T := latin1_text) w (Ssh.Eof 1)
  /\ connectedb w' 1 = false
  /\ users w' !! lit "bob" = None
  /\ sent_to w' 1 = sent_to w 1
  /\ sent_to w' 0 = sent_to w 0 ++ [lit "* bob left" ++ CRLF].
Proof.
  intros w raw w'. split; [vm_compute; reflexivity|].
  assert (Ssh.handle_line (T := latin1_text) Ssh.quiet 1 raw w = Raised w) as Hx
    by (vm_compute; reflexivity).
  split; [exact Hx|].
  destruct (ssh_exception_ends_session (T := latin1_text) Ssh.quiet 1 raw w w
              ltac:(vm_compute; reflexivity) Hx) as (_ & _ & _ & E1 & E2).
  split; [exact E1|]. split; [exact E2|].
  split; [vm_compute; reflexivity|]. split; vm_compute; reflexivity.
Defined.

Lemma ssh_registry_invariant_after_exception :
  let evs := Ssh.chatty ++ [Ssh.Recv 1 Ssh.quiet (lit "/ssh @")] in
  let w := Ssh.run (T := latin1_text) world0 evs in
  Ssh.placeholder_free (T := latin1_text) world0 evs = true
  /\ connectedb w 1 = false
  /\ forall o, connected w o <-> exists key, users w !! key = Some o.
Proof.
  intros evs w. split; [vm_compute; reflexivity|].
  split; [vm_compute; reflexivity|].
  apply (proj2 (proj2 (ssh_registry_invariant (T := latin1_text) evs))).
  vm_compute; reflexivity.
Defined.

Lemma ssh_request_delivered_bob :
  let w := Ssh.after_chatty in
  let line := lit "/ssh @BOB now" in
  exists w',
    Ssh.handle_command (T := latin1_text) Ssh.quiet 0 line w = Returned w'
    /\ sent_to w' 1 = sent_to w 1 ++ [reply (Ssh.shell_request (lit "alice") 54242)]
    /\ sent_to w' 2 = sent_to w 2.
Proof.
  intros w line.
  assert (registry_ok (T := latin1_text) w) as R
    by (apply ssh_run_registry_ok, world0_registry_ok).
  destruct (heap w !! 0%nat) as [u|] eqn:Hu; [|vm_compute in Hu; discriminate].
  assert (nick u = lit "alice") as Hn
    by (vm_compute in Hu; injection Hu as <-; reflexivity).
  destruct (ssh_request_delivered (T := latin1_text) Ssh.quiet 0 1 u line
              (lit "BOB now") (lit "BOB") [lit "now"] w R Hu
              ltac:(vm_compute; reflexivity) ltac:(vm_compute; reflexivity)
              ltac:(rewrite Hn; vm_compute; discriminate)
              ltac:(vm_compute; reflexivity)
              ltac:(vm_compute; split; [discriminate|reflexivity]))
    as (w' & uo & port & Hr & _ & Huo & -> & _ & _ & _ & Ho & _ & Hoth).
  exists w'. split; [exact Hr|]. unfold sent_to. split.
  - rewrite Ho, Huo, Hn. vm_compute in Huo. injection Huo as <-. reflexivity.
  - rewrite (Hoth 2%nat) by discriminate. reflexivity.
Defined.

Lemma sshyes_announced_by_guest :
  let w := Ssh.after_chatty in
  let line := lit "/sshyes 54242" in
  let notice := Ssh.accepted_notice (lit "Guest") (lit "192.0.2.7") 54242 in
  exists w',
    Ssh.handle_command (T := latin1_text) Ssh.quiet 2 line w = Returned w'
    /\ sent_to w' 0 = sent_to w 0 ++ [notice ++ CRLF]
    /\ sent_to w' 1 = sent_to w 1 ++ [notice ++ CRLF]
    /\ sent_to w' 2 = sent_to w 2 ++ [reply (Ssh.listen_hint 54242)].
Proof.
  intros w line notice.
  assert (registry_ok (T := latin1_text) w) as R
    by (apply ssh_run_registry_ok, world0_registry_ok).
  destruct (heap w !! 2%nat) as [u|] eqn:Hu; [|vm_compute in Hu; discriminate].
  assert (nick u = lit "Guest") as Hn
    by (vm_compute in Hu; injection Hu as <-; reflexivity).
  destruct (sshyes_announced (T := latin1_text) Ssh.quiet 2 u line (lit "54242")
              54242 w R Hu ltac:(rewrite Hn; discriminate)
              ltac:(vm_compute; reflexivity) ltac:(vm_compute; reflexivity)
              ltac:(vm_compute; reflexivity) ltac:(lia))
    as (w' & Hr & _ & _ & Hall & Hme & _).
  exists w'. split; [exact Hr|]. unfold sent_to. split; [|split].
  - destruct (heap w !! 0%nat) as [v|] eqn:Hv; [|vm_compute in Hv; discriminate].
    destruct (Hall (lit "alice") 0%nat v ltac:(vm_compute; reflexivity)
                ltac:(rewrite Hn; vm_compute; discriminate) Hv) as [_ ->].
    rewrite Hn. vm_compute in Hv. injection Hv as <-. reflexivity.
  - destruct (heap w !! 1%nat) as [v|] eqn:Hv; [|vm_compute in Hv; discriminate].
    destruct (Hall (lit "bob") 1%nat v ltac:(vm_compute; reflexivity)
                ltac:(rewrite Hn; vm_compute; discriminate) Hv) as [_ ->].
    rewrite Hn. vm_compute in Hv. injection Hv as <-. reflexivity.
  - rewrite Hme. vm_compute in Hu. injection Hu as <-. reflexivity.
Defined.

Lemma sshyes_out_of_range_22 :
  let w := Ssh.after_chatty in
  exists w',
    Ssh.handle_command (T := latin1_text) Ssh.quiet 2 (lit "/sshyes 22") w
    = Returned w'
    /\ sent_to w' 2 = sent_to w 2 ++ [reply (lit "Port out of allowed range")]
    /\ sent_to w' 0 = sent_to w 0 /\ sent_to w' 1 = sent_to w 1.
Proof.
  intros w.
  destruct (heap w !! 2%nat) as [u|] eqn:Hu; [|vm_compute in Hu; discriminate].
  destruct (sshyes_out_of_range (T := latin1_text) Ssh.quiet 2 u (lit "/sshyes 22")
              (lit "22") 22 w Hu ltac:(vm_compute; reflexivity)
              ltac:(vm_compute; reflexivity) ltac:(vm_compute; reflexivity)
              ltac:(lia))
    as (w' & Hr & _ & _ & Hme & Hoth).
  exists w'. split; [exact Hr|]. unfold sent_to. split; [|split].
  - rewrite Hme. vm_compute in Hu. injection Hu as <-. reflexivity.
  - rewrite (Hoth 0%nat) by discriminate. reflexivity.
  - rewrite (Hoth 1%nat) by discriminate. reflexivity.
Defined.

Lemma ssh_history_lists_all_dms :
  let w := Ssh.after_chatty in
  let line := lit "/history dm -1" in
  Ssh.history_limit (T := latin1_text) (lit "dm -1") = Some (-1)%Z
  /\ exists w',
       Ssh.handle_command (T := latin1_text) Ssh.quiet 0 line w = Returned w'
       /\ sent_to w' 0
          = sent_to w 0
            ++ map reply [ lit "Recent DMs (3):";
                           lit "[12:00] " ++ [ARROW_R] ++ lit " bob one";
                           lit "[12:00] " ++ [ARROW_L] ++ lit " bob two";
                           lit "[12:00] " ++ [ARROW_R] ++ lit " None hello all" ].
Proof.
  intros w line. split; [vm_compute; reflexivity|].
  destruct (heap w !! 0%nat) as [u|] eqn:Hu; [|vm_compute in Hu; discriminate].
  destruct (ssh_history_lists (T := latin1_text) Ssh.quiet 0 u line (lit "dm -1")
              (-1) true w Hu ltac:(vm_compute; reflexivity)
              ltac:(vm_compute; reflexivity) ltac:(vm_compute; reflexivity))
    as (_ & w' & rows & Hr & Hrows & _ & _ & Hme & _).
  exists w'. split; [exact Hr|]. unfold sent_to. rewrite Hme.
  cbv zeta in Hrows. subst rows.
  vm_compute in Hu. injection Hu as <-. vm_compute. reflexivity.
Defined.

Lemma ssh_msg_to_self_bob :
  let w := Ssh.after_chatty in
  let line := lit "/msg BOB note to self" in
  exists w',
    Ssh.handle_command (T := latin1_text) Ssh.quiet 1 line w = Returned w'
    /\ messages w'
       = messages w ++ [mkRow (lit "bob") (Some (lit "BOB")) (lit "note to self")
                          (current_timestamp noon)]
    /\ sent_to w' 1
       = sent_to w 1
         ++ [ reply (lit "[12:00] " ++ [ARROW_R] ++ lit " BOB note to self");
              COLORS.yellow ++ lit "[12:00]" ++ COLORS.reset ++ lit " "
              ++ COLORS.purple ++ [ARROW_L] ++ COLORS.reset
              ++ lit " bob note to self" ++ CRLF ].
Proof.
  intros w line.
  destruct (heap w !! 1%nat) as [u|] eqn:Hu; [|vm_compute in Hu; discriminate].
  assert (nick u = lit "bob") as Hn
    by (vm_compute in Hu; injection Hu as <-; reflexivity).
  destruct (ssh_msg_to_self (T := latin1_text) Ssh.quiet 1 u line (lit "BOB")
              (lit "note to self") w Hu ltac:(vm_compute; reflexivity)
              ltac:(rewrite Hn; vm_compute; reflexivity)
              ltac:(rewrite Hn; vm_compute; reflexivity))
    as (w' & Hr & _ & Hm & Hme & _).
  exists w'. split; [exact Hr|]. split; [rewrite Hm, Hn; reflexivity|].
  unfold sent_to. rewrite Hme.
  vm_compute in Hu. injection Hu as <-. vm_compute. reflexivity.
Defined.

Lemma ssh_requests_not_recorded_sshyes :
  let w := Ssh.after_chatty in
  let w' := world_of (Ssh.handle_command (T := latin1_text) Ssh.quiet 2
                        (lit "/sshyes 54242") w) in
  users w' = users w /\ messages w' = messages w
  /\ (colors_enabled <$> heap w' !! 1%nat) = Some true.
Proof.
  intros w w'.
  destruct (ssh_requests_not_recorded (T := latin1_text) Ssh.quiet 2
              (lit "/sshyes 54242") w ltac:(right; vm_compute; reflexivity))
    as (Eu & Em & _ & _).
  split; [exact Eu|]. split; [exact Em|]. vm_compute. reflexivity.
Defined.

(** ** The limit [server.py] binds

    [server.py] reads its limit from a string that passes [isdigit]
    once stripped.  Over the two databases of this file such a string
    never reads as a negative number, so the limit lies between 0 and
    300 and the query of [select_desc] is never refused for it. *)

Lemma history_limit_range {T : PyText} (args : str) :
  (forall n, isdigit (strip args) = true -> int_of_str args = Some n -> (0 <= n)%Z) ->
  (0 <= history_limit args <= 300)%Z /\ fits_int64 (history_limit args) = true.
Proof.
  intros Hpos.
  assert (0 <= history_limit args <= 300)%Z as H.
  { unfold history_limit. destruct (isdigit (strip args)) eqn:Hd; [|lia].
    destruct (int_of_str args) as [n|] eqn:Hn; [|lia].
    specialize (Hpos n eq_refl eq_refl). lia. }
  split; [exact H|]. unfold fits_int64.
  apply andb_true_iff. split; apply Z.leb_le; lia.
Qed.

Lemma decimal_from_nonneg (s : str) (acc : Z) :
  (0 <= acc)%Z ->
  (0 <= fold_left (fun a c => (10 * a + Z.of_N (c - 48))%Z) s acc)%Z.
Proof.
  revert acc. induction s as [|c s IH]; intros acc Hacc; simpl; [exact Hacc|].
  apply IH. lia.
Qed.

Lemma ascii_digits_nonneg (s : str) (n : Z) :
  int_of_str (PyText := ascii_text) s = Some n -> (0 <= n)%Z.
Proof.
  simpl. unfold Ascii7.int_of_str.
  destruct (Ascii7.isdigit (strip s)); [|discriminate].
  intros [= <-]. apply decimal_from_nonneg. lia.
Qed.

Lemma latin1_digits_from_nonneg (s : str) (prev : bool) (acc n : Z) :
  (0 <= acc)%Z -> Latin1.digits prev acc s = Some n -> (0 <= n)%Z.
Proof.
  revert prev acc. induction s as [|c s IH]; intros prev acc Hacc; simpl.
  - destruct prev; [intros [= <-]; exact Hacc|discriminate].
  - destruct (Ascii7.is_digit c).
    + apply IH. lia.
    + destruct ((c =? UNDERSCORE) && prev); [apply IH, Hacc|discriminate].
Qed.

Lemma drop_space_incl (c : N) (s : str) : In c (Latin1.drop_space s) -> In c s.
Proof.
  induction s as [|x s IH]; simpl; [auto|].
  destruct (Latin1.int_space x); [auto|]. simpl. auto.
Qed.

Lemma lstrip_keeps (c : N) (s : str) :
  isspace c = false -> In c s -> In c (lstrip s).
Proof.
  intros Hc. induction s as [|x s IH]; simpl; [auto|].
  intros [->|Hin].
  - rewrite Hc. left. reflexivity.
  - destruct (isspace x); [auto|]. right. exact Hin.
Qed.

Lemma strip_keeps (c : N) (s : str) :
  isspace c = false -> In c s -> In c (strip s).
Proof.
  intros Hc Hin. unfold strip, rstrip.
  rewrite <- in_rev. apply lstrip_keeps; [exact Hc|].
  rewrite <- in_rev. apply lstrip_keeps; assumption.
Qed.

Lemma latin1_digits_nonneg (s : str) (n : Z) :
  isdigit (PyText := latin1_text) (strip s) = true ->
  int_of_str (PyText := latin1_text) s = Some n -> (0 <= n)%Z.
Proof.
  simpl. unfold Latin1.int_of_str. intros Hd.
  destruct (rev (Latin1.drop_space (rev (Latin1.drop_space s)))) as [|c t] eqn:Et;
    [discriminate|].
  destruct (c =? 43); [apply latin1_digits_from_nonneg; lia|].
  destruct (c =? HYPHEN) eqn:Ec; [|apply latin1_digits_from_nonneg; lia].
  apply N.eqb_eq in Ec. subst c.
  assert (In HYPHEN s) as Hin.
  { apply drop_space_incl. rewrite in_rev. apply drop_space_incl.
    rewrite in_rev, Et. left. reflexivity. }
  apply (strip_keeps HYPHEN s eq_refl) in Hin.
  unfold Latin1.isdigit, Ascii7.nonempty_all in Hd.
  destruct (strip s) as [|x r]; [discriminate|].
  rewrite forallb_forall in Hd. specialize (Hd HYPHEN Hin). discriminate.
Qed.

Lemma history_limit_binds (args : str) :
  fits_int64 (history_limit (T := ascii_text) args) = true
  /\ fits_int64 (history_limit (T := latin1_text) args) = true.
Proof.
  split; apply history_limit_range.
  - intros n _. apply ascii_digits_nonneg.
  - intros n. apply latin1_digits_nonneg.
Qed.
